(** * RAPIDS example notebooks: a shallow embedding of the repository's own code

    The repository consists of Jupyter notebooks.  The code cells that carry
    logic of their own are embedded here:

    - [notebooks_Apply_Operations_in_cuDF.ipynb]: the user kernels handed to
      cuDF's [apply_rows] and [apply_chunks] (array doubling, moving average);
    - [Weighted-Jaccard.ipynb]: the vertex renumbering cell and the linear scan
      for the most similar pair;
    - the PCA notebook: [load_data], [array_equal], [to_nparray];
    - [coordinate_descent_demo.ipynb]: [load_data] with its 80:20 split.

    cuDF, Numba, NumPy, pandas and scikit-learn are external; the few of their
    operations the cells rely on are modelled after their documentation, each
    with a comment saying so. *)

From Stdlib Require Import ZArith List Lia QArith Qabs.
From stdpp Require Import base list gmap strings pretty.

Local Open Scope Z_scope.

(** ** Python [range] and [for] loops *)

Fixpoint range_from (count : nat) (start step : Z) : list Z :=
  match count with
  | O => []
  | S k => start :: range_from k (start + step) step
  end.

(** [range(start, stop, step)] for a positive step, the only kind the
    notebooks use; its length is [ceil((stop - start) / step)], or 0. *)
Definition pyrange (start stop step : Z) : list Z :=
  if 0 <? step
  then range_from (Z.to_nat ((stop - start + step - 1) / step)) start step
  else [].

(** [for i in l: s = body(i, s)] *)
Definition for_each {I S : Type} (l : list I) (body : I -> S -> S) (s : S) : S :=
  fold_left (fun acc i => body i acc) l s.

(** ** Device arrays

    A Numba device array is a view on a buffer: an offset, a stride and a
    length.  Basic slicing makes a new view on the same buffer.  Indexing is
    not bounds-checked on the device: index [i] of a view addresses buffer cell
    [off + i * step] whatever the view's length is, after Python's
    wrap-around of a negative [i]. *)

(** The binary64 operations the kernels use, kept abstract: the theorems on
    the kernels hold for every interpretation, IEEE doubles included. *)
Class Float64 (num : Type) := {
  f_zero : num;                       (* 0.0 *)
  f_two : num;                        (* 2.0 *)
  f_inf : num;                        (* np.inf *)
  f_add : num -> num -> num;
  f_mul : num -> num -> num;
  f_div : num -> num -> num;
  f_of_int : Z -> num;                (* np.float64(k) *)
  f_stray : num                       (* what a load outside the buffer yields *)
}.

Record ndarray (num : Type) := NdArray {
  buf : list num;
  off : Z;
  step : Z;
  size : Z
}.
Arguments NdArray {num}.
Arguments buf {num}.
Arguments off {num}.
Arguments step {num}.
Arguments size {num}.

Section DeviceArrays.
Context {num : Type} `{Float64 num}.

(** A whole column as an array. *)
Definition column (l : list num) : ndarray num :=
  NdArray l 0 1 (Z.of_nat (length l)).

(** The buffer cell that index [i] addresses in a view of offset [o], stride
  [s] and length [z]. *)
Definition view_cell (o s z i : Z) : Z :=
  o + (if i <? 0 then i + z else i) * s.

Definition cell (a : ndarray num) (i : Z) : Z :=
  view_cell (off a) (step a) (size a) i.

(** [a[i]] *)
Definition getitem (a : ndarray num) (i : Z) : num :=
  let p := cell a i in
  if 0 <=? p then default f_stray (buf a !! Z.to_nat p) else f_stray.

(** [a[i] = v]; a store that misses the buffer leaves the buffer as it is. *)
Definition setitem (a : ndarray num) (i : Z) (v : num) : ndarray num :=
  let p := cell a i in
  if 0 <=? p
  then NdArray (<[Z.to_nat p := v]> (buf a)) (off a) (step a) (size a)
  else a.

(** Python's clipping of a slice bound to the array. *)
Definition clip (a : ndarray num) (x : Z) : Z :=
  if x <? 0 then Z.max 0 (x + size a) else Z.min x (size a).

(** [a[lo:hi]] *)
Definition slice (a : ndarray num) (lo hi : Z) : ndarray num :=
  let lo' := clip a lo in
  let hi' := clip a hi in
  NdArray (buf a) (off a + lo' * step a) (step a) (Z.max 0 (hi' - lo')).

(** [a[lo::st]] for a positive [st] *)
Definition slice_from_by (a : ndarray num) (lo st : Z) : ndarray num :=
  let lo' := clip a lo in
  NdArray (buf a) (off a + lo' * step a) (step a * st)
          (Z.of_nat (length (pyrange lo' (size a) st))).

(** [col.sum()] *)
Definition col_sum (l : list num) : num := fold_left f_add l f_zero.

(** The order in which a device reduction adds the rows of a column is the
    library's own: [Row i] stands for row [i], [Plus l r] for the sum of two
    partial results.  [col_sum] adds row after row. *)
Inductive reduction : Type :=
| Row (i : nat)
| Plus (l r : reduction).

Fixpoint reduce (s : reduction) (col : list num) : num :=
  match s with
  | Row i => default f_zero (col !! i)
  | Plus l r => f_add (reduce l col) (reduce r col)
  end.

End DeviceArrays.

(** ** cuDF's launchers

  [DataFrame.apply_rows] and [DataFrame.apply_chunks] belong to cuDF.  They
  are modelled after cuDF's documentation and generated wrapper kernels:

  - [apply_rows] runs the user function once per GPU thread [tid] of [ntid],
    on the strided views [col[tid::ntid]] of every column;
  - [apply_chunks] takes the start offsets of the chunks; chunk [k] spans
    rows [chunks[k] : chunks[k+1]], the last one [chunks[k] : nrows]; every
    chunk is given to one block, and the user function runs once per thread
    of the block on the slices [col[start:stop]] of every column.  An
    integer [chunks] stands for the offsets [0, chunks, 2*chunks, ...].

  Blocks and threads run in parallel on the device.  The kernels below never
  read the column they write, so a run is modelled as the threads taking
  their turn one after the other; [fold_painters_permuted] and
  [moving_average_any_order] below show that the outcome does not depend
  on the order of the turns. *)
Section Launchers.
Context {num : Type} `{Float64 num}.

(** One turn of one thread: the output buffer before and after. *)
Definition turn := list num -> list num.

Definition row_wise_kernel
    (inner : ndarray num -> ndarray num -> ndarray num)
    (in1 : list num) (ntid tid : Z) : turn :=
  fun out =>
    buf (inner (slice_from_by (column in1) tid ntid)
               (slice_from_by (column out) tid ntid)).

Definition apply_rows
    (inner : ndarray num -> ndarray num -> ndarray num)
    (ntid : Z) (in1 out : list num) : list num :=
  for_each (pyrange 0 ntid 1) (row_wise_kernel inner in1 ntid) out.

(** [start = chunks[curblk]];
    [stop = chunks[curblk + 1] if curblk + 1 < chunks.size else nrows] *)
Fixpoint chunk_bounds (nrows : Z) (chunks : list Z) : list (Z * Z) :=
  match chunks with
  | [] => []
  | start :: rest =>
      (start, match rest with [] => nrows | stop :: _ => stop end)
        :: chunk_bounds nrows rest
  end.

(** The user function as a block sees it: [cuda.threadIdx.x],
    [cuda.blockDim.x], then the sliced columns. *)
Definition chunk_wise_kernel
    (inner : Z -> Z -> ndarray num -> ndarray num -> ndarray num)
    (in1 : list num) (tpb : Z) (bounds : Z * Z) (tid : Z) : turn :=
  fun out =>
    buf (inner tid tpb (slice (column in1) (fst bounds) (snd bounds))
                       (slice (column out) (fst bounds) (snd bounds))).

Definition apply_chunks
    (inner : Z -> Z -> ndarray num -> ndarray num -> ndarray num)
    (chunks : list Z) (tpb : Z) (in1 out : list num) : list num :=
  for_each (chunk_bounds (Z.of_nat (length in1)) chunks)
    (fun bounds => for_each (pyrange 0 tpb 1)
                     (chunk_wise_kernel inner in1 tpb bounds))
    out.

(** [chunks=k] with an integer [k] *)
Definition normalize_chunks (nrows k : Z) : list Z := pyrange 0 nrows k.

(** The turns of a launch, block by block and thread by thread, and a launch
  that takes its turns in a given order. *)
Definition chunk_turns (nrows : Z) (chunks : list Z) (tpb : Z)
  : list ((Z * Z) * Z) :=
  bounds ← chunk_bounds nrows chunks;
  tid ← pyrange 0 tpb 1;
  [(bounds, tid)].

Definition run_turns
  (inner : Z -> Z -> ndarray num -> ndarray num -> ndarray num)
  (in1 : list num) (tpb : Z) (order : list ((Z * Z) * Z))
  (out : list num) : list num :=
  for_each order (fun bt => chunk_wise_kernel inner in1 tpb bt.1 bt.2) out.

End Launchers.

(** ** notebooks_Apply_Operations_in_cuDF.ipynb *)

(** First cell: doubling through [apply_rows].  The kernel's [print] of the
  thread coordinates has no effect on the columns and is left out. *)
Module DoubleRows.
Section Defs.
Context {num : Type} `{Float64 num}.

(** [for i, x in enumerate(in1): out[i] = x * 2.0] *)
Definition kernel (in1 out : ndarray num) : ndarray num :=
  for_each (pyrange 0 (size in1) 1)
    (fun i out => setitem out i (f_mul (getitem in1 i) f_two)) out.

(** [df.apply_rows(kernel, incols=['in1'], outcols=dict(out=np.float64))];
    [out] is the freshly allocated output column, [ntid] the number of
    threads cuDF launches. *)
Definition run (ntid : Z) (in1 out : list num) : list num :=
  apply_rows kernel ntid in1 out.
End Defs.
End DoubleRows.

(** Second cell: the same through [apply_chunks], with a thread-strided loop. *)
Module DoubleChunks.
Section Defs.
Context {num : Type} `{Float64 num}.

(** [for i in range(cuda.threadIdx.x, in1.size, cuda.blockDim.x):
       out[i] = in1[i] * 2.0] *)
Definition kernel (threadIdx blockDim : Z) (in1 out : ndarray num)
  : ndarray num :=
  for_each (pyrange threadIdx (size in1) blockDim)
    (fun i out => setitem out i (f_mul (getitem in1 i) f_two)) out.

(** [df.apply_chunks(kernel, ..., chunks=16, tpb=8)] for any chunk size and
    block width *)
Definition run (chunks tpb : Z) (in1 out : list num) : list num :=
  apply_chunks kernel
    (normalize_chunks (Z.of_nat (length in1)) chunks) tpb in1 out.

(** The work of lane [t] in a block of [w] lanes on a chunk of [n] rows. *)
Definition lane_rows (t w n : Z) : list Z := pyrange t n w.
End Defs.
End DoubleChunks.

(** Fourth cell: the moving average. *)
Module MovingAverage.
Section Defs.
Context {num : Type} `{Float64 num}.

Definition average_window : Z := 4.
Definition threads_per_block : Z := 128.
Definition trunk_size : Z := 10240.

(** The body shared by both kernels:
    [summ = 0.0; for j in range(i - average_length + 1, i + 1):
     summ += in1[j]; out[i] = summ / np.float64(average_length)] *)
Definition window_mean (in1 out : ndarray num) (average_length i : Z)
  : ndarray num :=
  let summ :=
    for_each (pyrange (i - average_length + 1) (i + 1) 1)
      (fun j summ => f_add summ (getitem in1 j)) f_zero in
  setitem out i (f_div summ (f_of_int average_length)).

Definition kernel1 (average_length : Z) (threadIdx blockDim : Z)
    (in1 out : ndarray num) : ndarray num :=
  let out :=
    for_each (pyrange threadIdx (average_length - 1) blockDim)
      (fun i out => setitem out i f_inf) out in
  for_each (pyrange (threadIdx + average_length - 1) (size in1) blockDim)
    (fun i out => window_mean in1 out average_length i) out.

Definition kernel2 (average_length : Z) (threadIdx blockDim : Z)
    (in1 out : ndarray num) : ndarray num :=
  if size in1 - average_length + threadIdx - average_length + 1 <? 0
  then out
  else
    for_each (pyrange (size in1 - average_length + threadIdx)
                      (size in1) blockDim)
      (fun i out => window_mean in1 out average_length i) out.

(** The two launches of the cell.  [out] is the output column that the
    first launch allocates; the second launch passes it as an input column,
    so [kernel2] writes into it in place. *)
Definition run (average_window trunk_size threads_per_block : Z)
    (in1 out : list num) : list num :=
  let data_length := Z.of_nat (length in1) in
  let out :=
    apply_chunks (kernel1 average_window)
      (pyrange 0 data_length trunk_size ++ [data_length])
      threads_per_block in1 out in
  apply_chunks (kernel2 average_window)
    ([0] ++ pyrange average_window data_length trunk_size ++ [data_length])
    threads_per_block in1 out.

(** The reference, in the words of the specification: the mean of the [w]
    values ending at row [i], as [rolling(w).mean()] defines it; the values
    are summed from [0.0] in the order of the rows. *)
Definition rolling_mean (w : Z) (in1 : list num) (i : Z) : num :=
  f_div (col_sum (take (Z.to_nat w) (drop (Z.to_nat (i - w + 1)) in1)))
        (f_of_int w).

(** The indices that lane [t] of a block of [w] lanes stores to on a chunk
    of [n] rows: the ranges of the two loops of [kernel1], and the range of
    the loop of [kernel2] behind its guard. *)
Definition kernel1_rows (average_length t w n : Z) : list Z :=
  pyrange t (average_length - 1) w ++ pyrange (t + average_length - 1) n w.

Definition kernel2_rows (average_length t w n : Z) : list Z :=
  if n - average_length + t - average_length + 1 <? 0 then []
  else pyrange (n - average_length + t) n w.
End Defs.
End MovingAverage.

(** ** An exact interpretation of the arithmetic

    Rationals with an infinity, every result reduced to lowest terms so that
    equal values are equal terms.  It stands in for binary64 wherever a
    concrete run is evaluated; it shares with binary64 every value that is
    computed without rounding. *)
Inductive xrat : Type :=
| Fin (q : Q)
| Inf
| Stray.

Definition xrat_lift (op : Q -> Q -> Q) (a b : xrat) : xrat :=
  match a, b with
  | Fin x, Fin y => Fin (Qred (op x y))
  | Stray, _ | _, Stray => Stray
  | _, _ => Inf
  end.

#[export] Instance xrat_float64 : Float64 xrat := {|
  f_zero := Fin 0;
  f_two := Fin 2;
  f_inf := Inf;
  f_add := xrat_lift Qplus;
  f_mul := xrat_lift Qmult;
  f_div := xrat_lift Qdiv;
  f_of_int := fun k => Fin (inject_Z k);
  f_stray := Stray
|}.

(** [np.arange(n, dtype=np.float64)] *)
Definition arange (n : nat) : list xrat :=
  map (fun k => Fin (inject_Z (Z.of_nat k))) (seq 0 n).

(** ** Exceptions, files and the outside world

    A cell either returns or raises.  An exception is raised either by a
    [raise] statement of the notebook itself or inside a library it calls. *)
Inductive origin : Type := Own | Library.

Inductive outcome (A : Type) : Type :=
| Return (a : A)
| Raise (who : origin) (class : string) (msg : string).
Arguments Return {A}.
Arguments Raise {A}.

Inductive mode : Type := ReadMode | WriteMode | AppendMode.
Inductive codec : Type := Plain | Gzip.
Inductive format : Type := FlatCsv | NumpyArray | OtherFormat.

(** What a cell does to the world outside the interpreter. *)
Inductive event : Type :=
| Stat (path : string) (present : bool)            (* os.path.exists *)
| Open (path : string) (m : mode) (c : codec)
| Parse (path : string) (f : format)
| Printed (line : string).

(** A two-dimensional NumPy array: [shape = (length rows, width)]. *)
Record matrix (val : Type) := Matrix {
  width : nat;
  rows : list (list val)
}.
Arguments Matrix {val}.
Arguments width {val}.
Arguments rows {val}.

Inductive file (val : Type) : Type :=
| CsvFile (lines : list (Z * Z))      (* two tab-separated integers per line *)
| NpyGzFile (X : matrix val)           (* a gzip-compressed .npy array *)
| OtherFile.
Arguments CsvFile {val}.
Arguments NpyGzFile {val}.
Arguments OtherFile {val}.

(** The world a notebook runs in: the files on disk, NumPy's random source
    and scikit-learn's sample generator (both external). *)
Record world (val : Type) := World {
  files : gmap string (file val);
  randint : Z -> Z -> Z -> list Z;                  (* low, high, size *)
  make_regression : Z -> Z -> matrix val * list val (* n_samples, n_features *)
}.
Arguments World {val}.
Arguments files {val}.
Arguments randint {val}.
Arguments make_regression {val}.

(** Cells as computations: they read the world, leave a trace of events and
    return or raise. *)
Definition io (val A : Type) : Type := world val -> list event * outcome A.

Section IO.
Context {val : Type}.

Definition io_ret {A} (a : A) : io val A := fun _ => ([], Return a).

Definition io_bind {A B} (m : io val A) (k : A -> io val B) : io val B :=
  fun w =>
    match m w with
    | (t, Return a) => let '(t', r) := k a w in (t ++ t', r)
    | (t, Raise who c msg) => (t, Raise who c msg)
    end.

Definition io_raise {A} (who : origin) (class msg : string) : io val A :=
  fun _ => ([], Raise who class msg).

Definition emit (e : event) : io val () := fun _ => ([e], Return ()).

(** [print(line)] *)
Definition print (line : string) : io val () := emit (Printed line).

(** [os.path.exists(path)] *)
Definition os_path_exists (path : string) : io val bool :=
  fun w =>
    let present := bool_decide (is_Some (files w !! path)) in
    ([Stat path present], Return present).

(** [gzip.open(path)], mode ['rb'] by default; the handle is named by its
    path. *)
Definition gzip_open (path : string) : io val string :=
  fun w =>
    match files w !! path with
    | None => ([Open path ReadMode Gzip],
               Raise Library "FileNotFoundError" path)
    | Some _ => ([Open path ReadMode Gzip], Return path)
    end.

(** [np.load(f)] on an open handle *)
Definition np_load (f : string) : io val (matrix val) :=
  fun w =>
    match files w !! f with
    | Some (NpyGzFile X) => ([Parse f NumpyArray], Return X)
    | _ => ([Parse f NumpyArray], Raise Library "OSError" f)
    end.

(** [cudf.read_csv(path, names=[..], delimiter='\t', dtype=['int32', 'int32'])] *)
Definition cudf_read_csv (path : string) : io val (list (Z * Z)) :=
  fun w =>
    match files w !! path with
    | None => ([Open path ReadMode Plain],
               Raise Library "FileNotFoundError" path)
    | Some (CsvFile lines) =>
        ([Open path ReadMode Plain; Parse path FlatCsv], Return lines)
    | Some _ => ([Open path ReadMode Plain; Parse path FlatCsv],
                 Raise Library "ValueError" path)
    end.

(** [np.random.randint(low, high, size)]: [size] draws from [low, high).
    A draw of no samples is empty whatever the range is; otherwise an empty
    range or a negative size is a [ValueError]. *)
Definition np_random_randint (low high n : Z) : io val (list Z) :=
  fun w =>
    if n =? 0 then ([], Return [])
    else if (low <? high) && (0 <=? n)
    then ([], Return (randint w low high n))
    else ([], Raise Library "ValueError" "randint").

(** What a call of [np.random.randint] that returns has drawn. *)
Definition draws (w : world val) (low high n : Z) : list Z :=
  if n =? 0 then [] else randint w low high n.

(** [make_regression(n_samples=.., n_features=.., n_informative=..,
    random_state=0)] *)
Definition sk_make_regression (n_samples n_features : Z)
  : io val (matrix val * list val) :=
  fun w =>
    if (0 <=? n_samples) && (0 <=? n_features)
    then ([], Return (make_regression w n_samples n_features))
    else ([], Raise Library "ValueError" "make_regression").

End IO.

#[export] Instance io_mret {val} : MRet (io val) := @io_ret val.
#[export] Instance io_mbind {val} : MBind (io val) :=
  fun A B k m => io_bind m k.

(** ** NumPy and pandas values (external; after their documentation) *)

(** [l[lo:hi]] on a sequence, bounds clipped as Python does. *)
Definition py_clip {A} (l : list A) (x : Z) : nat :=
  let n := Z.of_nat (length l) in
  Z.to_nat (if x <? 0 then Z.max 0 (x + n) else Z.min x n).

Definition py_slice {A} (l : list A) (lo hi : Z) : list A :=
  take (py_clip l hi - py_clip l lo)%nat (drop (py_clip l lo) l).

(** [l[lo:]] *)
Definition py_slice_from {A} (l : list A) (lo : Z) : list A :=
  drop (py_clip l lo) l.

(** [l[i]] with Python's wrap-around of negative indices; [None] stands for
    [IndexError]. *)
Definition py_index {A} (l : list A) (i : Z) : option A :=
  let n := Z.of_nat (length l) in
  if (0 <=? i) && (i <? n) then l !! Z.to_nat i
  else if (- n <=? i) && (i <? 0) then l !! Z.to_nat (i + n)
  else None.

Section Arrays.
Context {val : Type}.

(** Every row of an array has the array's width. *)
Definition rectangular (X : matrix val) : Prop :=
  Forall (fun r => length r = width X) (rows X).

(** [X[:, i]]; every row of a rectangular array has a cell [i < width]. *)
Definition column_of (X : matrix val) (i : nat) : list val :=
  omap (fun r => r !! i) (rows X).

(** [X[:, cols]] with a list of column numbers *)
Definition select_columns (X : matrix val) (cols : list nat) : matrix val :=
  Matrix (length cols) (map (fun r => omap (fun i => r !! i) cols) (rows X)).

(** [X[:, lo:hi]] *)
Definition column_slice (X : matrix val) (lo hi : Z) : matrix val :=
  let probe := replicate (width X) () in
  Matrix (length (py_slice probe lo hi))
         (map (fun r => py_slice r lo hi) (rows X)).

(** [X[idx]] with a list of row numbers; [None] stands for [IndexError]. *)
Definition take_rows (X : matrix val) (idx : list Z) : option (matrix val) :=
  Matrix (width X) <$> mapM (py_index (rows X)) idx.

(** [X[lo:hi]] and [X[lo:]] on rows *)
Definition row_slice (X : matrix val) (lo hi : Z) : matrix val :=
  Matrix (width X) (py_slice (rows X) lo hi).

Definition row_slice_from (X : matrix val) (lo : Z) : matrix val :=
  Matrix (width X) (py_slice_from (rows X) lo).

(** A pandas DataFrame: its named columns, in order. *)
Definition dataframe : Type := list (string * list val).


(** ['fea%d' % i] *)
Definition fea (i : nat) : string := "fea" +:+ pretty i.

(** [pd.DataFrame({'fea%d'%i: X[:, i] for i in range(X.shape[1])})] *)
Definition frame_of (X : matrix val) : dataframe :=
  map (fun i => (fea i, column_of X i)) (seq 0 (width X)).

(** Lifting a NumPy indexing result into a cell. *)
Definition or_index_error {A} (o : option A) : io val A :=
  match o with
  | Some a => mret a
  | None => io_raise Library "IndexError" "index out of bounds"
  end.

End Arrays.

(** ** Python's [int(n * 0.8)]

    [n * 0.8] converts the integer to binary64 and multiplies in binary64;
    both steps round to nearest, ties to even, to 53 significant bits.
    [int] truncates.  A binary64 value is kept as [mant * 2 ^ expo]; the
    exponent range is not bounded (an integer beyond 2^1024 would raise
    [OverflowError] in Python). *)
Module Binary64.

Record t := Fl { mant : Z; expo : Z }.

(** Rounds a natural number to at most 53 significant bits; returns the
    significand and the number of bits dropped. *)
Definition round53 (m : Z) : Z * Z :=
  let bits := Z.log2 m + 1 in
  if bits <=? 53 then (m, 0)
  else
    let sh := bits - 53 in
    let q := m / 2 ^ sh in
    let r := m mod 2 ^ sh in
    let half := 2 ^ (sh - 1) in
    if (half <? r) || ((r =? half) && Z.odd q) then (q + 1, sh) else (q, sh).

Definition of_Z (n : Z) : t :=
  let '(q, sh) := round53 (Z.abs n) in Fl (Z.sgn n * q) sh.

Definition mul (x y : t) : t :=
  let p := mant x * mant y in
  let '(q, sh) := round53 (Z.abs p) in
  Fl (Z.sgn p * q) (expo x + expo y + sh).

(** The literal [0.8]: 0x3FE999999999999A. *)
Definition c0_8 : t := Fl 3602879701896397 (-52).

(** [int(x)]: truncation towards zero *)
Definition to_int (x : t) : Z :=
  if 0 <=? expo x then mant x * 2 ^ expo x
  else Z.quot (mant x) (2 ^ (- expo x)).

End Binary64.

(** ** Binary64 values and their arithmetic

    IEEE 754 double precision as NumPy and the device compute it: a finite
    value is [m * 2 ^ e] with fewer than 54 bits in [m] and [e >= -1074],
    below [2 ^ 1024] in magnitude; every operation rounds the exact result
    to the nearest such value, ties to the even significand, and yields an
    infinity when the rounded result is out of range.  A finite value is
    kept with an odd [m], or as [Fin 0 0], so that equal values are equal
    terms; the sign of a zero is not kept.  [Binary64] above has the one
    product of [int(nrows * 0.8)]; this is the arithmetic of the kernels and
    of the sums of their columns, with its range. *)
Module B64.

Inductive t : Type :=
| Fin (m e : Z)
| PInf
| NInf
| NaN.

Definition emin : Z := -1074.
Definition emax : Z := 1024.

(** A value of the format. *)
Definition wf (x : t) : Prop :=
  match x with
  | Fin m e =>
      (m = 0 /\ e = 0) \/
      (Z.odd m = true /\ Z.log2 (Z.abs m) < 53 /\ emin <= e /\
       Z.log2 (Z.abs m) + e < emax)
  | _ => True
  end.

Definition finite (x : t) : Prop :=
  match x with
  | Fin _ _ => True
  | _ => False
  end.

(** [p * 2 ^ e] without the trailing zero bits of [p]. *)
Fixpoint strip (p : positive) (e : Z) : positive * Z :=
  match p with
  | xO p' => strip p' (e + 1)
  | _ => (p, e)
  end.

(** The natural number [a] without its [sh] lowest bits, rounded to nearest,
    ties to even. *)
Definition rne (a sh : Z) : Z :=
  if sh <=? 0 then a
  else
    let q := a / 2 ^ sh in
    let r := a mod 2 ^ sh in
    let half := 2 ^ (sh - 1) in
    if (half <? r) || ((r =? half) && Z.odd q) then q + 1 else q.

(** The value of the format nearest to [a * 2 ^ e], negated if [neg]. *)
Definition round (neg : bool) (a : positive) (e : Z) : t :=
  let bits := Z.log2 (Zpos a) + 1 in
  let sh := Z.max 0 (Z.max (bits - 53) (emin - e)) in
  match rne (Zpos a) sh with
  | Zpos q =>
      if emax <=? Z.log2 (Zpos q) + (e + sh)
      then (if neg then NInf else PInf)
      else let '(m, e') := strip q (e + sh) in
           Fin (if neg then Zneg m else Zpos m) e'
  | _ => Fin 0 0
  end.

(** The value of the format nearest to [m * 2 ^ e]. *)
Definition of_pair (m e : Z) : t :=
  match m with
  | Z0 => Fin 0 0
  | Zpos a => round false a e
  | Zneg a => round true a e
  end.

(** [np.float64(n)] *)
Definition of_Z (n : Z) : t := of_pair n 0.

Definition neg (x : t) : t :=
  match x with
  | Fin m e => Fin (- m) e
  | PInf => NInf
  | NInf => PInf
  | NaN => NaN
  end.

Definition add (x y : t) : t :=
  match x, y with
  | NaN, _ | _, NaN => NaN
  | PInf, NInf | NInf, PInf => NaN
  | PInf, _ | _, PInf => PInf
  | NInf, _ | _, NInf => NInf
  | Fin Z0 _, _ => y
  | _, Fin Z0 _ => x
  | Fin m1 e1, Fin m2 e2 =>
      let e := Z.min e1 e2 in
      of_pair (m1 * 2 ^ (e1 - e) + m2 * 2 ^ (e2 - e)) e
  end.

Definition sub (x y : t) : t := add x (neg y).

(** The sign of a product or quotient with an infinite operand: [true] for
    negative. *)
Definition negative (x : t) : bool :=
  match x with
  | Fin m _ => m <? 0
  | NInf => true
  | _ => false
  end.

Definition infinity (neg : bool) : t := if neg then NInf else PInf.

Definition mul (x y : t) : t :=
  match x, y with
  | NaN, _ | _, NaN => NaN
  | Fin m1 e1, Fin m2 e2 => of_pair (m1 * m2) (e1 + e2)
  | Fin Z0 _, _ | _, Fin Z0 _ => NaN
  | _, _ => infinity (xorb (negative x) (negative y))
  end.

(** The quotient is taken to 64 bits and more, with one more bit that tells
    whether anything was left, and rounded once. *)
Definition div (x y : t) : t :=
  match x, y with
  | NaN, _ | _, NaN => NaN
  | Fin _ _, (PInf | NInf) => Fin 0 0
  | (PInf | NInf), (PInf | NInf) => NaN
  | (PInf | NInf), Fin _ _ => infinity (xorb (negative x) (negative y))
  | Fin m1 e1, Fin m2 e2 =>
      match m2, m1 with
      | Z0, Z0 => NaN
      | Z0, _ => infinity (negative x)
      | _, _ =>
          let k := Z.max 0 (Z.log2 (Z.abs m2) - Z.log2 (Z.abs m1) + 64) in
          let n := Z.abs m1 * 2 ^ k in
          let q := n / Z.abs m2 in
          let sticky := if n mod Z.abs m2 =? 0 then 0 else 1 in
          of_pair (Z.sgn m1 * Z.sgn m2 * (2 * q + sticky)) (e1 - e2 - k - 1)
      end
  end.

(** The number a finite value stands for. *)
Definition to_Q (x : t) : option Q :=
  match x with
  | Fin m e =>
      Some (Qred (if 0 <=? e then inject_Z (m * 2 ^ e)
                  else inject_Z m / inject_Z (2 ^ (- e))))
  | _ => None
  end.

(** Twice a value. *)
Definition double (x : t) : t := mul x (Fin 1 1).

End B64.

#[export] Instance b64_float64 : Float64 B64.t := {
  f_zero := B64.Fin 0 0;
  f_two := B64.Fin 1 1;
  f_inf := B64.PInf;
  f_add := B64.add;
  f_mul := B64.mul;
  f_div := B64.div;
  f_of_int := B64.of_Z;
  f_stray := B64.NaN
}.

(** Exceptions without a trace, for cells that touch no file. *)
#[export] Instance outcome_mret : MRet outcome := @Return.
#[export] Instance outcome_mbind : MBind outcome :=
  fun A B k m =>
    match m with
    | Return a => k a
    | Raise who c msg => Raise who c msg
    end.

(** [for i in l: s = body(i, s)] where the body may raise *)
Fixpoint for_each_raising {I S : Type} (l : list I)
    (body : I -> S -> outcome S) (s : S) : outcome S :=
  match l with
  | [] => Return s
  | i :: l' =>
      match body i s with
      | Return s' => for_each_raising l' body s'
      | Raise who c msg => Raise who c msg
      end
  end.

(** [series[i]] by position, for a non-negative [i] *)
Definition series_get {A} (s : list A) (i : nat) : outcome A :=
  match s !! i with
  | Some a => Return a
  | None => Raise Library "IndexError" "index out of bounds"
  end.

(** ** Weighted-Jaccard.ipynb *)
Module Jaccard.

Definition datafile : string := "./data/karate-data.csv".

(** 32-bit two's complement: the value an [int32] column keeps of [z]. *)
Definition int32 (z : Z) : Z := (z + 2 ^ 31) mod 2 ^ 32 - 2 ^ 31.

(** An edge list on the device: named [int32] columns. *)
Abbreviation frame := (gmap string (list Z)).

(** [gdf = cudf.read_csv(datafile, names=cols, delimiter='\t', dtype=...)] *)
Definition read_cell {val} : io val frame :=
  lines ← cudf_read_csv datafile;
  mret (<["dst" := map snd lines]> (<["src" := map fst lines]> ∅)).

(** [gdf[name]]; a missing column is a [KeyError] of cuDF. *)
Definition getcol (gdf : frame) (name : string) : outcome (list Z) :=
  match gdf !! name with
  | Some c => Return c
  | None => Raise Library "KeyError" name
  end.

(** [col - k] on an [int32] column *)
Definition sub_scalar (col : list Z) (k : Z) : list Z :=
  map (fun x => int32 (x - k)) col.

(** [gdf['src_id'] = gdf['src'] - 1; gdf['dst_id'] = gdf['dst'] - 1] *)
Definition renumber_cell (gdf : frame) : outcome frame :=
  src ← getcol gdf "src";
  let gdf := <["src_id" := sub_scalar src 1]> gdf in
  dst ← getcol gdf "dst";
  let gdf := <["dst_id" := sub_scalar dst 1]> gdf in
  mret gdf.

(** The result of [cugraph.jaccard_w]: one row per vertex pair.  A finite
    coefficient is a rational number, and is compared as one. *)
Record scores := Scores {
  source : list Z;
  destination : list Z;
  jaccard_coeff : list Q
}.

(** [len(df)] *)
Definition len (df : scores) : nat := length (jaccard_coeff df).

(** Columns of a dataframe have one length. *)
Definition well_formed (df : scores) : Prop :=
  length (source df) = len df /\ length (destination df) = len df.

(** [a > b] *)
Definition gt (a b : Q) : bool := negb (Qle_bool a b).

(** [bestEdge = 0
     for i in range(len(df)):
         if df['jaccard_coeff'][i] > df['jaccard_coeff'][bestEdge]:
             bestEdge = i] *)
Definition scan (df : scores) : outcome nat :=
  for_each_raising (seq 0 (len df))
    (fun i bestEdge =>
       a ← series_get (jaccard_coeff df) i;
       b ← series_get (jaccard_coeff df) bestEdge;
       mret (if gt a b then i else bestEdge))
    0%nat.

(** The whole cell: the scan, then the three reads of the [print]. *)
Definition best_edge_cell (df : scores) : outcome (nat * (Z * Z * Q)) :=
  bestEdge ← scan df;
  s ← series_get (source df) bestEdge;
  d ← series_get (destination df) bestEdge;
  c ← series_get (jaccard_coeff df) bestEdge;
  mret (bestEdge, (s, d, c)).

(** A small edge list for concrete runs. *)
Definition two_edges : frame := <["dst" := [2; 3]]> (<["src" := [1; 2]]> ∅).

(** Row [best] is the first maximum of the first [k] rows of a column: no
    row before [k] exceeds it and every row before it is smaller. *)
Definition first_max (col : list Q) (k best : nat) : Prop :=
  (best < length col)%nat /\ (best <= k)%nat /\
  (forall j x c, (j < k)%nat -> col !! j = Some x -> col !! best = Some c ->
                 (x <= c)%Q) /\
  (forall j x c, (j < best)%nat -> col !! j = Some x -> col !! best = Some c ->
                 (x < c)%Q).

End Jaccard.

(** ** The PCA notebook *)
Module PCA.

(** [load_data]: the mortgage sample, or an exception of its own. *)
Definition load_data {val} (nrows ncols : Z) (cached : string)
  : io val (@dataframe val) :=
  present ← os_path_exists cached;
  X ← (if present : bool then
         _ ← print "use mortgage data";
         f ← gzip_open cached;
         X ← np_load f;
         idx ← np_random_randint 0 (Z.of_nat (length (rows X)) - 1) nrows;
         X ← or_index_error (take_rows X idx);
         mret (column_slice X 0 ncols)
       else
         io_raise Own "FileNotFoundError"
           "Please download the required dataset or check the path");
  mret (frame_of X).

(** The default of [cached]. *)
Definition cached_default : string := "data/mortgage.npy.gz".

(** *** Python objects on the heap

    [array_equal] receives references.  Objects live on a heap, so that
    rebinding a name ([a = to_nparray(a)]) and changing an object are
    different things. *)
Record tensor := Tensor { shape : list nat; data : list Q }.

Inductive pyobj : Type :=
| NpNdarray (t : tensor)          (* np.ndarray *)
| PdDataFrame (t : tensor)        (* pd.DataFrame, by its values *)
| NpFloat64 (x : Q)               (* np.float64 *)
| CudfDataFrame (t : tensor)      (* cudf.DataFrame *)
| CudfSeries (t : tensor)         (* cudf.Series *)
| PyList (l : list Q)             (* some other array-like *)
| PyNone.                         (* some other object *)

Abbreviation heap := (gmap nat pyobj).

(** Computations on the heap that return or raise. *)
Definition py (A : Type) : Type := heap -> outcome A * heap.

#[export] Instance py_mret : MRet py := fun A a h => (Return a, h).
#[export] Instance py_mbind : MBind py :=
  fun A B k m h =>
    match m h with
    | (Return a, h') => k a h'
    | (Raise who c msg, h') => (Raise who c msg, h')
    end.

Definition py_raise {A} (who : origin) (class msg : string) : py A :=
  fun h => (Raise who class msg, h).

(** A new object; every library call that builds a value ends in one. *)
Definition alloc (o : pyobj) : py nat :=
  fun h => let l := fresh (dom h) in (Return l, <[l := o]> h).

Definition deref (l : nat) : py pyobj :=
  fun h =>
    match h !! l with
    | Some o => (Return o, h)
    | None => (Raise Library "ReferenceError" "dangling", h)
    end.

(** What [to_nparray] makes of an object: [np.array(x)] copies an array or a
    frame, [np.array([x])] wraps a scalar, [x.to_pandas().values] are the
    values of a device frame; [None] where the object is handed back. *)
Definition converted (o : pyobj) : option pyobj :=
  match o with
  | NpNdarray t | PdDataFrame t => Some (NpNdarray t)
  | NpFloat64 x => Some (NpNdarray (Tensor [1%nat] [x]))
  | CudfDataFrame t | CudfSeries t => Some (NpNdarray t)
  | PyList _ | PyNone => None
  end.

(** [to_nparray(x)] *)
Definition to_nparray (x : nat) : py nat :=
  o ← deref x;
  match converted o with
  | Some o' => alloc o'
  | None => mret x
  end.

(** [np.abs] of an object (NumPy's). *)
Definition abs_of (o : pyobj) : option pyobj :=
  let abs_t t := Tensor (shape t) (map Qabs (data t)) in
  match o with
  | NpNdarray t => Some (NpNdarray (abs_t t))
  | PdDataFrame t => Some (PdDataFrame (abs_t t))
  | NpFloat64 x => Some (NpFloat64 (Qabs x))
  | PyList l => Some (NpNdarray (Tensor [length l] (map Qabs l)))
  | CudfDataFrame _ | CudfSeries _ | PyNone => None
  end.

Definition np_abs (x : nat) : py nat :=
  o ← deref x;
  match abs_of o with
  | Some o' => alloc o'
  | None => py_raise Library "TypeError" "bad operand type for abs()"
  end.

(** scikit-learn's view of a regression target: at least one sample, one or
    two dimensions, a one-dimensional target being a single column. *)
Definition as_target (o : pyobj) : option (nat * nat * list Q) :=
  let of_tensor t :=
    match shape t with
    | [n] => Some (n, 1%nat, data t)
    | [n; k] => Some (n, k, data t)
    | _ => None
    end in
  match o with
  | NpNdarray t | PdDataFrame t => of_tensor t
  | PyList l => Some (length l, 1%nat, l)
  | _ => None
  end.

Definition sum_sq_diff (xs ys : list Q) : Q :=
  fold_left Qplus (zip_with (fun x y => (x - y) * (x - y))%Q xs ys) 0%Q.

(** The mean squared error of two targets as a number, computed without
    rounding: the mean over the columns of the mean over the samples;
    [None] where the targets do not match (shapes that differ, no sample). *)
Definition mse_of (oa ob : pyobj) : option Q :=
  match as_target oa, as_target ob with
  | Some (n, k, xs), Some (n', k', ys) =>
      if bool_decide (n = n' /\ k = k' /\ (0 < n)%nat /\ (0 < k)%nat /\
                      length xs = (n * k)%nat /\ length ys = (n * k)%nat)
      then Some (Qred (sum_sq_diff xs ys / inject_Z (Z.of_nat (n * k))))
      else None
  | _, _ => None
  end.

(** [sklearn.metrics.mean_squared_error(a, b)] is scikit-learn's.  What it
    returns for two targets, a binary64 number that it computes with
    rounding, or that it rejects them ([None]), is taken as given:
    [metric]. *)
Definition mean_squared_error (metric : pyobj -> pyobj -> option Q)
    (a b : nat) : py Q :=
  oa ← deref a;
  ob ← deref b;
  match metric oa ob with
  | Some e => mret e
  | None => py_raise Library "ValueError" "inconsistent targets"
  end.

(** [x < y] on floats *)
Definition lt (x y : Q) : bool := negb (Qle_bool y x).

(** [array_equal(a, b, threshold, with_sign)] *)
Definition array_equal (metric : pyobj -> pyobj -> option Q)
    (a b : nat) (threshold : Q) (with_sign : bool) : py bool :=
  a ← to_nparray a;
  b ← to_nparray b;
  '(a, b) ← (if bool_decide (with_sign = false)
             then a' ← np_abs a; b' ← np_abs b; mret (a', b')
             else mret (a, b));
  error ← mean_squared_error metric a b;
  let res := lt error threshold in
  mret res.

(** The default of [threshold]: [2e-3]. *)
Definition threshold_default : Q := 2 # 1000.

(** A small heap for concrete runs: a list at 0, an array at 1. *)
Definition sample_heap : heap :=
  <[1%nat := NpNdarray (Tensor [2%nat] [1 # 1; 2 # 1])]>
    (<[0%nat := PyList [1 # 1; -2 # 1]]> ∅).

(** The array that the comparison runs on, in the words of the
    specification: [to_nparray] of the argument, in absolute value when
    signs are to be ignored. *)
Definition compared (with_sign : bool) (o : pyobj) : option pyobj :=
  let o' := default o (converted o) in
  if with_sign then Some o' else abs_of o'.

End PCA.

(** ** coordinate_descent_demo.ipynb *)
Module CoordinateDescent.

(** [int(nrows*0.8)] *)
Definition train_rows_of (nrows : Z) : Z :=
  Binary64.to_int (Binary64.mul (Binary64.of_Z nrows) Binary64.c0_8).

(** [[i for i in range(X.shape[1]) if i != 4]] *)
Definition all_but_4 (w : nat) : list nat :=
  filter (fun i => i ≠ 4%nat) (seq 0 w).

(** [load_data]: the mortgage sample, or random regression data, split 80:20 *)
Definition load_data {val} (nrows ncols : Z) (cached : string)
  : io val (@dataframe val * @dataframe val *
            @dataframe val * @dataframe val) :=
  let train_rows := train_rows_of nrows in
  present ← os_path_exists cached;
  '(X, df_y_train, df_y_test) ←
    (if present : bool then
       _ ← print "use mortgage data";
       f ← gzip_open cached;
       X ← np_load f;
       let X := select_columns X (all_but_4 (width X)) in
       let y := column_slice X 4 5 in
       rindices ← np_random_randint 0 (Z.of_nat (length (rows X)) - 1) nrows;
       X ← or_index_error (take_rows X rindices);
       let X := column_slice X 0 ncols in
       y ← or_index_error (take_rows y rindices);
       let df_y_train := frame_of (row_slice y 0 train_rows) in
       let df_y_test := frame_of (row_slice_from y train_rows) in
       mret (X, df_y_train, df_y_test)
     else
       _ ← print "use random data";
       '(X, y) ← sk_make_regression nrows ncols;
       let df_y_train := [("fea0", py_slice y 0 train_rows)] in
       let df_y_test := [("fea0", py_slice_from y train_rows)] in
       mret (X, df_y_train, df_y_test));
  let df_X_train := frame_of (row_slice X 0 train_rows) in
  let df_X_test := frame_of (row_slice_from X train_rows) in
  mret (df_X_train, df_X_test, df_y_train, df_y_test).

(** The default of [cached]. *)
Definition cached_default : string := "data/mortgage.npy.gz".


(** What [np.random.randint] promises: as many draws as asked for, each in
    [low, high). *)
Definition randint_sound {val} (w : world val) : Prop :=
  forall low high n, low < high -> 0 <= n ->
    length (randint w low high n) = Z.to_nat n /\
    Forall (fun i => low <= i < high) (randint w low high n).



(** The cell that hands the training labels to the GPU solvers:
    [y_cudf = y_train.values; y_cudf = y_cudf[:,0];
     y_cudf = cudf.Series(y_cudf)].  [cudf.Series] keeps the values; column 0
    of the values of a frame without columns is NumPy's [IndexError]. *)
Definition y_cudf {val} (y_train : @dataframe val) : outcome (list val) :=
  match y_train with
  | [] => Raise Library "IndexError" "index 0 is out of bounds for axis 1"
  | (_, c) :: _ => Return c
  end.

End CoordinateDescent.

(** ** Properties of traces *)

(** No event changes a file: every open is for reading, and what is read is
    a flat CSV or a NumPy-serialized array. *)
Definition reads_only (e : event) : bool :=
  match e with
  | Stat _ _ => true
  | Open _ ReadMode _ => true
  | Open _ _ _ => false
  | Parse _ FlatCsv | Parse _ NumpyArray => true
  | Parse _ OtherFormat => false
  | Printed _ => true
  end.

(** Every gzip-compressed path is opened only after [os.path.exists] has
    reported it present ([seen] holds the paths reported so far). *)
Fixpoint gzip_guarded (seen : list string) (t : list event) : bool :=
  match t with
  | [] => true
  | Stat p true :: t' => gzip_guarded (p :: seen) t'
  | Open p _ Gzip :: t' => bool_decide (p ∈ seen) && gzip_guarded seen t'
  | _ :: t' => gzip_guarded seen t'
  end.

(** A small world for concrete runs: no file on disk, draws that all equal
    the lower bound, a generator that numbers its samples. *)
Definition bare_world : world Z :=
  World ∅ (fun low _ n => replicate (Z.to_nat n) low)
    (fun n k =>
       (Matrix (Z.to_nat k)
          (map (fun i => replicate (Z.to_nat k) (Z.of_nat i))
               (seq 0 (Z.to_nat n))),
        map Z.of_nat (seq 0 (Z.to_nat n)))).

(** The same world with a mortgage file of three rows and six columns. *)
Definition mortgage_world : world Z :=
  World {[ "data/mortgage.npy.gz" :=
             NpyGzFile (Matrix 6 [[10; 11; 12; 13; 14; 15];
                                  [20; 21; 22; 23; 24; 25];
                                  [30; 31; 32; 33; 34; 35]]) ]}
    (fun _ high n => replicate (Z.to_nat n) (high - 1))
    (make_regression bare_world).


(** The sample heap with two more objects: the array at 1 with the sign of
    its first entry flipped, and [None]. *)
Definition signed_heap : PCA.heap :=
  <[3%nat := PCA.PyNone]>
    (<[2%nat := PCA.NpNdarray (PCA.Tensor [2%nat] [-1 # 1; 2 # 1])]>
       PCA.sample_heap).

(** The bare world with a cached dataset of a single row, and with one of
    three rows and five columns. *)
Definition one_row_world : world Z :=
  World {[ "data/mortgage.npy.gz" :=
             NpyGzFile (Matrix 6 [[10; 11; 12; 13; 14; 15]]) ]}
    (randint bare_world) (make_regression bare_world).

Definition narrow_world : world Z :=
  World {[ "data/mortgage.npy.gz" :=
             NpyGzFile (Matrix 5 [[10; 11; 12; 13; 14];
                                  [20; 21; 22; 23; 24];
                                  [30; 31; 32; 33; 34]]) ]}
    (randint bare_world) (make_regression bare_world).


(** What the cells of the output column hold between the two launches of the
    moving-average cell: [kernel1] restarts its window at every multiple of
    the chunk size. *)
Definition after_kernel1 {num} `{Float64 num} (w trunk : Z) (in1 : list num)
    (g : nat) : num :=
  if Z.of_nat g mod trunk <? w - 1 then f_inf
  else MovingAverage.rolling_mean w in1 (Z.of_nat g).

(** What the doubling kernels leave in cell [g] of the output column. *)
Definition doubled_at {num} `{Float64 num} (in1 : list num) (g : nat) : num :=
  f_mul (default f_stray (in1 !! g)) f_two.

(** An exception raised by a [raise] statement of the notebook itself. *)
Definition raises_own {A} (r : outcome A) : bool :=
  match r with
  | Raise Own _ _ => true
  | _ => false
  end.

(** A function that treats every lane alike, as single-threaded code would:
    its effect does not depend on the thread index it is given. *)
Definition lane_oblivious {num}
    (k : Z -> Z -> ndarray num -> ndarray num -> ndarray num) : Prop :=
  forall t t' w in1 out, k t w in1 out = k t' w in1 out.

(** ** Turns that paint

    The effect of one store on the output buffer, and the shape every turn of
    the kernels has: it paints the values of one function [F] over a set of
    cells [W] and leaves the other cells as they are. *)
Section Painting.
Context {num : Type}.

Definition poke (p : Z) (v : num) : list num -> list num :=
  fun b => if 0 <=? p then <[Z.to_nat p := v]> b else b.

Definition paints (n : nat) (F : nat -> num) (W : nat -> Prop)
    (f : list num -> list num) : Prop :=
  forall out, length out = n ->
    length (f out) = n /\
    forall g, (g < n)%nat ->
      (W g -> f out !! g = Some (F g)) /\
      (f out !! g = out !! g \/ (W g /\ f out !! g = Some (F g))).

End Painting.

(** * Properties *)

(** ** Python ranges *)

Lemma range_from_elem (count : nat) (start step x : Z) :
  x ∈ range_from count start step <->
  exists k : nat, (k < count)%nat /\ x = start + Z.of_nat k * step.
Proof.
  revert start. induction count as [|c IH]; intros start; simpl.
  - split; [intros Hx; inversion Hx | intros (k & Hk & _); lia].
  - rewrite elem_of_cons, IH. split.
    + intros [-> | (k & Hk & ->)].
      * exists 0%nat. split; lia.
      * exists (S k). split; lia.
    + intros (k & Hk & ->). destruct k as [|k].
      * left. lia.
      * right. exists k. split; lia.
Qed.

Lemma pyrange_elem (start stop step x : Z) :
  0 < step ->
  x ∈ pyrange start stop step <->
  start <= x < stop /\ (x - start) mod step = 0.
Proof.
  intros Hs. unfold pyrange.
  destruct (Z.ltb_spec 0 step) as [_|]; [|lia].
  rewrite range_from_elem. split.
  - intros (k & Hk & ->).
    assert (Hq : Z.of_nat k < (stop - start + step - 1) / step) by lia.
    assert (Z.of_nat k * step + step <= stop - start + step - 1).
    { pose proof (Z.mul_div_le (stop - start + step - 1) step Hs). nia. }
    split; [nia|].
    replace (start + Z.of_nat k * step - start) with (Z.of_nat k * step) by lia.
    apply Z_mod_mult.
  - intros [[Hlo Hhi] Hmod].
    pose proof (Z.div_mod (x - start) step ltac:(lia)) as Hdm.
    rewrite Hmod in Hdm.
    assert (0 <= (x - start) / step) by (apply Z.div_pos; lia).
    exists (Z.to_nat ((x - start) / step)). split; [|lia].
    assert ((x - start) / step < (stop - start + step - 1) / step); [|lia].
    apply Z.div_lt_upper_bound; [lia|].
    pose proof (Z.mul_succ_div_gt (stop - start + step - 1) step Hs). nia.
Qed.

Lemma pyrange_empty (start stop step : Z) :
  stop <= start -> pyrange start stop step = [].
Proof.
  intros Hle. unfold pyrange.
  destruct (Z.ltb_spec 0 step) as [Hs|]; [|done].
  assert ((stop - start + step - 1) / step <= 0); [|by rewrite Z2Nat.nonpos].
  assert ((stop - start + step - 1) / step < 1); [|lia].
  apply Z.div_lt_upper_bound; lia.
Qed.

Lemma pyrange_unfold (start stop step : Z) :
  0 < step -> start < stop ->
  pyrange start stop step = start :: pyrange (start + step) stop step.
Proof.
  intros Hs Hlt. unfold pyrange.
  destruct (Z.ltb_spec 0 step) as [_|]; [|lia].
  replace (stop - start + step - 1) with ((stop - start - 1) + 1 * step) by lia.
  rewrite Z.div_add by lia.
  replace (stop - (start + step) + step - 1) with (stop - start - 1) by lia.
  assert (0 <= (stop - start - 1) / step) by (apply Z.div_pos; lia).
  rewrite Z2Nat.inj_add by lia. rewrite Nat.add_comm. reflexivity.
Qed.

(** A strided family of ranges covers every index: index [i] belongs to the
    lane [(i - a) mod w]. *)
Lemma strided_cover (a stop w i : Z) :
  0 < w -> a <= i < stop ->
  exists t, t ∈ pyrange 0 w 1 /\ i ∈ pyrange (t + a) stop w.
Proof.
  intros Hw Hi. exists ((i - a) mod w).
  pose proof (Z.mod_pos_bound (i - a) w Hw) as Hb.
  rewrite !pyrange_elem by lia. repeat split; try lia.
  - rewrite Z.mod_1_r. reflexivity.
  - pose proof (Z.mod_le (i - a) w ltac:(lia) Hw). lia.
  - replace (i - ((i - a) mod w + a)) with ((i - a) - (i - a) mod w) by lia.
    rewrite Zminus_mod, Z.mod_mod, Z.sub_diag by lia. apply Z.mod_0_l. lia.
Qed.

(** Distinct lanes of a strided family share no index. *)
Lemma strided_disjoint (a stop w t t' i : Z) :
  0 < w -> 0 <= t < w -> 0 <= t' < w ->
  i ∈ pyrange (t + a) stop w -> i ∈ pyrange (t' + a) stop w -> t = t'.
Proof.
  intros Hw Ht Ht'. rewrite !pyrange_elem by lia.
  intros [_ H1] [_ H2].
  apply Z.mod_divide in H1; [|lia]. apply Z.mod_divide in H2; [|lia].
  destruct H1 as [k1 H1], H2 as [k2 H2].
  assert (Hd : t - t' = (k2 - k1) * w) by (rewrite Z.mul_sub_distr_r; lia).
  destruct (Z.lt_trichotomy (k2 - k1) 0) as [Hk | [Hk | Hk]]; [nia | | nia].
  rewrite Hk in Hd. lia.
Qed.

(** ** Painting turns *)
Section PaintingFacts.
Context {num : Type}.
Implicit Types (F : nat -> num) (W : nat -> Prop) (f : list num -> list num).

Lemma paints_poke n F (p : Z) (v : num) :
  (0 <= p -> (Z.to_nat p < n)%nat -> v = F (Z.to_nat p)) ->
  paints n F (fun g => p = Z.of_nat g) (poke p v).
Proof.
  intros Hv out Hlen. unfold poke.
  destruct (Z.leb_spec 0 p) as [Hp|Hp].
  - split; [by rewrite length_insert|].
    intros g Hg. destruct (decide (Z.to_nat p = g)) as [<-|Hne].
    + rewrite list_lookup_insert_eq by lia. rewrite <- Hv by lia.
      split; [done|]. right. split; [lia|done].
    + rewrite list_lookup_insert_ne by done.
      split; [intros ->; lia | by left].
  - split; [done|]. intros g Hg. split; [lia | by left].
Qed.

Lemma paints_nothing n F : paints n F (fun _ => False) (fun out => out).
Proof. intros out Hlen. split; [done|]. intros g Hg. split; [done | by left]. Qed.

Lemma paints_compose n F W1 W2 f1 f2 :
  paints n F W1 f1 -> paints n F W2 f2 ->
  paints n F (fun g => W1 g \/ W2 g) (fun out => f2 (f1 out)).
Proof.
  intros H1 H2 out Hlen.
  destruct (H1 out Hlen) as [Hl1 Hg1].
  destruct (H2 (f1 out) Hl1) as [Hl2 Hg2].
  split; [done|]. intros g Hg.
  destruct (Hg1 g Hg) as [Hc1 Hs1], (Hg2 g Hg) as [Hc2 Hs2]. split.
  - intros [Hw | Hw]; [|by apply Hc2].
    destruct Hs2 as [-> | [_ ->]]; [by apply Hc1 | done].
  - destruct Hs2 as [-> | [Hw ->]]; [|by right; split; [right|]].
    destruct Hs1 as [-> | [Hw ->]]; [by left | by right; split; [left|]].
Qed.

Lemma paints_iff n F W W' f :
  (forall g, (g < n)%nat -> W g <-> W' g) -> paints n F W f -> paints n F W' f.
Proof.
  intros Hiff Hp out Hlen. destruct (Hp out Hlen) as [Hl Hg].
  split; [done|]. intros g Hlt. destruct (Hg g Hlt) as [Hc Hs]. split.
  - intros Hw. apply Hc, Hiff; done.
  - destruct Hs as [? | [Hw ?]]; [by left | right]. split; [by apply Hiff | done].
Qed.

Lemma paints_ext n F W f f' :
  (forall out, length out = n -> f out = f' out) ->
  paints n F W f -> paints n F W f'.
Proof. intros Heq Hp out Hlen. rewrite <- Heq by done. by apply Hp. Qed.

(** A loop of painting turns paints the union of their cells, in whatever
    order the turns are taken. *)
Lemma fold_painters {I} n F (W : I -> nat -> Prop) (f : I -> list num -> list num)
    (l : list I) :
  (forall x, x ∈ l -> paints n F (W x) (f x)) ->
  paints n F (fun g => exists x, x ∈ l /\ W x g) (for_each l f).
Proof.
  induction l as [|x l IH]; intros Hall.
  - eapply paints_iff; [|apply paints_nothing].
    intros g _. split; [done|]. intros (x & Hx & _). inversion Hx.
  - eapply paints_iff;
      [|apply (paints_compose n F (W x) (fun g => exists y, y ∈ l /\ W y g)
                 (f x) (for_each l f))].
    + intros g _. split.
      * intros [Hw | (y & Hy & Hw)]; [exists x | exists y]; split; try done.
        -- apply elem_of_cons; by left.
        -- apply elem_of_cons; by right.
      * intros (y & Hy & Hw). apply elem_of_cons in Hy as [-> | Hy];
          [by left | right; by exists y].
    + apply Hall, elem_of_cons; by left.
    + apply IH. intros y Hy. apply Hall, elem_of_cons; by right.
Qed.

(** Taking the turns in another order paints the same cells. *)
Lemma fold_painters_permuted {I} n F (W : I -> nat -> Prop)
    (f : I -> list num -> list num) (l l' : list I) (out : list num) (g : nat) :
  (forall x, x ∈ l -> paints n F (W x) (f x)) ->
  l ≡ₚ l' -> length out = n -> (g < n)%nat ->
  for_each l' f out !! g = for_each l f out !! g.
Proof.
  intros Hall Hperm Hlen Hg.
  assert (Hall' : forall x, x ∈ l' -> paints n F (W x) (f x)).
  { intros x Hx. apply Hall. by rewrite Hperm. }
  destruct (fold_painters n F W f l Hall out Hlen) as [_ H1].
  destruct (fold_painters n F W f l' Hall' out Hlen) as [_ H2].
  destruct (H1 g Hg) as [Hc1 Hs1], (H2 g Hg) as [Hc2 Hs2].
  destruct Hs1 as [E1 | [(x & Hx & Hw) E1]].
  - destruct Hs2 as [E2 | [(x & Hx & Hw) E2]]; [congruence|].
    rewrite E2. symmetry. apply Hc1. exists x. split; [by rewrite Hperm | done].
  - rewrite E1. apply Hc2. exists x. split; [by rewrite <- Hperm | done].
Qed.

End PaintingFacts.

Lemma for_each_ext {I S} (l : list I) (f g : I -> S -> S) (s : S) :
  (forall x s', f x s' = g x s') -> for_each l f s = for_each l g s.
Proof.
  intros Hfg. revert s. induction l as [|x l IH]; intros s; [done|].
  unfold for_each in *. simpl. rewrite Hfg. apply IH.
Qed.

(** ** Device arrays and stores *)
Section ArrayFacts.
Context {num : Type} `{Float64 num}.

Lemma setitem_poke (a : ndarray num) (i : Z) (v : num) :
  setitem a i v = NdArray (poke (cell a i) v (buf a)) (off a) (step a) (size a).
Proof. unfold setitem, poke. destruct a; simpl. by destruct (0 <=? _). Qed.

Lemma for_each_setitem (l : list Z) (v : Z -> num) (a : ndarray num) :
  for_each l (fun i a => setitem a i (v i)) a =
  NdArray (for_each l (fun i => poke (cell a i) (v i)) (buf a))
          (off a) (step a) (size a).
Proof.
  revert a. induction l as [|i l IH]; intros a; [by destruct a|].
  unfold for_each in *. simpl. rewrite IH, setitem_poke. reflexivity.
Qed.

(** A loop of stores through a view paints the cells the view maps the
    indices to. *)
Lemma stores_paint n (F : nat -> num) (o s z : Z) (l : list Z) (v : Z -> num) :
  (forall i, i ∈ l ->
     let p := view_cell o s z i in
     0 <= p -> (Z.to_nat p < n)%nat -> v i = F (Z.to_nat p)) ->
  paints n F
    (fun g => exists i, i ∈ l /\ view_cell o s z i = Z.of_nat g)
    (fun out => buf (for_each l (fun i a => setitem a i (v i))
                       (NdArray out o s z))).
Proof.
  intros Hv.
  eapply paints_ext; [intros out _; by rewrite for_each_setitem|]. simpl.
  apply (fold_painters n F (fun i g => view_cell o s z i = Z.of_nat g)
           (fun i => poke (view_cell o s z i) (v i))).
  intros i Hi. apply paints_poke. intros Hp Hn. by apply Hv.
Qed.

Lemma slice_column (l : list num) (lo hi : Z) :
  0 <= lo <= hi -> hi <= Z.of_nat (length l) ->
  slice (column l) lo hi = NdArray l lo 1 (hi - lo).
Proof.
  intros Hlo Hhi. unfold slice, column, clip. simpl.
  destruct (Z.ltb_spec lo 0), (Z.ltb_spec hi 0); try lia.
  f_equal; lia.
Qed.

Lemma getitem_slice (l : list num) (lo z i : Z) (x : num) :
  0 <= lo -> 0 <= i -> l !! Z.to_nat (lo + i) = Some x ->
  getitem (NdArray l lo 1 z) i = x.
Proof.
  intros Hlo Hi Hx. unfold getitem, cell, view_cell. simpl.
  destruct (Z.ltb_spec i 0); [lia|].
  replace (lo + i * 1) with (lo + i) by lia.
  destruct (Z.leb_spec 0 (lo + i)); [|lia]. by rewrite Hx.
Qed.

(** The inner loop of the moving average reads the [b - a] cells from
    [lo + a] on, in order. *)
Lemma window_sum (in1 : list num) (lo z a b : Z) (acc : num) :
  0 <= lo -> 0 <= a <= b -> lo + b <= Z.of_nat (length in1) ->
  for_each (pyrange a b 1)
    (fun j summ => f_add summ (getitem (NdArray in1 lo 1 z) j)) acc =
  fold_left f_add (take (Z.to_nat (b - a)) (drop (Z.to_nat (lo + a)) in1)) acc.
Proof.
  intros Hlo Hab Hb.
  remember (Z.to_nat (b - a)) as k eqn:Hk.
  revert a acc Hab Hk. induction k as [|k IH]; intros a acc Hab Hk.
  - by rewrite pyrange_empty by lia.
  - rewrite pyrange_unfold by lia.
    destruct (lookup_lt_is_Some_2 in1 (Z.to_nat (lo + a)) ltac:(lia)) as [x Hx].
    rewrite (drop_S _ _ _ Hx). unfold for_each in *. simpl.
    rewrite (getitem_slice _ _ _ _ x) by (done || lia).
    rewrite IH by lia.
    replace (Z.to_nat (lo + (a + 1))) with (S (Z.to_nat (lo + a))) by lia.
    reflexivity.
Qed.

End ArrayFacts.

(** ** Chunks *)

Lemma range_from_length (count : nat) (start step : Z) :
  length (range_from count start step) = count.
Proof. revert start. induction count; intros; simpl; [done | by rewrite IHcount]. Qed.

Lemma pyrange_elem_nth (start stop step x : Z) :
  0 < step ->
  x ∈ pyrange start stop step <->
  exists k, 0 <= k < Z.of_nat (length (pyrange start stop step)) /\
            x = start + k * step.
Proof.
  intros Hs. unfold pyrange. destruct (Z.ltb_spec 0 step); [|lia].
  rewrite range_from_length, range_from_elem. split.
  - intros (k & Hk & ->). exists (Z.of_nat k). split; lia.
  - intros (k & Hk & ->). exists (Z.to_nat k). split; [lia|].
    by rewrite Z2Nat.id by lia.
Qed.

Lemma chunk_bounds_app_nrows (n : Z) (l : list Z) :
  chunk_bounds n (l ++ [n]) = chunk_bounds n l ++ [(n, n)].
Proof.
  induction l as [|a l IH]; [done|].
  simpl. rewrite IH. by destruct l.
Qed.

Lemma chunk_bounds_range (n a T : Z) :
  0 < T -> a < n ->
  chunk_bounds n (pyrange a n T) =
  (a, Z.min (a + T) n) :: chunk_bounds n (pyrange (a + T) n T).
Proof.
  intros HT Ha. rewrite (pyrange_unfold a) by done. simpl. f_equal.
  destruct (Z.lt_ge_cases (a + T) n).
  - rewrite (pyrange_unfold (a + T)) by done. f_equal. lia.
  - rewrite pyrange_empty by lia. f_equal. lia.
Qed.

(** The chunks that the offsets [a, a + T, a + 2T, ...] below [n] cut. *)
Lemma chunk_bounds_range_elem (n a T lo hi : Z) :
  0 < T ->
  (lo, hi) ∈ chunk_bounds n (pyrange a n T) <->
  exists k, 0 <= k /\ lo = a + k * T /\ lo < n /\ hi = Z.min (lo + T) n.
Proof.
  intros HT. remember (Z.to_nat (n - a)) as m eqn:Hm.
  assert (Hle : (Z.to_nat (n - a) <= m)%nat) by lia. clear Hm.
  revert a Hle. induction m as [|m IH]; intros a Hle.
  - rewrite pyrange_empty by lia. simpl. split.
    + intros Hin. inversion Hin.
    + intros (k & Hk & -> & Hlt & _). nia.
  - destruct (Z.lt_ge_cases a n) as [Ha|Ha].
    + rewrite chunk_bounds_range, elem_of_cons, IH by lia. split.
      * intros [Heq | (k & Hk & -> & Hlt & ->)].
        -- inversion Heq; subst. exists 0. lia.
        -- exists (k + 1). lia.
      * intros (k & Hk & -> & Hlt & ->).
        destruct (Z.eq_dec k 0) as [->|Hne].
        -- left. f_equal; lia.
        -- right. exists (k - 1). lia.
    + rewrite pyrange_empty by lia. simpl. split.
      * intros Hin. inversion Hin.
      * intros (k & Hk & -> & Hlt & _). nia.
Qed.

(** Every row at or after the first offset lies in one of these chunks. *)
Lemma chunk_bounds_range_cover (n a T g : Z) :
  0 < T -> a <= g < n ->
  exists lo, (lo, Z.min (lo + T) n) ∈ chunk_bounds n (pyrange a n T) /\
             lo <= g < lo + T /\ (lo - a) mod T = 0.
Proof.
  intros HT Hg. exists (a + (g - a) / T * T).
  pose proof (Z.div_mod (g - a) T ltac:(lia)) as Hdm.
  pose proof (Z.mod_pos_bound (g - a) T HT) as Hb.
  assert (0 <= (g - a) / T) by (apply Z.div_pos; lia).
  split; [|split].
  - apply chunk_bounds_range_elem; [done|]. exists ((g - a) / T). nia.
  - nia.
  - replace (a + (g - a) / T * T - a) with ((g - a) / T * T) by lia.
    apply Z_mod_mult.
Qed.

(** ** The doubling kernels *)
Section DoublingFacts.
Context {num : Type} `{Float64 num}.

(** A turn that has painted every cell has produced the whole column. *)
Lemma painted_all n (F : nat -> num) W f (out : list num) :
  paints n F W f -> (forall g, (g < n)%nat -> W g) -> length out = n ->
  f out = map F (seq 0 n).
Proof.
  intros Hp Hall Hlen. destruct (Hp out Hlen) as [Hl Hg].
  apply list_eq. intros g. destruct (decide (g < n)%nat) as [Hlt|Hge].
  - destruct (Hg g Hlt) as [Hc _]. rewrite Hc by auto.
    rewrite list_lookup_fmap, lookup_seq_lt by done. reflexivity.
  - rewrite !lookup_ge_None_2; [done | |lia].
    rewrite length_map, length_seq. lia.
Qed.

Lemma doubled_column (in1 : list num) :
  map (doubled_at in1) (seq 0 (length in1)) = map (fun x => f_mul x f_two) in1.
Proof.
  apply list_eq. intros g. rewrite !list_lookup_fmap.
  destruct (decide (g < length in1)%nat) as [Hlt|Hge].
  - rewrite lookup_seq_lt by done. simpl. unfold doubled_at.
    destruct (lookup_lt_is_Some_2 in1 g Hlt) as [x Hx]. by rewrite Hx.
  - rewrite lookup_seq_ge by lia. by rewrite lookup_ge_None_2 by lia.
Qed.

(** The loop body shared by both doubling kernels, through any view. *)
Lemma doubling_loop_paints n (in1 : list num) (o s z : Z) (l : list Z) :
  paints n (doubled_at in1)
    (fun g => exists i, i ∈ l /\ view_cell o s z i = Z.of_nat g)
    (fun out =>
       buf (for_each l
              (fun i out =>
                 setitem out i (f_mul (getitem (NdArray in1 o s z) i) f_two))
              (NdArray out o s z))).
Proof.
  apply (stores_paint n (doubled_at in1) o s z l
           (fun i => f_mul (getitem (NdArray in1 o s z) i) f_two)).
  intros i _ p Hp _. unfold getitem, cell, doubled_at. simpl. fold p.
  destruct (Z.leb_spec 0 p); [done | lia].
Qed.

Lemma double_rows_run (ntid : Z) (in1 out : list num) :
  length out = length in1 -> 0 < ntid ->
  DoubleRows.run ntid in1 out = map (fun x => f_mul x f_two) in1.
Proof.
  intros Hlen Hn. rewrite <- doubled_column.
  set (n := length in1) in *.
  set (geo := fun t : Z =>
         (0 + Z.min t (Z.of_nat n) * 1, 1 * ntid,
          Z.of_nat (length (pyrange (Z.min t (Z.of_nat n)) (Z.of_nat n) ntid)))).
  unfold DoubleRows.run, apply_rows.
  apply (painted_all n (doubled_at in1)
    (fun g => exists t, t ∈ pyrange 0 ntid 1 /\
       exists i, i ∈ pyrange 0 (geo t).2 1 /\
         view_cell (geo t).1.1 (geo t).1.2 (geo t).2 i = Z.of_nat g));
    [| |done].
  - apply fold_painters. intros t Ht.
    apply pyrange_elem in Ht; [|lia].
    eapply paints_ext; [|apply (doubling_loop_paints n in1
        (geo t).1.1 (geo t).1.2 (geo t).2 (pyrange 0 (geo t).2 1))].
    intros o Ho. unfold row_wise_kernel, DoubleRows.kernel, slice_from_by,
      column, clip, geo. simpl.
    destruct (Z.ltb_spec t 0); [lia|]. by rewrite Ho.
  - intros g Hg.
    exists (Z.of_nat g mod ntid).
    pose proof (Z.mod_pos_bound (Z.of_nat g) ntid Hn) as Hb.
    pose proof (Z.div_mod (Z.of_nat g) ntid ltac:(lia)) as Hdm.
    pose proof (Z.mod_le (Z.of_nat g) ntid ltac:(lia) Hn) as Hml.
    assert (0 <= Z.of_nat g / ntid) by (apply Z.div_pos; lia).
    split.
    { apply pyrange_elem; [lia|]. rewrite Z.mod_1_r. lia. }
    exists (Z.of_nat g / ntid). unfold geo. simpl.
    rewrite Z.min_l by lia. split.
    + apply pyrange_elem; [lia|]. rewrite Z.mod_1_r. split; [|done].
      split; [lia|].
      assert (Hin : Z.of_nat g ∈
                pyrange (Z.of_nat g mod ntid) (Z.of_nat n) ntid).
      { apply pyrange_elem; [lia|]. split; [lia|].
        rewrite Zminus_mod, Z.mod_mod, Z.sub_diag by lia.
        apply Z.mod_0_l. lia. }
      apply pyrange_elem_nth in Hin as (k & Hk & Hgk); [|lia].
      assert (k = Z.of_nat g / ntid) by nia. lia.
    + unfold view_cell.
      destruct (Z.ltb_spec (Z.of_nat g / ntid) 0); [lia|]. nia.
Qed.

(** Blocks and threads of [apply_chunks]: the launch paints what its turns
    paint. *)
Lemma apply_chunks_paints n (F : nat -> num) inner chunks tpb (in1 : list num)
    (Wt : Z * Z -> Z -> nat -> Prop) :
  length in1 = n ->
  (forall b t, b ∈ chunk_bounds (Z.of_nat n) chunks -> t ∈ pyrange 0 tpb 1 ->
     paints n F (Wt b t) (chunk_wise_kernel inner in1 tpb b t)) ->
  paints n F
    (fun g => exists b, b ∈ chunk_bounds (Z.of_nat n) chunks /\
              exists t, t ∈ pyrange 0 tpb 1 /\ Wt b t g)
    (apply_chunks inner chunks tpb in1).
Proof.
  intros Hlen Hturn. unfold apply_chunks. rewrite Hlen.
  apply (fold_painters n F
           (fun b g => exists t, t ∈ pyrange 0 tpb 1 /\ Wt b t g)).
  intros b Hb. apply (fold_painters n F (Wt b)). intros t Ht. by apply Hturn.
Qed.

(** The two slices that a block passes to the kernel share one geometry. *)
Lemma slice_out_geometry (in1 out : list num) (lo hi : Z) :
  length out = length in1 ->
  slice (column out) lo hi =
  NdArray out (off (slice (column in1) lo hi)) 1
              (size (slice (column in1) lo hi)).
Proof. intros Hlen. unfold slice, column, clip. simpl. by rewrite Hlen. Qed.

Lemma slice_in_geometry (in1 : list num) (lo hi : Z) :
  slice (column in1) lo hi =
  NdArray in1 (off (slice (column in1) lo hi)) 1
              (size (slice (column in1) lo hi)).
Proof. reflexivity. Qed.

Lemma double_chunks_run (chunks tpb : Z) (in1 out : list num) :
  length out = length in1 -> 0 < chunks -> 0 < tpb ->
  DoubleChunks.run chunks tpb in1 out = map (fun x => f_mul x f_two) in1.
Proof.
  intros Hlen Hc Ht. rewrite <- doubled_column.
  set (n := length in1) in *.
  unfold DoubleChunks.run, normalize_chunks. fold n.
  eapply (painted_all n (doubled_at in1)); [|  |done].
  - apply (apply_chunks_paints n (doubled_at in1) _ _ _ _
      (fun b t g => exists i,
         i ∈ pyrange t (size (slice (column in1) b.1 b.2)) tpb /\
         view_cell (off (slice (column in1) b.1 b.2)) 1
                   (size (slice (column in1) b.1 b.2)) i = Z.of_nat g));
      [done|].
    intros [lo hi] t _ _. simpl.
    eapply paints_ext; [|apply doubling_loop_paints].
    intros o Ho. unfold chunk_wise_kernel, DoubleChunks.kernel. simpl.
    rewrite (slice_out_geometry in1 o) by done.
    reflexivity.
  - intros g Hg. cbv beta.
    destruct (chunk_bounds_range_cover (Z.of_nat n) 0 chunks (Z.of_nat g))
      as (lo & Hin & Hlo & Hmod); [lia | lia |].
    assert (0 <= lo).
    { apply chunk_bounds_range_elem in Hin as (k & ? & -> & _); [nia | lia]. }
    exists (lo, Z.min (lo + chunks) (Z.of_nat n)). split; [done|].
    cbn [fst snd]. rewrite slice_column by lia. cbn [off size].
    destruct (strided_cover 0 (Z.min (lo + chunks) (Z.of_nat n) - lo) tpb
                (Z.of_nat g - lo)) as (t & Htin & Hi); [lia | lia |].
    exists t. split; [done|]. exists (Z.of_nat g - lo).
    rewrite Z.add_0_r in Hi. split; [done|].
    unfold view_cell. destruct (Z.ltb_spec (Z.of_nat g - lo) 0); lia.
Qed.

End DoublingFacts.

(** ** The moving average *)
Section MovingAverageFacts.
Context {num : Type} `{Float64 num}.
Import MovingAverage.

(** A window that lies inside the chunk yields the rolling mean of the
    column at the row the chunk maps the index to. *)
Lemma window_mean_value (in1 : list num) (lo z w i : Z) :
  0 <= lo -> 0 <= w -> 0 <= i - w + 1 -> lo + i < Z.of_nat (length in1) ->
  f_div (for_each (pyrange (i - w + 1) (i + 1) 1)
           (fun j summ => f_add summ (getitem (NdArray in1 lo 1 z) j)) f_zero)
        (f_of_int w) =
  rolling_mean w in1 (lo + i).
Proof.
  intros Hlo Hw Hi Hn. rewrite window_sum by lia. unfold rolling_mean, col_sum.
  replace (i + 1 - (i - w + 1)) with w by lia.
  replace (lo + (i - w + 1)) with (lo + i - w + 1) by lia. reflexivity.
Qed.

Lemma view_cell_unit (lo z i : Z) : 0 <= i -> view_cell lo 1 z i = lo + i.
Proof. intros Hi. unfold view_cell. destruct (Z.ltb_spec i 0); lia. Qed.

Lemma kernel1_paints (in1 : list num) (w T tpb lo hi t : Z) :
  1 <= w -> w - 1 <= T -> 0 < T -> 0 < tpb -> 0 <= t ->
  0 <= lo <= hi -> hi <= Z.of_nat (length in1) -> hi <= lo + T ->
  lo = Z.of_nat (length in1) \/ lo mod T = 0 ->
  paints (length in1) (after_kernel1 w T in1)
    (fun g => exists i,
       (i ∈ pyrange t (w - 1) tpb \/ i ∈ pyrange (t + w - 1) (hi - lo) tpb) /\
       lo + i = Z.of_nat g)
    (chunk_wise_kernel (kernel1 w) in1 tpb (lo, hi) t).
Proof.
  intros Hw HwT HT Htpb Ht Hlo Hhi HhiT Hal.
  set (n := length in1) in *.
  set (z := hi - lo).
  set (l1 := pyrange t (w - 1) tpb).
  set (l2 := pyrange (t + w - 1) z tpb).
  set (v2 := fun i : Z =>
    f_div (for_each (pyrange (i - w + 1) (i + 1) 1)
             (fun j summ => f_add summ (getitem (NdArray in1 lo 1 z) j)) f_zero)
          (f_of_int w)).
  assert (P1 : paints n (after_kernel1 w T in1)
            (fun g => exists i, i ∈ l1 /\ view_cell lo 1 z i = Z.of_nat g)
            (fun out => buf (for_each l1 (fun i a => setitem a i f_inf)
                               (NdArray out lo 1 z)))).
  { apply (stores_paint n _ lo 1 z l1 (fun _ => f_inf)).
    intros i Hi p Hp Hpn. apply pyrange_elem in Hi as [Hi _]; [|done].
    subst p. rewrite view_cell_unit in * by lia.
    unfold after_kernel1. rewrite Z2Nat.id by lia.
    destruct Hal as [-> | Hmod]; [lia|].
    rewrite Z.add_mod, Hmod, Z.add_0_l, Z.mod_mod, Z.mod_small by lia.
    destruct (Z.ltb_spec i (w - 1)); [done | lia]. }
  assert (P2 : paints n (after_kernel1 w T in1)
            (fun g => exists i, i ∈ l2 /\ view_cell lo 1 z i = Z.of_nat g)
            (fun out => buf (for_each l2 (fun i a => setitem a i (v2 i))
                               (NdArray out lo 1 z)))).
  { apply (stores_paint n _ lo 1 z l2 v2).
    intros i Hi p Hp Hpn. apply pyrange_elem in Hi as [Hi _]; [|done].
    subst p v2. rewrite view_cell_unit in * by lia. cbv beta.
    rewrite window_mean_value by lia.
    unfold after_kernel1. rewrite Z2Nat.id by lia.
    destruct Hal as [-> | Hmod]; [lia|].
    rewrite Z.add_mod, Hmod, Z.add_0_l, Z.mod_mod, Z.mod_small by lia.
    destruct (Z.ltb_spec i (w - 1)); [lia | done]. }
  eapply paints_ext; [|eapply paints_iff;
    [|apply (paints_compose _ _ _ _ _ _ P1 P2)]].
  - intros o Ho. unfold chunk_wise_kernel, kernel1. cbn [fst snd].
    rewrite !slice_column by lia. cbn [size]. fold z l1 l2.
    rewrite (for_each_setitem l1 (fun _ => f_inf)). reflexivity.
  - intros g Hg. cbv beta. split.
    + intros [(i & Hi & Hc) | (i & Hi & Hc)]; exists i;
        (split; [tauto|]); rewrite view_cell_unit in Hc; try done.
      * apply pyrange_elem in Hi; lia.
      * apply pyrange_elem in Hi; lia.
    + intros (i & [Hi | Hi] & Hc); [left | right]; exists i;
        (split; [done|]); rewrite view_cell_unit; try done.
      * apply pyrange_elem in Hi; lia.
      * apply pyrange_elem in Hi; lia.
Qed.

Lemma kernel2_paints (in1 : list num) (w tpb lo hi t : Z) :
  1 <= w -> 0 < tpb -> 0 <= t ->
  0 <= lo <= hi -> hi <= Z.of_nat (length in1) ->
  paints (length in1) (fun g => rolling_mean w in1 (Z.of_nat g))
    (fun g => 0 <= hi - lo - w + t - w + 1 /\
       exists i, i ∈ pyrange (hi - lo - w + t) (hi - lo) tpb /\
                 lo + i = Z.of_nat g)
    (chunk_wise_kernel (kernel2 w) in1 tpb (lo, hi) t).
Proof.
  intros Hw Htpb Ht Hlo Hhi.
  set (n := length in1) in *.
  set (z := hi - lo).
  set (v2 := fun i : Z =>
    f_div (for_each (pyrange (i - w + 1) (i + 1) 1)
             (fun j summ => f_add summ (getitem (NdArray in1 lo 1 z) j)) f_zero)
          (f_of_int w)).
  destruct (Z.ltb_spec (z - w + t - w + 1) 0) as [Hguard|Hguard].
  - eapply paints_ext; [|eapply paints_iff; [|apply paints_nothing]].
    + intros o Ho. unfold chunk_wise_kernel, kernel2. cbn [fst snd].
      rewrite !slice_column by lia. cbn [size]. fold z.
      destruct (Z.ltb_spec (z - w + t - w + 1) 0); [done | lia].
    + intros g _. cbv beta. lia.
  - assert (P : paints n (fun g => rolling_mean w in1 (Z.of_nat g))
              (fun g => exists i, i ∈ pyrange (z - w + t) z tpb /\
                                  view_cell lo 1 z i = Z.of_nat g)
              (fun out => buf (for_each (pyrange (z - w + t) z tpb)
                                 (fun i a => setitem a i (v2 i))
                                 (NdArray out lo 1 z)))).
    { apply (stores_paint n _ lo 1 z (pyrange (z - w + t) z tpb) v2).
      intros i Hi p Hp Hpn. apply pyrange_elem in Hi as [Hi _]; [|done].
      subst p v2. rewrite view_cell_unit in * by lia. cbv beta.
      rewrite window_mean_value by lia. by rewrite Z2Nat.id by lia. }
    eapply paints_ext; [|eapply paints_iff; [|apply P]].
    + intros o Ho. unfold chunk_wise_kernel, kernel2. cbn [fst snd].
      rewrite !slice_column by lia. cbn [size]. fold z.
      destruct (Z.ltb_spec (z - w + t - w + 1) 0); [lia | done].
    + intros g _. cbv beta. split.
      * intros (i & Hi & Hc). split; [done|]. exists i. split; [done|].
        rewrite view_cell_unit in Hc; [done|].
        apply pyrange_elem in Hi; lia.
      * intros (_ & i & Hi & Hc). exists i. split; [done|].
        rewrite view_cell_unit; [done|]. apply pyrange_elem in Hi; lia.
Qed.

(** The first launch: every chunk restarts the window, so the first
    [w - 1] rows of every chunk hold infinity. *)
Lemma first_launch (in1 out : list num) (w T tpb : Z) :
  length out = length in1 -> 1 <= w -> w - 1 <= T -> 0 < T -> 0 < tpb ->
  apply_chunks (kernel1 w)
    (pyrange 0 (Z.of_nat (length in1)) T ++ [Z.of_nat (length in1)])
    tpb in1 out =
  map (after_kernel1 w T in1) (seq 0 (length in1)).
Proof.
  intros Hlen Hw HwT HT Htpb. set (n := length in1) in *.
  eapply (painted_all n (after_kernel1 w T in1)); [| |done].
  - apply (apply_chunks_paints n _ _ _ _ _
      (fun b t g => exists i,
         (i ∈ pyrange t (w - 1) tpb \/
          i ∈ pyrange (t + w - 1) (b.2 - b.1) tpb) /\
         b.1 + i = Z.of_nat g)); [done|].
    intros [lo hi] t Hb Ht. cbn [fst snd].
    apply pyrange_elem in Ht; [|lia].
    rewrite chunk_bounds_app_nrows, elem_of_app in Hb.
    destruct Hb as [Hb | Hb].
    + apply chunk_bounds_range_elem in Hb as (k & Hk & -> & Hlt & ->); [|done].
      apply kernel1_paints; try lia.
      right. rewrite Z.add_0_l. apply Z_mod_mult.
    + apply list_elem_of_singleton in Hb. inversion Hb; subst.
      apply kernel1_paints; lia.
  - intros g Hg. cbv beta.
    destruct (chunk_bounds_range_cover (Z.of_nat n) 0 T (Z.of_nat g))
      as (lo & Hin & Hlo & Hmod); [lia | lia |].
    assert (0 <= lo).
    { apply chunk_bounds_range_elem in Hin as (k & ? & -> & _); [nia | lia]. }
    exists (lo, Z.min (lo + T) (Z.of_nat n)). split.
    { rewrite chunk_bounds_app_nrows, elem_of_app. by left. }
    cbn [fst snd].
    destruct (Z.lt_ge_cases (Z.of_nat g - lo) (w - 1)) as [Hsmall|Hbig].
    + destruct (strided_cover 0 (w - 1) tpb (Z.of_nat g - lo))
        as (t & Ht & Hi); [lia | lia |].
      rewrite Z.add_0_r in Hi.
      exists t. split; [done|]. exists (Z.of_nat g - lo). split; [by left | lia].
    + destruct (strided_cover (w - 1)
                  (Z.min (lo + T) (Z.of_nat n) - lo) tpb (Z.of_nat g - lo))
        as (t & Ht & Hi); [lia | lia |].
      replace (t + (w - 1)) with (t + w - 1) in Hi by lia.
      exists t. split; [done|]. exists (Z.of_nat g - lo). split; [by right | lia].
Qed.

(** The second launch paints rolling means only, and none below row
    [w - 1]. *)
Lemma second_launch_paints (in1 : list num) (w T tpb : Z) :
  1 <= w -> 0 < T -> 0 < tpb ->
  paints (length in1) (fun g => rolling_mean w in1 (Z.of_nat g))
    (fun g => exists b,
       b ∈ chunk_bounds (Z.of_nat (length in1))
             ([0] ++ pyrange w (Z.of_nat (length in1)) T
                  ++ [Z.of_nat (length in1)]) /\
       exists t, t ∈ pyrange 0 tpb 1 /\
         0 <= b.2 - b.1 - w + t - w + 1 /\
         exists i, i ∈ pyrange (b.2 - b.1 - w + t) (b.2 - b.1) tpb /\
                   b.1 + i = Z.of_nat g)
    (apply_chunks (kernel2 w)
       ([0] ++ pyrange w (Z.of_nat (length in1)) T ++ [Z.of_nat (length in1)])
       tpb in1).
Proof.
  intros Hw HT Htpb. set (n := length in1) in *.
  apply (apply_chunks_paints n _ _ _ _ _
    (fun b t g => 0 <= b.2 - b.1 - w + t - w + 1 /\
       exists i, i ∈ pyrange (b.2 - b.1 - w + t) (b.2 - b.1) tpb /\
                 b.1 + i = Z.of_nat g)); [done|].
  intros [lo hi] t Hb Ht. cbn [fst snd].
  apply pyrange_elem in Ht; [|lia].
  assert (Hgeo : 0 <= lo <= hi /\ hi <= Z.of_nat n);
    [|by apply kernel2_paints; lia].
  cbn [app chunk_bounds] in Hb.
  apply elem_of_cons in Hb as [Hb | Hb].
  - inversion Hb; subst. destruct (Z.lt_ge_cases w (Z.of_nat n)).
    + rewrite pyrange_unfold by lia. simpl. lia.
    + rewrite pyrange_empty by lia. simpl. lia.
  - rewrite chunk_bounds_app_nrows, elem_of_app in Hb.
    destruct Hb as [Hb | Hb].
    + apply chunk_bounds_range_elem in Hb as (k & Hk & -> & Hlt & ->); [|done].
      nia.
    + apply list_elem_of_singleton in Hb. inversion Hb; subst. lia.
Qed.

(** A row that the first launch left at infinity although it has a full
    window is among the last [w] rows of a shifted chunk, and its lane passes
    the guard of [kernel2] when a chunk holds two windows. *)
Lemma second_launch_cover (in1 : list num) (w T tpb : Z) (g : nat) :
  1 <= w -> 2 * w - 1 <= T -> w <= tpb ->
  (g < length in1)%nat -> T <= Z.of_nat g -> Z.of_nat g mod T < w - 1 ->
  exists b,
    b ∈ chunk_bounds (Z.of_nat (length in1))
          ([0] ++ pyrange w (Z.of_nat (length in1)) T
               ++ [Z.of_nat (length in1)]) /\
    exists t, t ∈ pyrange 0 tpb 1 /\
      0 <= b.2 - b.1 - w + t - w + 1 /\
      exists i, i ∈ pyrange (b.2 - b.1 - w + t) (b.2 - b.1) tpb /\
                b.1 + i = Z.of_nat g.
Proof.
  intros Hw HT Htpb Hg HTg Hmod. set (n := length in1) in *.
  destruct (chunk_bounds_range_cover (Z.of_nat n) w T (Z.of_nat g))
    as (lo & Hin & Hlo & Hdiv); [lia | lia |].
  assert (Hlate : lo + T - w <= Z.of_nat g).
  { apply Z.mod_divide in Hdiv as [k Hk]; [|lia].
    destruct (Z.lt_ge_cases (Z.of_nat g) (lo + T - w)) as [Hlt|]; [|done].
    replace (Z.of_nat g) with ((Z.of_nat g - k * T) + k * T) in Hmod by lia.
    rewrite Z_mod_plus_full, Z.mod_small in Hmod by lia. lia. }
  exists (lo, Z.min (lo + T) (Z.of_nat n)). split.
  { cbn [app chunk_bounds]. apply elem_of_cons. right.
    rewrite chunk_bounds_app_nrows, elem_of_app. by left. }
  cbn [fst snd].
  set (z := Z.min (lo + T) (Z.of_nat n) - lo).
  exists (Z.of_nat g - lo - z + w). split; [|split].
  - apply pyrange_elem; [lia|]. rewrite Z.mod_1_r. lia.
  - lia.
  - exists (Z.of_nat g - lo). split; [|lia].
    apply pyrange_elem; [lia|]. split; [lia|].
    replace (Z.of_nat g - lo - (z - w + (Z.of_nat g - lo - z + w))) with 0 by lia.
    apply Z.mod_0_l. lia.
Qed.

Lemma for_each_bind {I J S} (l : list I) (f : I -> list J)
    (body : J -> S -> S) (s : S) :
  for_each (l ≫= f) body s = for_each l (fun x => for_each (f x) body) s.
Proof.
  revert s. induction l as [|x l IH]; intros s; [done|].
  unfold for_each in *. cbn [mbind list_bind]. simpl.
  rewrite fold_left_app. apply IH.
Qed.

(** A launch is its turns taken block by block. *)
Lemma apply_chunks_turns inner chunks tpb (in1 out : list num) :
  apply_chunks inner chunks tpb in1 out =
  run_turns inner in1 tpb
    (chunk_turns (Z.of_nat (length in1)) chunks tpb) out.
Proof.
  unfold apply_chunks, run_turns, chunk_turns.
  rewrite for_each_bind. apply for_each_ext. intros b s.
  rewrite for_each_bind. apply for_each_ext. intros t s'. reflexivity.
Qed.

Lemma kernel1_turns_paint (in1 : list num) (w T tpb : Z) :
  1 <= w -> w - 1 <= T -> 0 < T -> 0 < tpb ->
  forall bt,
    bt ∈ chunk_turns (Z.of_nat (length in1))
           (pyrange 0 (Z.of_nat (length in1)) T ++ [Z.of_nat (length in1)])
           tpb ->
    paints (length in1) (after_kernel1 w T in1)
      (fun g => exists i,
         (i ∈ pyrange bt.2 (w - 1) tpb \/
          i ∈ pyrange (bt.2 + w - 1) (bt.1.2 - bt.1.1) tpb) /\
         bt.1.1 + i = Z.of_nat g)
      (chunk_wise_kernel (kernel1 w) in1 tpb bt.1 bt.2).
Proof.
  intros Hw HwT HT Htpb [[lo hi] t] Hbt. cbn [fst snd].
  unfold chunk_turns in Hbt.
  apply list_elem_of_bind in Hbt as (b & Hbt & Hb).
  apply list_elem_of_bind in Hbt as (t' & Hbt & Ht).
  apply list_elem_of_singleton in Hbt. inversion Hbt; subst b t'.
  apply pyrange_elem in Ht; [|lia].
  rewrite chunk_bounds_app_nrows, elem_of_app in Hb.
  destruct Hb as [Hb | Hb].
  - apply chunk_bounds_range_elem in Hb as (k & Hk & -> & Hlt & ->); [|done].
    apply kernel1_paints; try lia.
    right. rewrite Z.add_0_l. apply Z_mod_mult.
  - apply list_elem_of_singleton in Hb. inversion Hb; subst.
    apply kernel1_paints; lia.
Qed.

Lemma kernel2_turns_paint (in1 : list num) (w T tpb : Z) :
  1 <= w -> 0 < T -> 0 < tpb ->
  forall bt,
    bt ∈ chunk_turns (Z.of_nat (length in1))
           ([0] ++ pyrange w (Z.of_nat (length in1)) T
                ++ [Z.of_nat (length in1)]) tpb ->
    paints (length in1) (fun g => rolling_mean w in1 (Z.of_nat g))
      (fun g => 0 <= bt.1.2 - bt.1.1 - w + bt.2 - w + 1 /\
         exists i,
           i ∈ pyrange (bt.1.2 - bt.1.1 - w + bt.2) (bt.1.2 - bt.1.1) tpb /\
           bt.1.1 + i = Z.of_nat g)
      (chunk_wise_kernel (kernel2 w) in1 tpb bt.1 bt.2).
Proof.
  intros Hw HT Htpb [[lo hi] t] Hbt. cbn [fst snd].
  unfold chunk_turns in Hbt.
  apply list_elem_of_bind in Hbt as (b & Hbt & Hb).
  apply list_elem_of_bind in Hbt as (t' & Hbt & Ht).
  apply list_elem_of_singleton in Hbt. inversion Hbt; subst b t'.
  apply pyrange_elem in Ht; [|lia].
  set (n := length in1) in *.
  assert (Hgeo : 0 <= lo <= hi /\ hi <= Z.of_nat n);
    [|by apply kernel2_paints; lia].
  cbn [app chunk_bounds] in Hb.
  apply elem_of_cons in Hb as [Hb | Hb].
  - inversion Hb; subst. destruct (Z.lt_ge_cases w (Z.of_nat n)).
    + rewrite pyrange_unfold by lia. simpl. lia.
    + rewrite pyrange_empty by lia. simpl. lia.
  - rewrite chunk_bounds_app_nrows, elem_of_app in Hb.
    destruct Hb as [Hb | Hb].
    + apply chunk_bounds_range_elem in Hb as (k & Hk & -> & Hlt & ->); [|done].
      nia.
    + apply list_elem_of_singleton in Hb. inversion Hb; subst. lia.
Qed.

(** Whatever the order in which the device takes the turns of a launch, the
    column it leaves is the one of the launch taken block by block. *)
Lemma run_turns_any_order inner (in1 out : list num) (tpb : Z)
    (F : nat -> num) (W : (Z * Z) * Z -> nat -> Prop)
    (turns order : list ((Z * Z) * Z)) :
  (forall bt, bt ∈ turns ->
     paints (length in1) F (W bt) (chunk_wise_kernel inner in1 tpb bt.1 bt.2)) ->
  order ≡ₚ turns -> length out = length in1 ->
  run_turns inner in1 tpb order out = run_turns inner in1 tpb turns out.
Proof.
  intros Hall Hperm Hlen. unfold run_turns.
  assert (Hall' : forall bt, bt ∈ order ->
            paints (length in1) F (W bt)
              (chunk_wise_kernel inner in1 tpb bt.1 bt.2)).
  { intros bt Hbt. apply Hall. by rewrite <- Hperm. }
  destruct (fold_painters _ F W _ turns Hall out Hlen) as [Hl1 _].
  destruct (fold_painters _ F W _ order Hall' out Hlen) as [Hl2 _].
  apply list_eq. intros g.
  destruct (decide (g < length in1)%nat) as [Hg|Hg].
  - apply (fold_painters_permuted (length in1) F W _ turns order out g Hall);
      [by symmetry | done | done].
  - rewrite !lookup_ge_None_2; [done | lia | lia].
Qed.

(** X5.  The moving-average cell leaves the same column whatever the order in
    which the device takes the turns of each of its two launches. *)
Lemma moving_average_any_order (in1 out : list num) (w T tpb : Z)
    (order1 order2 : list ((Z * Z) * Z)) :
  length out = length in1 -> 1 <= w -> w - 1 <= T -> 0 < T -> 0 < tpb ->
  order1 ≡ₚ chunk_turns (Z.of_nat (length in1))
              (pyrange 0 (Z.of_nat (length in1)) T ++ [Z.of_nat (length in1)])
              tpb ->
  order2 ≡ₚ chunk_turns (Z.of_nat (length in1))
              ([0] ++ pyrange w (Z.of_nat (length in1)) T
                   ++ [Z.of_nat (length in1)]) tpb ->
  run_turns (kernel2 w) in1 tpb order2
    (run_turns (kernel1 w) in1 tpb order1 out) =
  MovingAverage.run w T tpb in1 out.
Proof.
  intros Hlen Hw HwT HT Htpb Hp1 Hp2. unfold MovingAverage.run. cbv zeta.
  rewrite !apply_chunks_turns.
  rewrite (run_turns_any_order (kernel1 w) in1 out tpb _ _ _ order1
             (kernel1_turns_paint in1 w T tpb Hw HwT HT Htpb) Hp1 Hlen).
  apply (run_turns_any_order (kernel2 w) in1 _ tpb _ _ _ order2
           (kernel2_turns_paint in1 w T tpb Hw HT Htpb) Hp2).
  rewrite <- apply_chunks_turns, first_launch by done.
  by rewrite length_map, length_seq.
Qed.

End MovingAverageFacts.

(** ** What the kernels compute *)

(** ** Binary64 sums of doubled values *)
Section B64Facts.
Import B64.

(** Stripping the trailing zero bits keeps the value and leaves an odd
    significand. *)

Lemma strip_spec (p : positive) (e : Z) :
  exists k, 0 <= k /\ (strip p e).2 = e + k /\
            Zpos p = Zpos (strip p e).1 * 2 ^ k /\
            Z.odd (Zpos (strip p e).1) = true.
Proof.
  revert e. induction p as [p _|p IH|]; intros e.
  - exists 0. simpl. repeat split; lia.
  - destruct (IH (e + 1)) as (k & Hk & He & Hp & Hodd).
    exists (k + 1). cbn [strip]. rewrite He. repeat split; [lia | lia | | done].
    rewrite Z.pow_add_r, Z.pow_1_r by lia. lia.
  - exists 0. simpl. repeat split; lia.
Qed.

Lemma strip_odd (p : positive) (e : Z) :
  Z.odd (Zpos p) = true -> strip p e = (p, e).
Proof. by destruct p. Qed.

Lemma strip_shift (p : positive) (e : Z) :
  strip p (e + 1) = ((strip p e).1, (strip p e).2 + 1).
Proof.
  revert e. induction p as [p _|p IH|]; intros e; simpl; [done | apply IH | done].
Qed.

Lemma strip_log2 (p : positive) (e : Z) :
  Z.log2 (Zpos (strip p e).1) + (strip p e).2 = Z.log2 (Zpos p) + e.
Proof.
  destruct (strip_spec p e) as (k & Hk & -> & Hp & _).
  rewrite Hp, Z.log2_mul_pow2 by lia. lia.
Qed.

Lemma rne_0 (a : Z) : rne a 0 = a.
Proof. reflexivity. Qed.

Lemma rne_bound (a sh : Z) :
  0 < a -> 0 <= sh -> a < 2 ^ (53 + sh) -> 0 <= rne a sh <= 2 ^ 53.
Proof.
  intros Ha Hsh Hlt. unfold rne.
  destruct (Z.leb_spec sh 0) as [H0|H0].
  - assert (sh = 0) as -> by lia. rewrite Z.add_0_r in Hlt. lia.
  - assert (0 < 2 ^ sh) by (apply Z.pow_pos_nonneg; lia).
    assert (0 <= a / 2 ^ sh) by (apply Z.div_pos; lia).
    assert (a / 2 ^ sh < 2 ^ 53).
    { apply Z.div_lt_upper_bound; [done|].
      rewrite <- Z.pow_add_r by lia. by rewrite Z.add_comm. }
    destruct (_ || _); lia.
Qed.

(** Every rounded result is a value of the format. *)
Lemma round_wf (s : bool) (a : positive) (e : Z) : wf (round s a e).
Proof.
  unfold round.
  set (sh := Z.max 0 (Z.max (Z.log2 (Zpos a) + 1 - 53) (emin - e))).
  assert (Hq : 0 <= rne (Zpos a) sh <= 2 ^ 53).
  { apply rne_bound; [lia | lia |].
    pose proof (Z.log2_spec (Zpos a) ltac:(lia)) as [_ Hup].
    eapply Z.lt_le_trans; [exact Hup|].
    apply Z.pow_le_mono_r; lia. }
  destruct (rne (Zpos a) sh) as [|q|q] eqn:Eq; cbv beta iota; [by left | | by left].
  destruct (Z.leb_spec emax (Z.log2 (Zpos q) + (e + sh))) as [Hov|Hov].
  { by destruct s. }
  destruct (strip_spec q (e + sh)) as (k & Hk & He & Hp & Hodd).
  pose proof (strip_log2 q (e + sh)) as Hlog.
  destruct (strip q (e + sh)) as [m e'] eqn:Es. cbn [fst snd] in *.
  assert (Hm : Zpos m < 2 ^ 53).
  { destruct (Z.lt_ge_cases (Zpos m) (2 ^ 53)) as [|Hge]; [done|].
    assert (0 < 2 ^ k) by (apply Z.pow_pos_nonneg; lia).
    assert (Zpos m = 2 ^ 53) as Hm by nia.
    rewrite Hm in Hodd. discriminate Hodd. }
  assert (Z.log2 (Zpos m) < 53) by (apply Z.log2_lt_pow2; lia).
  assert (emin - e <= sh) by (unfold sh; lia).
  right. destruct s; (split; [exact Hodd|]);
    change (Z.abs (Zneg m)) with (Zpos m); change (Z.abs (Zpos m)) with (Zpos m);
    lia.
Qed.

Lemma of_pair_wf (m e : Z) : wf (of_pair m e).
Proof. destruct m; simpl; [by left | apply round_wf | apply round_wf]. Qed.

Lemma add_wf (x y : t) : wf x -> wf y -> wf (add x y).
Proof.
  destruct x as [m1 e1| | |], y as [m2 e2| | |]; intros Hx Hy; try done;
    try (by destruct m1); try (by destruct m2).
  destruct m1, m2; try done; apply of_pair_wf.
Qed.

(** A value of the format rounds to itself, unless it is out of range. *)
Lemma round_canonical (s : bool) (m : positive) (e : Z) :
  Z.odd (Zpos m) = true -> Z.log2 (Zpos m) < 53 -> emin <= e ->
  round s m e =
    if emax <=? Z.log2 (Zpos m) + e then infinity s
    else Fin (if s then Zneg m else Zpos m) e.
Proof.
  intros Hodd Hlog He. unfold round.
  replace (Z.max 0 (Z.max (Z.log2 (Zpos m) + 1 - 53) (emin - e))) with 0 by lia.
  rewrite rne_0, Z.add_0_r. destruct (_ <=? _); [done|].
  by rewrite strip_odd.
Qed.

(** Rounding does not depend on the scale: one binary place up is the
    double of the rounded value, overflow included. *)
Lemma round_shift (s : bool) (a : positive) (e : Z) :
  emin <= e -> round s a (e + 1) = double (round s a e).
Proof.
  intros He. unfold round.
  replace (Z.max 0 (Z.max (Z.log2 (Zpos a) + 1 - 53) (emin - (e + 1))))
    with (Z.max 0 (Z.max (Z.log2 (Zpos a) + 1 - 53) (emin - e))) by lia.
  set (sh := Z.max 0 (Z.max (Z.log2 (Zpos a) + 1 - 53) (emin - e))).
  assert (Hq : 0 <= rne (Zpos a) sh <= 2 ^ 53).
  { apply rne_bound; [lia | lia |].
    pose proof (Z.log2_spec (Zpos a) ltac:(lia)) as [_ Hup].
    eapply Z.lt_le_trans; [exact Hup|].
    apply Z.pow_le_mono_r; lia. }
  destruct (rne (Zpos a) sh) as [|q|q] eqn:Eq; cbv beta iota; [done | | done].
  replace (e + 1 + sh) with (e + sh + 1) by lia.
  rewrite strip_shift.
  destruct (strip_spec q (e + sh)) as (k & Hk & He' & Hp & Hodd).
  pose proof (strip_log2 q (e + sh)) as Hlog.
  destruct (strip q (e + sh)) as [m e'] eqn:Es. cbn [fst snd] in *.
  assert (Hm : Zpos m < 2 ^ 53).
  { destruct (Z.lt_ge_cases (Zpos m) (2 ^ 53)) as [|Hge]; [done|].
    assert (0 < 2 ^ k) by (apply Z.pow_pos_nonneg; lia).
    assert (Zpos m = 2 ^ 53) as Hm by nia.
    rewrite Hm in Hodd. discriminate Hodd. }
  assert (Z.log2 (Zpos m) < 53) by (apply Z.log2_lt_pow2; lia).
  destruct (Z.leb_spec emax (Z.log2 (Zpos q) + (e + sh))) as [Hov|Hov].
  { destruct (Z.leb_spec emax (Z.log2 (Zpos q) + (e + sh + 1))); [|lia].
    by destruct s. }
  unfold double, mul.
  assert (Hdbl : forall z, z = (if s then Zneg m else Zpos m) ->
            of_pair (z * 1) (e' + 1) = round s m (e' + 1)).
  { intros z ->. rewrite Z.mul_1_r. by destruct s. }
  rewrite (Hdbl _ eq_refl), round_canonical by (done || lia).
  replace (Z.log2 (Zpos m) + (e' + 1)) with (Z.log2 (Zpos q) + (e + sh + 1)) by lia.
  by destruct (_ <=? _), s.
Qed.

Lemma of_pair_shift (m e : Z) :
  emin <= e -> of_pair m (e + 1) = double (of_pair m e).
Proof. intros He. destruct m; simpl; [done | |]; by apply round_shift. Qed.

Lemma double_fin (m e : Z) :
  wf (Fin m e) -> m <> 0 -> finite (double (Fin m e)) ->
  double (Fin m e) = Fin m (e + 1).
Proof.
  intros [[-> _]|(Hodd & Hlog & He & Hmax)] Hm; [done|].
  unfold double, mul. rewrite Z.mul_1_r.
  destruct m as [|m|m]; [done | |]; simpl of_pair;
    rewrite round_canonical by (done || lia);
    by destruct (_ <=? _).
Qed.

Lemma double_zero (e : Z) : double (Fin 0 e) = Fin 0 0.
Proof. reflexivity. Qed.

Lemma double_finite (x : t) : finite (double x) -> finite x.
Proof. by destruct x. Qed.

Lemma add_finite (x y : t) : finite (add x y) -> finite x /\ finite y.
Proof.
  destruct x as [m ?| | |], y as [m' ?| | |];
    try destruct m; try destruct m'; done.
Qed.

(** Doubling distributes over a sum of two values whose doubles are finite. *)
Lemma double_add (x y : t) :
  wf x -> wf y -> finite (double x) -> finite (double y) ->
  add (double x) (double y) = double (add x y).
Proof.
  intros Hx Hy Fx Fy.
  destruct x as [m1 e1| | |]; try done.
  destruct y as [m2 e2| | |]; try done.
  destruct (decide (m1 = 0)) as [->|H1].
  { rewrite double_zero. simpl add at 2.
    destruct (double (Fin m2 e2)); done. }
  destruct (decide (m2 = 0)) as [->|H2].
  { rewrite double_zero.
    replace (add (Fin m1 e1) (Fin 0 e2)) with (Fin m1 e1) by by destruct m1.
    rewrite double_fin by done. by destruct m1. }
  rewrite !double_fin by done.
  assert (emin <= Z.min e1 e2).
  { destruct Hx as [[? _]|(_ & _ & ? & _)], Hy as [[? _]|(_ & _ & ? & _)]; lia. }
  transitivity (of_pair (m1 * 2 ^ (e1 - Z.min e1 e2) + m2 * 2 ^ (e2 - Z.min e1 e2))
                  (Z.min e1 e2 + 1)).
  - destruct m1, m2; try done; simpl add;
      rewrite Z.add_min_distr_r;
      by replace (e1 + 1 - (Z.min e1 e2 + 1)) with (e1 - Z.min e1 e2) by lia;
         replace (e2 + 1 - (Z.min e1 e2 + 1)) with (e2 - Z.min e1 e2) by lia.
  - rewrite of_pair_shift by done. by destruct m1, m2.
Qed.

(** An infinity or a NaN among the partial sums stays to the end. *)
Lemma fold_add_finite (l : list t) (acc : t) :
  finite (fold_left add l acc) -> finite acc.
Proof.
  revert acc. induction l as [|x l IH]; intros acc; simpl; [done|].
  intros Hf. apply IH in Hf. by apply add_finite in Hf as [? _].
Qed.

Lemma fold_add_wf (l : list t) (acc : t) :
  wf acc -> Forall wf l -> wf (fold_left add l acc).
Proof.
  revert acc. induction l as [|x l IH]; intros acc Hacc Hl; simpl; [done|].
  inversion Hl; subst. apply IH; [by apply add_wf | done].
Qed.

Lemma fold_add_doubled (l : list t) (acc : t) :
  wf acc -> Forall wf l ->
  finite (fold_left add (map double l) (double acc)) ->
  fold_left add (map double l) (double acc) = double (fold_left add l acc).
Proof.
  revert acc. induction l as [|x l IH]; intros acc Hacc Hl; simpl; [done|].
  inversion Hl; subst. intros Hf.
  pose proof (fold_add_finite _ _ Hf) as Hstep.
  apply add_finite in Hstep as [Fa Fx].
  rewrite double_add in Hf |- * by done.
  apply IH; [by apply add_wf | done | done].
Qed.

Lemma col_sum_doubled (l : list t) :
  Forall wf l -> finite (col_sum (map double l)) ->
  col_sum (map double l) = double (col_sum l).
Proof.
  intros Hl Hf.
  exact (fold_add_doubled l (Fin 0 0) (or_introl (conj eq_refl eq_refl)) Hl Hf).
Qed.

Lemma reduce_wf (s : reduction) (l : list t) :
  Forall wf l -> wf (reduce s l).
Proof.
  intros Hl. induction s as [i|a IHa b IHb]; simpl.
  - destruct (l !! i) as [x|] eqn:Hx; simpl; [|by left].
    by apply (Forall_lookup_1 _ _ _ _ Hl Hx).
  - by apply add_wf.
Qed.

Lemma reduce_doubled (s : reduction) (l : list t) :
  Forall wf l -> finite (reduce s (map double l)) ->
  reduce s (map double l) = double (reduce s l).
Proof.
  intros Hl. induction s as [i|a IHa b IHb]; simpl.
  - rewrite list_lookup_fmap. by destruct (l !! i).
  - intros Hf. destruct (add_finite _ _ Hf) as [Fa Fb].
    rewrite IHa, IHb in * by done.
    apply double_add; try done; by apply reduce_wf.
Qed.

End B64Facts.

Section KernelClaims.
Context {num : Type} `{Float64 num}.

(** C1, as amended.  With a window of [w >= 1] rows, chunks of at least
    [2 * w - 1] rows and blocks of at least [w] threads, the two launches of
    the moving-average cell leave [out[i] = (in1[i-w+1] + ... + in1[i]) / w]
    at every row [i >= w - 1], the rolling mean of the reference, and
    [out[i] = inf] at every row [i < w - 1]. *)
Theorem moving_average_by_chunks (in1 out : list num) (w T tpb : Z) :
  length out = length in1 -> 1 <= w -> 2 * w - 1 <= T -> w <= tpb ->
  forall i, 0 <= i < Z.of_nat (length in1) ->
    (w - 1 <= i ->
       MovingAverage.run w T tpb in1 out !! Z.to_nat i =
       Some (MovingAverage.rolling_mean w in1 i)) /\
    (i < w - 1 -> MovingAverage.run w T tpb in1 out !! Z.to_nat i = Some f_inf).
Proof.
  intros Hlen Hw HT Htpb i Hi. unfold MovingAverage.run. cbv zeta.
  rewrite first_launch by (done || lia).
  set (n := length in1) in *.
  set (out1 := map (after_kernel1 w T in1) (seq 0 n)).
  assert (Hlen1 : length out1 = n) by (unfold out1; by rewrite length_map, length_seq).
  assert (Hout1 : out1 !! Z.to_nat i = Some (after_kernel1 w T in1 (Z.to_nat i))).
  { unfold out1. rewrite list_lookup_fmap, lookup_seq_lt by lia. reflexivity. }
  destruct (second_launch_paints in1 w T tpb ltac:(lia) ltac:(lia) ltac:(lia)
              out1 Hlen1) as [_ Hpaint].
  destruct (Hpaint (Z.to_nat i) ltac:(lia)) as [Hcover Hsound].
  fold n in Hcover, Hsound.
  rewrite Z2Nat.id in Hcover, Hsound by lia.
  unfold after_kernel1 in Hout1. rewrite Z2Nat.id in Hout1 by lia.
  split.
  - intros Hfull. destruct (Z.ltb_spec (i mod T) (w - 1)) as [Hmod|Hmod].
    + apply Hcover.
      assert (T <= i).
      { destruct (Z.lt_ge_cases i T); [|done].
        rewrite Z.mod_small in Hmod by lia. lia. }
      pose proof (second_launch_cover in1 w T tpb (Z.to_nat i)) as Hc.
      rewrite Z2Nat.id in Hc by lia. apply Hc; lia.
    + destruct Hsound as [-> | [_ ->]]; done.
  - intros Hshort. destruct Hsound as [-> | [Hw2 _]].
    + rewrite Hout1. rewrite Z.mod_small by lia.
      destruct (Z.ltb_spec i (w - 1)); [done | lia].
    + exfalso. destruct Hw2 as ([lo hi] & Hb & t & Ht & Hguard & j & Hj & Hij).
      cbn [fst snd] in *.
      apply pyrange_elem in Hj; [|lia].
      assert (0 <= lo); [|apply pyrange_elem in Ht; lia].
      cbn [app chunk_bounds] in Hb.
      apply elem_of_cons in Hb as [Hb | Hb]; [inversion Hb; lia|].
      rewrite chunk_bounds_app_nrows, elem_of_app in Hb.
      destruct Hb as [Hb | Hb].
      * apply chunk_bounds_range_elem in Hb as (k & Hk & -> & _); [nia | lia].
      * apply list_elem_of_singleton in Hb. inversion Hb; lia.
Qed.

(** C2, as amended.  The doubling kernel, through [apply_rows] with any
    number of threads or through [apply_chunks] with any chunk size and block
    width, leaves [out[i] = in1[i] * 2.0] at every row and nothing else in
    the column, in every arithmetic.  On a column of binary64 values,
    [sum(out) = sum(in1) * 2.0] whenever [sum(out)] is finite, whether the
    rows are added one after the other or in any other order, the same for
    both sums. *)
Theorem doubling_kernels (in1 out : list num) (col res : list B64.t)
    (ntid chunks tpb : Z) :
  length out = length in1 -> length res = length col ->
  0 < ntid -> 0 < chunks -> 0 < tpb ->
  let doubled := map (fun x => f_mul x f_two) in1 in
  (DoubleRows.run ntid in1 out = doubled /\
   DoubleChunks.run chunks tpb in1 out = doubled /\
   (forall i x, in1 !! i = Some x -> doubled !! i = Some (f_mul x f_two)) /\
   length doubled = length in1) /\
  (Forall B64.wf col ->
   forall out', out' = DoubleRows.run ntid col res \/
                out' = DoubleChunks.run chunks tpb col res ->
     (B64.finite (col_sum out') -> col_sum out' = f_mul (col_sum col) f_two) /\
     (forall s, B64.finite (reduce s out') ->
        reduce s out' = f_mul (reduce s col) f_two)).
Proof.
  intros Hlen Hlen' Hn Hc Ht doubled. split.
  - repeat split.
    + by apply double_rows_run.
    + by apply double_chunks_run.
    + intros i x Hx. unfold doubled. by rewrite list_lookup_fmap, Hx.
    + unfold doubled. by rewrite length_map.
  - intros Hwf out' Hout.
    assert (out' = map (fun x : B64.t => f_mul x f_two) col) as ->.
    { destruct Hout as [-> | ->];
        [by apply double_rows_run | by apply double_chunks_run]. }
    change (map (fun x : B64.t => f_mul x f_two) col) with (map B64.double col).
    split.
    + by apply col_sum_doubled.
    + intros s. by apply reduce_doubled.
Qed.

(** C9, as amended.  The kernels handed to [apply_chunks] do split the rows
    of a chunk among the lanes of a block.  On a chunk of [n] rows, lane [t]
    of [w] takes the rows [t, t + w, t + 2w, ...] in the doubling kernel, the
    rows [range(t, a - 1, w)] and [range(t + a - 1, n, w)] in [kernel1] with
    window [a], and the rows [range(n - a + t, n, w)] in [kernel2], none if
    [n - 2a + t + 1 < 0].  In each kernel no row belongs to two lanes, a
    lane's turn writes its own rows and changes no other row; in the
    doubling kernel and in [kernel1] every row belongs to a lane. *)
Theorem lanes_partition_chunk (in1 out : list num) (a w t : Z) :
  1 <= a -> 0 < w -> 0 <= t < w -> length out = length in1 ->
  let n := Z.of_nat (length in1) in
  let out' := buf (DoubleChunks.kernel t w (column in1) (column out)) in
  let out1 := buf (MovingAverage.kernel1 a t w (column in1) (column out)) in
  let out2 := buf (MovingAverage.kernel2 a t w (column in1) (column out)) in
  ((forall i, 0 <= i < n ->
      exists t', 0 <= t' < w /\ i ∈ DoubleChunks.lane_rows t' w n) /\
   (forall t1 t2 i, 0 <= t1 < w -> 0 <= t2 < w ->
      i ∈ DoubleChunks.lane_rows t1 w n ->
      i ∈ DoubleChunks.lane_rows t2 w n -> t1 = t2) /\
   (forall g x, in1 !! g = Some x ->
      Z.of_nat g ∈ DoubleChunks.lane_rows t w n ->
      out' !! g = Some (f_mul x f_two)) /\
   (forall g, Z.of_nat g ∉ DoubleChunks.lane_rows t w n ->
      out' !! g = out !! g)) /\
  ((forall i, 0 <= i < n ->
      exists t', 0 <= t' < w /\ i ∈ MovingAverage.kernel1_rows a t' w n) /\
   (forall t1 t2 i, 0 <= t1 < w -> 0 <= t2 < w ->
      i ∈ MovingAverage.kernel1_rows a t1 w n ->
      i ∈ MovingAverage.kernel1_rows a t2 w n -> t1 = t2) /\
   (forall g, (g < length in1)%nat ->
      Z.of_nat g ∈ MovingAverage.kernel1_rows a t w n ->
      out1 !! g = Some (if Z.of_nat g <? a - 1 then f_inf
                        else MovingAverage.rolling_mean a in1 (Z.of_nat g))) /\
   (forall g, Z.of_nat g ∉ MovingAverage.kernel1_rows a t w n ->
      out1 !! g = out !! g)) /\
  ((forall t1 t2 i, 0 <= t1 < w -> 0 <= t2 < w ->
      i ∈ MovingAverage.kernel2_rows a t1 w n ->
      i ∈ MovingAverage.kernel2_rows a t2 w n -> t1 = t2) /\
   (forall g, (g < length in1)%nat ->
      Z.of_nat g ∈ MovingAverage.kernel2_rows a t w n ->
      out2 !! g = Some (MovingAverage.rolling_mean a in1 (Z.of_nat g))) /\
   (forall g, Z.of_nat g ∉ MovingAverage.kernel2_rows a t w n ->
      out2 !! g = out !! g)).
Proof.
  intros Ha Hw Ht Hlen n out' out1 out2.
  assert (Hcol : forall l : list num,
            length l = length in1 -> slice (column l) 0 n = column l).
  { intros l Hl. rewrite slice_column by (unfold n; lia).
    unfold column. f_equal. unfold n. lia. }
  split; [|split].
  - unfold DoubleChunks.lane_rows. repeat split.
    + intros i Hi.
      destruct (strided_cover 0 n w i) as (t' & Ht' & Hin); [lia..|].
      rewrite Z.add_0_r in Hin. apply pyrange_elem in Ht'; [|lia].
      exists t'. split; [lia | done].
    + intros t1 t2 i H1 H2 Hi1 Hi2.
      apply (strided_disjoint 0 n w t1 t2 i); try done; by rewrite Z.add_0_r.
    + intros g x Hx Hin.
      destruct (doubling_loop_paints (length in1) in1 0 1 n (pyrange t n w)
                  out Hlen) as [_ Hp].
      destruct (Hp g (lookup_lt_Some _ _ _ Hx)) as [Hc _].
      unfold out', DoubleChunks.kernel, column. cbn [size]. fold n.
      rewrite Hlen. fold n. rewrite Hc.
      * unfold doubled_at. by rewrite Hx.
      * exists (Z.of_nat g). split; [done|]. rewrite view_cell_unit; lia.
    + intros g Hnot.
      destruct (decide (g < length in1)%nat) as [Hg|Hg].
      * destruct (doubling_loop_paints (length in1) in1 0 1 n (pyrange t n w)
                    out Hlen) as [_ Hp].
        destruct (Hp g Hg) as [_ Hs].
        unfold out', DoubleChunks.kernel, column. cbn [size]. fold n.
        rewrite Hlen. fold n.
        destruct Hs as [-> | [(i & Hi & Hc) _]]; [done|].
        exfalso. apply Hnot.
        rewrite view_cell_unit in Hc by (apply pyrange_elem in Hi; lia).
        replace (Z.of_nat g) with i by lia. done.
      * destruct (doubling_loop_paints (length in1) in1 0 1 n (pyrange t n w)
                    out Hlen) as [Hl _].
        unfold out', DoubleChunks.kernel, column. cbn [size]. fold n.
        rewrite Hlen. fold n.
        rewrite !lookup_ge_None_2; [done | lia | lia].
  - assert (Hp : paints (length in1)
                   (after_kernel1 a (Z.max n a) in1)
                   (fun g => exists i,
                      (i ∈ pyrange t (a - 1) w \/
                       i ∈ pyrange (t + a - 1) (n - 0) w) /\
                      0 + i = Z.of_nat g)
                   (chunk_wise_kernel (MovingAverage.kernel1 a) in1 w (0, n) t)).
    { apply kernel1_paints; try lia. right. apply Z.mod_0_l. lia. }
    destruct (Hp out Hlen) as [Hl Hg].
    assert (Hturn : chunk_wise_kernel (MovingAverage.kernel1 a) in1 w (0, n) t
                      out = out1).
    { unfold chunk_wise_kernel, out1. cbn [fst snd].
      by rewrite !Hcol. }
    rewrite Hturn in Hl, Hg. unfold MovingAverage.kernel1_rows.
    repeat split.
    + intros i Hi. destruct (Z.lt_ge_cases i (a - 1)) as [Hlo|Hhi].
      * destruct (strided_cover 0 (a - 1) w i) as (t' & Ht' & Hin); [lia..|].
        rewrite Z.add_0_r in Hin. apply pyrange_elem in Ht'; [|lia].
        exists t'. split; [lia|]. apply elem_of_app. by left.
      * destruct (strided_cover (a - 1) n w i) as (t' & Ht' & Hin); [lia..|].
        apply pyrange_elem in Ht'; [|lia].
        exists t'. split; [lia|]. apply elem_of_app. right.
        by replace (t' + a - 1) with (t' + (a - 1)) by lia.
    + intros t1 t2 i H1 H2 Hi1 Hi2.
      apply elem_of_app in Hi1. apply elem_of_app in Hi2.
      replace (t1 + a - 1) with (t1 + (a - 1)) in Hi1 by lia.
      replace (t2 + a - 1) with (t2 + (a - 1)) in Hi2 by lia.
      destruct Hi1 as [Hi1|Hi1], Hi2 as [Hi2|Hi2].
      * apply (strided_disjoint 0 (a - 1) w t1 t2 i); try done;
          by rewrite Z.add_0_r.
      * apply pyrange_elem in Hi1; [|lia]. apply pyrange_elem in Hi2; [|lia].
        lia.
      * apply pyrange_elem in Hi1; [|lia]. apply pyrange_elem in Hi2; [|lia].
        lia.
      * by apply (strided_disjoint (a - 1) n w t1 t2 i).
    + intros g Hlt Hin. destruct (Hg g Hlt) as [Hset _].
      rewrite Hset.
      * unfold after_kernel1. rewrite Z.mod_small by (unfold n; lia). done.
      * exists (Z.of_nat g). split; [|lia].
        rewrite Z.sub_0_r. by apply elem_of_app.
    + intros g Hnot. destruct (decide (g < length in1)%nat) as [Hlt|Hge].
      * destruct (Hg g Hlt) as [_ [Hsame | [(i & Hi & Heq) _]]]; [done|].
        exfalso. apply Hnot. rewrite Z.sub_0_r in Hi.
        replace (Z.of_nat g) with i by lia. by apply elem_of_app.
      * rewrite !lookup_ge_None_2; [done | lia | lia].
  - assert (Hp : paints (length in1)
                   (fun g => MovingAverage.rolling_mean a in1 (Z.of_nat g))
                   (fun g => 0 <= n - 0 - a + t - a + 1 /\
                      exists i, i ∈ pyrange (n - 0 - a + t) (n - 0) w /\
                                0 + i = Z.of_nat g)
                   (chunk_wise_kernel (MovingAverage.kernel2 a) in1 w (0, n) t)).
    { apply kernel2_paints; lia. }
    destruct (Hp out Hlen) as [Hl Hg].
    assert (Hturn : chunk_wise_kernel (MovingAverage.kernel2 a) in1 w (0, n) t
                      out = out2).
    { unfold chunk_wise_kernel, out2. cbn [fst snd].
      by rewrite !Hcol. }
    rewrite Hturn in Hl, Hg. unfold MovingAverage.kernel2_rows.
    rewrite !Z.sub_0_r in Hg.
    repeat split.
    + intros t1 t2 i H1 H2 Hi1 Hi2.
      destruct (n - a + t1 - a + 1 <? 0); [by apply elem_of_nil in Hi1|].
      destruct (n - a + t2 - a + 1 <? 0); [by apply elem_of_nil in Hi2|].
      replace (n - a + t1) with (t1 + (n - a)) in Hi1 by lia.
      replace (n - a + t2) with (t2 + (n - a)) in Hi2 by lia.
      by apply (strided_disjoint (n - a) n w t1 t2 i).
    + intros g Hlt Hin. destruct (Hg g Hlt) as [Hset _]. apply Hset.
      destruct (Z.ltb_spec (n - a + t - a + 1) 0) as [|Hguard];
        [by apply elem_of_nil in Hin|].
      split; [lia|]. exists (Z.of_nat g). split; [done | lia].
    + intros g Hnot. destruct (decide (g < length in1)%nat) as [Hlt|Hge].
      * destruct (Hg g Hlt) as [_ [Hsame | [(Hguard & i & Hi & Heq) _]]];
          [done|].
        exfalso. apply Hnot.
        destruct (Z.ltb_spec (n - a + t - a + 1) 0); [lia|].
        by replace (Z.of_nat g) with i by lia.
      * rewrite !lookup_ge_None_2; [done | lia | lia].
Qed.

End KernelClaims.

(** C1 fails as stated: with [w = 2] and chunks of [2] rows ([w <= 2 <= n]),
    row 2 has a full window but is left at infinity; its lane returns at the
    guard of [kernel2]. *)
Lemma moving_average_needs_two_windows :
  ~ (forall (in1 out : list xrat) (w T : Z),
       length out = length in1 ->
       1 <= w -> w <= T -> T <= Z.of_nat (length in1) ->
       forall i, 0 <= i < Z.of_nat (length in1) ->
         (w - 1 <= i ->
            MovingAverage.run w T MovingAverage.threads_per_block in1 out
              !! Z.to_nat i = Some (MovingAverage.rolling_mean w in1 i)) /\
         (i < w - 1 ->
            MovingAverage.run w T MovingAverage.threads_per_block in1 out
              !! Z.to_nat i = Some f_inf)).
Proof.
  intros Hclaim.
  destruct (Hclaim (arange 4) (replicate 4 Stray) 2 2 eq_refl
              ltac:(lia) ltac:(lia) ltac:(simpl; lia) 2 ltac:(simpl; lia))
    as [Hmean _].
  specialize (Hmean ltac:(lia)). vm_compute in Hmean. discriminate Hmean.
Qed.

(** Blocks narrower than the window fail too: with [w = 130] and chunks of
    [2 * w - 1 = 259] rows, all 128 lanes of the notebook's blocks return at
    the guard of [kernel2] in the last chunk, and row 259 is left at
    infinity. *)
Lemma moving_average_needs_wide_blocks :
  MovingAverage.run 130 259 MovingAverage.threads_per_block
    (arange 260) (replicate 260 Stray) !! 259%nat = Some Inf /\
  MovingAverage.rolling_mean 130 (arange 260) 259 = Fin (389 # 2).
Proof. split; vm_compute; reflexivity. Qed.

Lemma moving_average_by_chunks_witness :
  length (replicate 20 Stray) = length (arange 20) /\
  1 <= 4 /\ 2 * 4 - 1 <= 8 /\ 4 <= 128 /\ 0 <= 9 < 20 /\
  MovingAverage.run 4 8 128 (arange 20) (replicate 20 Stray) !! 9%nat =
  Some (MovingAverage.rolling_mean 4 (arange 20) 9).
Proof.
  split; [reflexivity|]. do 4 (split; [lia|]).
  apply (moving_average_by_chunks (arange 20) (replicate 20 Stray) 4 8 128
           eq_refl ltac:(lia) ltac:(lia) ltac:(lia) 9 ltac:(simpl; lia)).
  lia.
Defined.

(** C2 fails as stated: on the column [1e308, -1e308] both doubled rows
    overflow, [sum(out)] is [inf + -inf], a NaN, and [sum(in1) * 2.0] is
    zero. *)
Lemma doubled_sum_overflows :
  let big := B64.of_Z (10 ^ 308) in
  let in1 := [big; B64.neg big] in
  let res := [B64.NaN; B64.NaN] in
  Forall B64.wf in1 /\
  DoubleRows.run 3 in1 res = [B64.PInf; B64.NInf] /\
  DoubleChunks.run 16 8 in1 res = [B64.PInf; B64.NInf] /\
  col_sum [B64.PInf; B64.NInf] = B64.NaN /\
  f_mul (col_sum in1) f_two = B64.Fin 0 0 /\
  col_sum (DoubleRows.run 3 in1 res) <> f_mul (col_sum in1) f_two /\
  col_sum (DoubleChunks.run 16 8 in1 res) <> f_mul (col_sum in1) f_two.
Proof.
  intros big in1 res. split.
  { constructor; [apply of_pair_wf|]. constructor; [|constructor].
    vm_compute. right. intuition discriminate. }
  repeat split; try (vm_compute; reflexivity); vm_compute; discriminate.
Qed.

Lemma doubling_kernels_witness :
  let col := map B64.of_Z [1; 2; 3; 4; 5] in
  let res := replicate 5 B64.NaN in
  let s := Plus (Row 4) (Plus (Plus (Row 0) (Row 1)) (Plus (Row 2) (Row 3))) in
  length res = length col /\ Forall B64.wf col /\
  B64.finite (col_sum (DoubleRows.run 3 col res)) /\
  B64.finite (reduce s (DoubleChunks.run 16 8 col res)) /\
  DoubleRows.run 3 col res = map (fun x => f_mul x f_two) col /\
  DoubleChunks.run 16 8 col res = map (fun x => f_mul x f_two) col /\
  col_sum (DoubleRows.run 3 col res) = f_mul (col_sum col) f_two /\
  reduce s (DoubleChunks.run 16 8 col res) = f_mul (reduce s col) f_two.
Proof.
  intros col res s.
  assert (Hwf : Forall B64.wf col).
  { apply Forall_fmap, Forall_forall. intros n _. apply of_pair_wf. }
  destruct (doubling_kernels col res col res 3 16 8
              eq_refl eq_refl ltac:(lia) ltac:(lia) ltac:(lia))
    as [(Hrows & Hchunks & _ & _) Hsum].
  destruct (Hsum Hwf _ (or_introl eq_refl)) as [Hseq _].
  destruct (Hsum Hwf _ (or_intror eq_refl)) as [_ Htree].
  split; [reflexivity|]. split; [exact Hwf|].
  split; [exact I|]. split; [exact I|].
  split; [exact Hrows|]. split; [exact Hchunks|].
  split; [exact (Hseq I) | exact (Htree s I)].
Defined.

(** C9 fails as stated: the kernel tells lanes apart; lanes 0 and 1 of a
    block of two do different halves of the work. *)
Lemma kernels_tell_lanes_apart :
  ~ lane_oblivious (DoubleChunks.kernel (num := xrat)) /\
  buf (DoubleChunks.kernel 0 2 (column (arange 4)) (column (replicate 4 Stray)))
    = [Fin 0; Stray; Fin 4; Stray] /\
  buf (DoubleChunks.kernel 1 2 (column (arange 4)) (column (replicate 4 Stray)))
    = [Stray; Fin 2; Stray; Fin 6].
Proof.
  split; [|split; reflexivity].
  intros Hobl.
  specialize (Hobl 0 1 2 (column (arange 4)) (column (replicate 4 Stray))).
  vm_compute in Hobl. discriminate Hobl.
Qed.

Lemma lanes_partition_chunk_witness :
  1 <= 2 /\ 0 < 2 /\ 0 <= 1 < 2 /\
  length (replicate 4 Stray) = length (arange 4) /\
  buf (DoubleChunks.kernel 1 2 (column (arange 4)) (column (replicate 4 Stray)))
    !! 3%nat = Some (f_mul (Fin 3) f_two) /\
  buf (DoubleChunks.kernel 1 2 (column (arange 4)) (column (replicate 4 Stray)))
    !! 2%nat = replicate 4 Stray !! 2%nat /\
  buf (MovingAverage.kernel1 2 1 2 (column (arange 4))
         (column (replicate 4 Stray))) !! 0%nat = replicate 4 Stray !! 0%nat /\
  buf (MovingAverage.kernel2 2 1 2 (column (arange 4))
         (column (replicate 4 Stray))) !! 2%nat = replicate 4 Stray !! 2%nat.
Proof.
  destruct (lanes_partition_chunk (arange 4) (replicate 4 Stray) 2 2 1
              ltac:(lia) ltac:(lia) ltac:(lia) eq_refl)
    as ((_ & _ & Hown & Hother) & (_ & _ & _ & Hother1) & (_ & _ & Hother2)).
  split; [lia|]. split; [lia|]. split; [lia|]. split; [reflexivity|].
  split; [|split; [|split]].
  - apply Hown; [reflexivity|].
    apply pyrange_elem; [lia|]. split; [simpl; lia | reflexivity].
  - apply Hother. intros Hin.
    apply pyrange_elem in Hin as [_ Hmod]; [|lia]. discriminate Hmod.
  - apply Hother1. intros Hin. vm_compute in Hin.
    repeat (apply elem_of_cons in Hin as [Hin|Hin]; [discriminate Hin|]).
    by apply elem_of_nil in Hin.
  - apply Hother2. intros Hin. vm_compute in Hin.
    repeat (apply elem_of_cons in Hin as [Hin|Hin]; [discriminate Hin|]).
    by apply elem_of_nil in Hin.
Defined.

(** Comparison of finite floats is comparison of rationals. *)
Lemma negb_Qle_bool (a b : Q) : negb (Qle_bool a b) = true <-> (b < a)%Q.
Proof.
  rewrite negb_true_iff. split.
  - intros Hf. apply Qnot_le_lt. intros Hle.
    apply Qle_bool_iff in Hle. congruence.
  - intros Hlt. destruct (Qle_bool a b) eqn:E; [|done].
    apply Qle_bool_iff in E. exfalso. by apply (Qlt_not_le b a).
Qed.

(** ** Weighted-Jaccard.ipynb *)
Section JaccardFacts.
Import Jaccard.

Lemma gt_spec (a b : Q) : gt a b = true <-> (b < a)%Q.
Proof. apply negb_Qle_bool. Qed.

Lemma gt_false (a b : Q) : gt a b = false <-> (a <= b)%Q.
Proof.
  unfold gt. rewrite negb_false_iff. apply Qle_bool_iff.
Qed.

Lemma scan_invariant (col : list Q) (m k best : nat) :
  (k + m = length col)%nat -> first_max col k best ->
  exists best',
    for_each_raising (seq k m)
      (fun i bestEdge =>
         a ← series_get col i;
         b ← series_get col bestEdge;
         mret (if gt a b then i else bestEdge)) best = Return best' /\
    first_max col (length col) best'.
Proof.
  revert k best. induction m as [|m IH]; intros k best Hkm Hinv.
  - simpl. exists best. split; [done|]. by replace (length col) with k by lia.
  - destruct Hinv as (Hb & Hbk & Hmax & Hfirst).
    destruct (lookup_lt_is_Some_2 col k ltac:(lia)) as [a Ha].
    destruct (lookup_lt_is_Some_2 col best Hb) as [b Hbv].
    simpl. unfold series_get at 1 2. rewrite Ha, Hbv. simpl.
    destruct (gt a b) eqn:Hgt.
    + apply gt_spec in Hgt. apply IH; [lia|].
      split; [lia|]. split; [lia|]. split.
      * intros j x c Hj Hx Hc. rewrite Ha in Hc. inversion Hc; subst c.
        destruct (decide (j = k)) as [->|Hne].
        -- rewrite Ha in Hx. inversion Hx. apply Qle_refl.
        -- apply Qlt_le_weak, (Qle_lt_trans _ b); [|done].
           apply (Hmax j x b); [lia | done | done].
      * intros j x c Hj Hx Hc. rewrite Ha in Hc. inversion Hc; subst c.
        apply (Qle_lt_trans _ b); [|done].
        apply (Hmax j x b); [lia | done | done].
    + apply gt_false in Hgt. apply IH; [lia|].
      split; [done|]. split; [lia|]. split; [|done].
      intros j x c Hj Hx Hc. rewrite Hbv in Hc. inversion Hc; subst c.
      destruct (decide (j = k)) as [->|Hne].
      * rewrite Ha in Hx. by inversion Hx; subst.
      * apply (Hmax j x b); [lia | done | done].
Qed.

(** C5.  On a non-empty result of the weighted Jaccard call, the scan ends
    with [bestEdge] at the smallest row where [jaccard_coeff] is maximal, and
    no access of the scan or of the [print] leaves the columns; on an empty
    result the access at row 0 does. *)
Theorem best_edge_is_first_maximum (df : scores) :
  well_formed df ->
  ((0 < len df)%nat ->
   exists best s d c,
     best_edge_cell df = Return (best, (s, d, c)) /\
     (best < len df)%nat /\
     source df !! best = Some s /\
     destination df !! best = Some d /\
     jaccard_coeff df !! best = Some c /\
     (forall j x, jaccard_coeff df !! j = Some x -> (x <= c)%Q) /\
     (forall j x, (j < best)%nat -> jaccard_coeff df !! j = Some x ->
                  (x < c)%Q)) /\
  (len df = 0%nat ->
   best_edge_cell df = Raise Library "IndexError" "index out of bounds").
Proof.
  intros [Hs Hd]. split.
  - intros Hpos. unfold len in *.
    destruct (scan_invariant (jaccard_coeff df) (length (jaccard_coeff df))
                0 0 eq_refl) as (best & Hscan & Hb & _ & Hmax & Hfirst).
    { split; [done|]. split; [lia|]. split; intros; lia. }
    destruct (lookup_lt_is_Some_2 (jaccard_coeff df) best Hb) as [c Hc].
    destruct (lookup_lt_is_Some_2 (source df) best ltac:(lia)) as [s Hsv].
    destruct (lookup_lt_is_Some_2 (destination df) best ltac:(lia)) as [d Hdv].
    exists best, s, d, c. split; [|repeat split; try done].
    + unfold best_edge_cell, scan, len. rewrite Hscan. simpl.
      unfold series_get. rewrite Hsv, Hdv, Hc. reflexivity.
    + intros j x Hx. apply (Hmax j x c); [|done..].
      by apply lookup_lt_Some in Hx.
    + intros j x Hj Hx. by apply (Hfirst j x c).
  - intros Hempty. unfold best_edge_cell, scan. rewrite Hempty. simpl.
    unfold series_get.
    rewrite (lookup_ge_None_2 (source df)) by (unfold len in *; lia).
    reflexivity.
Qed.

(** C7.  The renumbering cell adds [src_id = src - 1] and
    [dst_id = dst - 1], computed on [int32] columns, and leaves every other
    column, [src] and [dst] among them, as it was.  On every row whose
    vertex number is above the least [int32] the difference is the integer
    difference. *)
Theorem renumbering_adds_two_columns (gdf : frame) (src dst : list Z) :
  gdf !! "src" = Some src -> gdf !! "dst" = Some dst ->
  exists gdf',
    renumber_cell gdf = Return gdf' /\
    gdf' !! "src_id" = Some (sub_scalar src 1) /\
    gdf' !! "dst_id" = Some (sub_scalar dst 1) /\
    gdf' !! "src" = Some src /\
    gdf' !! "dst" = Some dst /\
    (forall name, name <> "src_id" -> name <> "dst_id" ->
                  gdf' !! name = gdf !! name) /\
    (forall i x, src !! i = Some x -> - 2 ^ 31 < x < 2 ^ 31 ->
                 sub_scalar src 1 !! i = Some (x - 1)) /\
    (forall i x, dst !! i = Some x -> - 2 ^ 31 < x < 2 ^ 31 ->
                 sub_scalar dst 1 !! i = Some (x - 1)).
Proof.
  intros Hsrc Hdst.
  assert (Hwrap : forall (col : list Z) i x,
            col !! i = Some x -> - 2 ^ 31 < x < 2 ^ 31 ->
            sub_scalar col 1 !! i = Some (x - 1)).
  { intros col i x Hx Hr. unfold sub_scalar. rewrite list_lookup_fmap, Hx.
    simpl. f_equal. unfold int32. rewrite Z.mod_small; lia. }
  eexists. split.
  { unfold renumber_cell, getcol. rewrite Hsrc. simpl.
    rewrite lookup_insert_ne by done. rewrite Hdst. reflexivity. }
  split; [by rewrite lookup_insert_ne, lookup_insert_eq|].
  split; [by rewrite lookup_insert_eq|].
  split; [by rewrite !lookup_insert_ne|].
  split; [by rewrite !lookup_insert_ne|].
  split; [intros name H1 H2; by rewrite !lookup_insert_ne|].
  split; apply Hwrap.
Qed.

End JaccardFacts.

Lemma best_edge_is_first_maximum_witness :
  Jaccard.well_formed (Jaccard.Scores [1; 2; 3] [4; 5; 6] [1 # 2; 3 # 4; 6 # 8])
  /\ Jaccard.best_edge_cell
       (Jaccard.Scores [1; 2; 3] [4; 5; 6] [1 # 2; 3 # 4; 6 # 8])
     = Return (1%nat, (2, 5, 3 # 4)).
Proof.
  assert (Hwf : Jaccard.well_formed
            (Jaccard.Scores [1; 2; 3] [4; 5; 6] [1 # 2; 3 # 4; 6 # 8]))
    by (split; reflexivity).
  split; [exact Hwf|].
  destruct (best_edge_is_first_maximum _ Hwf) as [Hfull _].
  destruct (Hfull ltac:(unfold Jaccard.len; simpl; lia))
    as (best & s & d & c & Hcell & _).
  reflexivity.
Defined.

Lemma renumbering_adds_two_columns_witness :
  exists gdf',
    Jaccard.renumber_cell Jaccard.two_edges = Return gdf' /\
    gdf' !! "src_id" = Some [0; 1] /\ gdf' !! "dst_id" = Some [1; 2] /\
    gdf' !! "src" = Some [1; 2] /\ gdf' !! "dst" = Some [2; 3].
Proof.
  destruct (renumbering_adds_two_columns Jaccard.two_edges [1; 2] [2; 3])
    as (gdf' & Hrun & Hs & Hd & Hsrc & Hdst & _);
    [vm_compute; reflexivity | vm_compute; reflexivity |].
  exists gdf'. repeat split; done.
Defined.

(** ** Binary64 and the size of the training set *)
Section Binary64Facts.
Import Binary64.

(** Rounding to 53 bits never adds more than one part in 2^53. *)
Lemma round53_bound (m : Z) :
  0 <= m ->
  let '(q, sh) := round53 m in
  0 <= q /\ 0 <= sh /\ 2 ^ 53 * (q * 2 ^ sh - m) <= m.
Proof.
  intros Hm. unfold round53.
  destruct (Z.leb_spec (Z.log2 m + 1) 53) as [Hbits|Hbits].
  - rewrite Z.pow_0_r. lia.
  - set (sh := Z.log2 m + 1 - 53).
    assert (Hsh : 1 <= sh) by (unfold sh; lia).
    assert (Hpos : 0 < m).
    { destruct (Z.eq_dec m 0) as [->|]; [|lia]. simpl in Hbits. lia. }
    destruct (Z.log2_spec m Hpos) as [Hlow _].
    replace (Z.log2 m) with (sh - 1 + 53) in Hlow by (unfold sh; lia).
    rewrite Z.pow_add_r in Hlow by lia.
    assert (HS : 2 ^ sh = 2 * 2 ^ (sh - 1)).
    { replace sh with (Z.succ (sh - 1)) at 1 by lia.
      apply Z.pow_succ_r. lia. }
    assert (HP : 0 < 2 ^ (sh - 1)) by (apply Z.pow_pos_nonneg; lia).
    pose proof (Z.div_mod m (2 ^ sh) ltac:(lia)) as Hdm.
    pose proof (Z.mod_pos_bound m (2 ^ sh) ltac:(lia)) as Hr.
    assert (Hq : 0 <= m / 2 ^ sh) by (apply Z.div_pos; lia).
    set (q := m / 2 ^ sh) in *. set (r := m mod 2 ^ sh) in *.
    set (P := 2 ^ (sh - 1)) in *.
    assert (Hup : P <= r -> 2 ^ 53 * ((q + 1) * 2 ^ sh - m) <= m).
    { intros Hhalf. rewrite Z.mul_add_distr_r, Z.mul_1_l.
      rewrite (Z.mul_comm q). change (2 ^ 53) with 9007199254740992 in *.
      lia. }
    assert (Hdown : 2 ^ 53 * (q * 2 ^ sh - m) <= m).
    { rewrite (Z.mul_comm q). change (2 ^ 53) with 9007199254740992 in *.
      lia. }
    destruct (Z.ltb_spec P r) as [Hlt|Hge]; simpl.
    + split; [lia|]. split; [lia|]. apply Hup. lia.
    + destruct (Z.eqb_spec r P) as [Heq|Hne]; simpl.
      * destruct (Z.odd q); (split; [lia|]); (split; [lia|]);
          [apply Hup; lia | done].
      * split; [lia|]. split; [lia | done].
Qed.

(** [int(n * 0.8)] lies between 0 and [n]. *)
Lemma train_rows_bound (n : Z) :
  0 <= n -> 0 <= CoordinateDescent.train_rows_of n <= n.
Proof.
  intros Hn. destruct (Z.eq_dec n 0) as [->|Hne]; [by vm_compute|].
  unfold CoordinateDescent.train_rows_of, of_Z, mul, c0_8.
  rewrite (Z.abs_eq n) by lia. rewrite (Z.sgn_pos n) by lia.
  pose proof (round53_bound n Hn) as H1.
  destruct (round53 n) as [q1 sh1]. destruct H1 as (Hq1 & Hsh1 & Hb1).
  cbn [mant expo]. rewrite Z.mul_1_l.
  set (M := 3602879701896397) in *.
  assert (Hp : 0 <= q1 * M) by (unfold M; lia).
  rewrite (Z.abs_eq (q1 * M)) by done.
  pose proof (round53_bound (q1 * M) Hp) as H2.
  destruct (round53 (q1 * M)) as [q2 sh2]. destruct H2 as (Hq2 & Hsh2 & Hb2).
  unfold to_int. cbn [mant expo].
  set (mnt := Z.sgn (q1 * M) * q2).
  assert (Hmnt : 0 <= mnt <= q2).
  { unfold mnt. destruct (Z.eq_dec (q1 * M) 0) as [->|];
      [simpl; lia | rewrite Z.sgn_pos by lia; lia]. }
  set (S1 := 2 ^ sh1) in *. set (S2 := 2 ^ sh2) in *.
  assert (HS1 : 0 < S1) by (apply Z.pow_pos_nonneg; lia).
  assert (HS2 : 0 < S2) by (apply Z.pow_pos_nonneg; lia).
  (* the value before truncation, scaled by 2^52 *)
  assert (Hscaled : forall r,
            0 <= r -> r * 2 ^ 52 <= mnt * (S2 * S1) -> 0 <= r <= n).
  { intros r Hr0 Hr. split; [done|].
    assert (Ha : 2 ^ 53 * (q2 * S2 * S1) <= (2 ^ 53 + 1) * M * (q1 * S1)).
    { replace (2 ^ 53 * (q2 * S2 * S1)) with ((2 ^ 53 * (q2 * S2)) * S1) by ring.
      replace ((2 ^ 53 + 1) * M * (q1 * S1))
        with (((2 ^ 53 + 1) * (q1 * M)) * S1) by ring.
      apply Z.mul_le_mono_nonneg_r; lia. }
    assert (Hb : 2 ^ 53 * (q1 * S1) <= (2 ^ 53 + 1) * n) by lia.
    assert (Hc : mnt * (S2 * S1) <= q2 * S2 * S1).
    { rewrite <- Z.mul_assoc. apply Z.mul_le_mono_nonneg_r; lia. }
    change (2 ^ 53) with 9007199254740992 in *.
    change (2 ^ 52) with 4503599627370496 in *.
    unfold M in *. lia. }
  destruct (Z.leb_spec 0 (sh1 + -52 + sh2)) as [He|He].
  - apply Hscaled; [apply Z.mul_nonneg_nonneg; [lia | apply Z.pow_nonneg; lia]|].
    rewrite <- Z.mul_assoc, <- Z.pow_add_r by lia.
    replace (sh1 + -52 + sh2 + 52) with (sh2 + sh1) by lia.
    rewrite Z.pow_add_r by lia. reflexivity.
  - set (k := - (sh1 + -52 + sh2)).
    assert (Hk : 0 < 2 ^ k) by (apply Z.pow_pos_nonneg; unfold k; lia).
    rewrite Z.quot_div_nonneg by lia.
    apply Hscaled; [apply Z.div_pos; lia|].
    replace 52 with (k + (sh2 + sh1)) by (unfold k; lia).
    rewrite Z.pow_add_r by (unfold k; lia).
    rewrite (Z.pow_add_r 2 sh2 sh1) by lia. fold S1 S2.
    pose proof (Z.mul_div_le mnt (2 ^ k) Hk) as Hfloor.
    rewrite Z.mul_assoc. apply Z.mul_le_mono_nonneg_r; lia.
Qed.

End Binary64Facts.

(** ** Arrays and frames *)
Section FrameFacts.
Context {val : Type}.
Implicit Types (X : matrix val) (l : list (list val)).

Lemma py_slice_take {A} (l : list A) (t : Z) :
  0 <= t -> py_slice l 0 t = take (Z.to_nat t) l.
Proof.
  intros Ht. unfold py_slice.
  replace (py_clip l 0) with 0%nat by (unfold py_clip; simpl; lia).
  rewrite drop_0, Nat.sub_0_r. unfold py_clip.
  destruct (Z.ltb_spec t 0); [lia|].
  destruct (Z.le_ge_cases t (Z.of_nat (length l))).
  - by rewrite Z.min_l by lia.
  - rewrite Z.min_r by lia. rewrite Nat2Z.id.
    rewrite !take_ge by lia. reflexivity.
Qed.

Lemma py_slice_from_drop {A} (l : list A) (t : Z) :
  0 <= t -> py_slice_from l t = drop (Z.to_nat t) l.
Proof.
  intros Ht. unfold py_slice_from, py_clip.
  destruct (Z.ltb_spec t 0); [lia|].
  destruct (Z.le_ge_cases t (Z.of_nat (length l))).
  - by rewrite Z.min_l by lia.
  - rewrite Z.min_r by lia. rewrite Nat2Z.id.
    rewrite !drop_ge by lia. reflexivity.
Qed.


Lemma column_of_length X (i : nat) :
  rectangular X -> (i < width X)%nat ->
  length (column_of X i) = length (rows X).
Proof.
  unfold rectangular, column_of. destruct X as [W l]. simpl.
  intros Hrect Hi. induction Hrect as [|r l Hr _ IH]; [done|].
  simpl. destruct (lookup_lt_is_Some_2 r i ltac:(lia)) as [x ->].
  simpl. f_equal. exact IH.
Qed.







Lemma frame_of_columns X :
  rectangular X ->
  Forall (fun c => length c.2 = length (rows X)) (frame_of X).
Proof.
  intros Hrect. unfold frame_of. apply Forall_fmap, Forall_forall.
  intros i Hi. simpl. apply column_of_length; [done|].
  apply elem_of_seq in Hi. lia.
Qed.

Lemma py_index_in_range {A} (l : list A) (i : Z) :
  0 <= i < Z.of_nat (length l) -> exists x, py_index l i = Some x /\ x ∈ l.
Proof.
  intros Hi. unfold py_index.
  destruct (Z.leb_spec 0 i), (Z.ltb_spec i (Z.of_nat (length l))); try lia.
  simpl. destruct (lookup_lt_is_Some_2 l (Z.to_nat i) ltac:(lia)) as [x Hx].
  exists x. split; [done|]. by apply list_elem_of_lookup_2 in Hx.
Qed.

(** Picking rows by in-range numbers succeeds and yields as many rows as
    numbers, each of them a row of the array. *)
Lemma take_rows_in_range X (idx : list Z) :
  Forall (fun i => 0 <= i < Z.of_nat (length (rows X))) idx ->
  exists X', take_rows X idx = Some X' /\ width X' = width X /\
             length (rows X') = length idx /\
             Forall (fun r => r ∈ rows X) (rows X').
Proof.
  intros Hidx. unfold take_rows.
  assert (Hsome : exists l, mapM (py_index (rows X)) idx = Some l /\
                    length l = length idx /\ Forall (fun r => r ∈ rows X) l).
  { induction Hidx as [|i idx Hi _ IH]; [by exists []|].
    destruct IH as (l & Hl & Hlen & Hall).
    destruct (py_index_in_range (rows X) i Hi) as (r & Hr & Hin).
    exists (r :: l). simpl. rewrite Hr, Hl. simpl.
    split; [done|]. split; [by rewrite Hlen | by constructor]. }
  destruct Hsome as (l & -> & Hlen & Hall).
  exists (Matrix (width X) l). by simpl.
Qed.



Lemma py_slice_length {A} (l : list A) (lo hi : Z) :
  length (py_slice l lo hi) = (py_clip l hi - py_clip l lo)%nat.
Proof.
  unfold py_slice. rewrite length_take, length_drop.
  assert (py_clip l hi <= length l)%nat
    by (unfold py_clip; destruct (Z.ltb_spec hi 0); lia).
  lia.
Qed.

Lemma column_slice_rectangular X (lo hi : Z) :
  rectangular X ->
  rectangular (column_slice X lo hi) /\
  length (rows (column_slice X lo hi)) = length (rows X).
Proof.
  unfold rectangular, column_slice. simpl. intros Hrect.
  split; [|by rewrite length_map].
  apply Forall_fmap. eapply Forall_impl; [exact Hrect|].
  intros r Hr. cbv beta in Hr. simpl. rewrite !py_slice_length.
  unfold py_clip. by rewrite length_replicate, Hr.
Qed.



End FrameFacts.

(** ** The loaders *)

Ltac run_io :=
  unfold PCA.load_data, CoordinateDescent.load_data, Jaccard.read_cell,
    mbind, io_mbind, io_bind, os_path_exists, gzip_open, np_load,
    cudf_read_csv, print, emit, np_random_randint, sk_make_regression,
    or_index_error, mret, io_mret, io_ret, io_raise; simpl.

Section LoaderFacts.
Context {val : Type}.
Implicit Types (w : world val) (X : matrix val).

Lemma pca_load_data_missing w (nrows ncols : Z) (cached : string) :
  files w !! cached = None ->
  PCA.load_data nrows ncols cached w =
  ([Stat cached false],
   Raise Own "FileNotFoundError"
     "Please download the required dataset or check the path").
Proof. intros Hf. run_io. by rewrite Hf. Qed.

Lemma pca_load_data_present w (nrows ncols : Z) (cached : string) :
  is_Some (files w !! cached) ->
  raises_own (PCA.load_data nrows ncols cached w).2 = false.
Proof.
  intros [f Hf]. run_io. rewrite Hf. simpl.
  repeat (case_match; simplify_eq/=); done.
Qed.

Lemma cd_load_data_never_own w (nrows ncols : Z) (cached : string) :
  raises_own (CoordinateDescent.load_data nrows ncols cached w).2 = false.
Proof. run_io. repeat (case_match; simplify_eq/=); done. Qed.

Lemma cd_load_data_random w (nrows ncols : Z) (cached : string) :
  files w !! cached = None -> 0 <= nrows -> 0 <= ncols ->
  CoordinateDescent.load_data nrows ncols cached w =
  ([Stat cached false; Printed "use random data"],
   Return
     (let t := CoordinateDescent.train_rows_of nrows in
      let X := (make_regression w nrows ncols).1 in
      let y := (make_regression w nrows ncols).2 in
      (frame_of (row_slice X 0 t), frame_of (row_slice_from X t),
       [("fea0", py_slice y 0 t)], [("fea0", py_slice_from y t)]))).
Proof.
  intros Hf Hn Hc. run_io. rewrite Hf. simpl.
  destruct (Z.leb_spec 0 nrows), (Z.leb_spec 0 ncols); try lia. simpl.
  by destruct (make_regression w nrows ncols).
Qed.

Lemma cd_load_data_mortgage w (nrows ncols : Z) (cached : string)
    (X0 X' y' : matrix val) :
  files w !! cached = Some (NpyGzFile X0) ->
  0 <= nrows -> (2 <= length (rows X0))%nat ->
  let Xs := select_columns X0 (CoordinateDescent.all_but_4 (width X0)) in
  let idx := draws w 0 (Z.of_nat (length (rows X0)) - 1) nrows in
  take_rows Xs idx = Some X' ->
  take_rows (column_slice Xs 4 5) idx = Some y' ->
  (CoordinateDescent.load_data nrows ncols cached w).2 =
  Return
    (let t := CoordinateDescent.train_rows_of nrows in
     let X := column_slice X' 0 ncols in
     (frame_of (row_slice X 0 t), frame_of (row_slice_from X t),
      frame_of (row_slice y' 0 t), frame_of (row_slice_from y' t))).
Proof.
  intros Hf Hn Hrows Xs idx HX Hy.
  run_io. repeat (rewrite Hf; simpl). fold Xs.
  rewrite !length_map. revert HX Hy. unfold idx, draws. clear idx.
  destruct (Z.eqb_spec nrows 0) as [H0|H0]; simpl; intros HX Hy.
  - unfold take_rows in HX, Hy. simpl in HX, Hy.
    injection HX as <-. injection Hy as <-. reflexivity.
  - destruct (Z.ltb_spec 0 (Z.of_nat (length (rows X0)) - 1)); [|lia].
    destruct (Z.leb_spec 0 nrows); [|lia]. simpl.
    rewrite HX. simpl. rewrite Hy. reflexivity.
Qed.

Lemma draws_sound w (low high n : Z) :
  CoordinateDescent.randint_sound w -> low < high -> 0 <= n ->
  draws w low high n = randint w low high n /\
  length (draws w low high n) = Z.to_nat n /\
  Forall (fun i => low <= i < high) (draws w low high n).
Proof.
  intros Hrand Hlt Hn. destruct (Hrand low high n Hlt Hn) as [Hlen Hall].
  unfold draws. destruct (Z.eqb_spec n 0) as [->|Hne]; [|done].
  destruct (randint w low high 0) as [|i l]; [done | simpl in Hlen; lia].
Qed.

Lemma take_rows_Some X (idx : list Z) X' :
  take_rows X idx = Some X' ->
  width X' = width X /\
  Forall2 (fun i r => py_index (rows X) i = Some r) idx (rows X').
Proof.
  unfold take_rows. destruct (mapM _ idx) as [l|] eqn:E; [|done].
  simpl. intros [= <-]. split; [done|]. by apply mapM_Some.
Qed.

Lemma py_index_nonneg {A} (l : list A) (i : Z) (x : A) :
  0 <= i -> py_index l i = Some x -> l !! Z.to_nat i = Some x.
Proof.
  intros Hi. unfold py_index.
  destruct (Z.leb_spec 0 i); [|lia].
  destruct (Z.ltb_spec i (Z.of_nat (length l))); simpl; [done|].
  destruct (Z.leb_spec (- Z.of_nat (length l)) i), (Z.ltb_spec i 0);
    simpl; try done; lia.
Qed.

(** The rows that [X[randint(0, X.shape[0] - 1, nrows)]] picks. *)
Lemma drawn_rows w X (nrows : Z) :
  CoordinateDescent.randint_sound w ->
  (2 <= length (rows X))%nat -> 0 <= nrows ->
  let idx := randint w 0 (Z.of_nat (length (rows X)) - 1) nrows in
  exists picked,
    take_rows X idx = Some (Matrix (width X) picked) /\
    length picked = Z.to_nat nrows /\
    Forall2 (fun i r => 0 <= i < Z.of_nat (length (rows X)) - 1 /\
                        rows X !! Z.to_nat i = Some r) idx picked.
Proof.
  intros Hrand Hrows Hn idx.
  destruct (Hrand 0 (Z.of_nat (length (rows X)) - 1) nrows ltac:(lia) Hn)
    as [Hlen Hidx]. fold idx in Hlen, Hidx.
  destruct (take_rows_in_range X idx) as (X' & HX' & Hw' & Hlen' & _).
  { eapply Forall_impl; [exact Hidx|]. intros i Hi. cbv beta in Hi. lia. }
  destruct (take_rows_Some X idx X' HX') as [_ Hall].
  exists (rows X'). split; [|split].
  - rewrite HX'. f_equal. destruct X' as [W' l']. simpl in *. by rewrite Hw'.
  - lia.
  - clear HX' Hlen Hlen'. induction Hall as [|i r idx' l' Hir _ IH].
    + constructor.
    + apply Forall_cons in Hidx as [Hi Hidx]. constructor; [|by apply IH].
      split; [lia|]. apply py_index_nonneg; [lia | done].
Qed.

Lemma py_index_fmap {A B} (f : A -> B) (l : list A) (i : Z) :
  py_index (map f l) i = f <$> py_index l i.
Proof.
  unfold py_index. rewrite length_map.
  repeat case_match; try done; apply list_lookup_fmap.
Qed.

(** Indexing rows commutes with slicing columns. *)
Lemma take_rows_column_slice X (idx : list Z) X' (lo hi : Z) :
  take_rows X idx = Some X' ->
  take_rows (column_slice X lo hi) idx = Some (column_slice X' lo hi).
Proof.
  intros HX. destruct (take_rows_Some X idx X' HX) as [Hw Hall].
  unfold take_rows, column_slice. cbn [rows width].
  assert (HM : mapM (py_index (map (fun r => py_slice r lo hi) (rows X))) idx
               = Some (map (fun r => py_slice r lo hi) (rows X'))).
  { apply mapM_Some. apply Forall2_fmap_r.
    eapply Forall2_impl; [exact Hall|]. intros i r Hir. cbv beta in *.
    by rewrite py_index_fmap, Hir. }
  rewrite HM. simpl. by rewrite Hw.
Qed.


End LoaderFacts.

Section LoaderClaims.
Context {val : Type}.
Implicit Types (w : world val).


(** C3, as amended.  The loaders do handle a missing dataset themselves:
    the PCA notebook's [load_data] raises [FileNotFoundError] of its own
    exactly when [os.path.exists] reports the cached file missing, and the
    coordinate-descent notebook's [load_data] never raises an exception of
    its own but substitutes [make_regression] data for the missing file. *)
Theorem loaders_handle_missing_dataset w (nrows ncols : Z) (cached : string) :
  (files w !! cached = None ->
   PCA.load_data nrows ncols cached w =
   ([Stat cached false],
    Raise Own "FileNotFoundError"
      "Please download the required dataset or check the path")) /\
  (is_Some (files w !! cached) ->
   raises_own (PCA.load_data nrows ncols cached w).2 = false) /\
  raises_own (CoordinateDescent.load_data nrows ncols cached w).2 = false /\
  (files w !! cached = None -> 0 <= nrows -> 0 <= ncols ->
   CoordinateDescent.load_data nrows ncols cached w =
   ([Stat cached false; Printed "use random data"],
    Return
      (let t := CoordinateDescent.train_rows_of nrows in
       let X := (make_regression w nrows ncols).1 in
       let y := (make_regression w nrows ncols).2 in
       (frame_of (row_slice X 0 t), frame_of (row_slice_from X t),
        [("fea0", py_slice y 0 t)], [("fea0", py_slice_from y t)])))).
Proof.
  split; [apply pca_load_data_missing|].
  split; [apply pca_load_data_present|].
  split; [apply cd_load_data_never_own | apply cd_load_data_random].
Qed.

(** C8.  Whatever the files on disk and the arguments, the three cells that
    touch files only query and read: every open is for reading, what is
    parsed is a flat CSV or a NumPy-serialized array, and a gzip-compressed
    path is opened only after [os.path.exists] has reported it present. *)
Theorem file_operations_read_only w (nrows ncols : Z) (cached : string) :
  Forall (fun t => forallb reads_only t = true /\ gzip_guarded [] t = true)
    [ (Jaccard.read_cell w).1;
      (PCA.load_data nrows ncols cached w).1;
      (CoordinateDescent.load_data nrows ncols cached w).1 ].
Proof.
  repeat constructor; run_io;
    repeat (case_match; simplify_eq/=);
    rewrite ?bool_decide_eq_true_2 by (apply elem_of_cons; by left);
    done.
Qed.

End LoaderClaims.

(** The checks on traces do reject a write and an unguarded open. *)
Lemma trace_checks_reject :
  reads_only (Open "out.csv" WriteMode Plain) = false /\
  reads_only (Parse "data.bin" OtherFormat) = false /\
  gzip_guarded [] [Open "data/mortgage.npy.gz" ReadMode Gzip] = false /\
  gzip_guarded [] [Stat "data/mortgage.npy.gz" false;
                   Open "data/mortgage.npy.gz" ReadMode Gzip] = false.
Proof. repeat split; reflexivity. Qed.


Lemma bare_world_randint : CoordinateDescent.randint_sound bare_world.
Proof.
  intros low high n Hlt Hn. simpl. split; [by rewrite length_replicate|].
  apply Forall_replicate. lia.
Qed.

Lemma mortgage_world_randint : CoordinateDescent.randint_sound mortgage_world.
Proof.
  intros low high n Hlt Hn. simpl. split; [by rewrite length_replicate|].
  apply Forall_replicate. lia.
Qed.

(** C3 fails as stated: without the cached file the PCA loader raises an
    exception of its own, and the coordinate-descent loader returns
    substitute data. *)
Lemma loaders_raise_and_substitute :
  files bare_world !! PCA.cached_default = None /\
  (PCA.load_data 5 2 PCA.cached_default bare_world).2 =
    Raise Own "FileNotFoundError"
      "Please download the required dataset or check the path" /\
  ~ (forall (w : world Z) nrows ncols cached,
       raises_own (PCA.load_data nrows ncols cached w).2 = false) /\
  (CoordinateDescent.load_data 5 2 CoordinateDescent.cached_default
     bare_world).2 =
    Return ([("fea0", [0; 1; 2; 3]); ("fea1", [0; 1; 2; 3])],
            [("fea0", [4]); ("fea1", [4])],
            [("fea0", [0; 1; 2; 3])], [("fea0", [4])]).
Proof.
  split; [reflexivity|]. split; [reflexivity|]. split; [|by vm_compute].
  intros Hnever.
  specialize (Hnever bare_world 5 2 PCA.cached_default). discriminate Hnever.
Qed.

Lemma loaders_handle_missing_dataset_witness :
  files bare_world !! PCA.cached_default = None /\
  PCA.load_data 5 2 PCA.cached_default bare_world =
    ([Stat PCA.cached_default false],
     Raise Own "FileNotFoundError"
       "Please download the required dataset or check the path") /\
  is_Some (files mortgage_world !! PCA.cached_default) /\
  raises_own (PCA.load_data 5 2 PCA.cached_default mortgage_world).2 = false.
Proof.
  destruct (loaders_handle_missing_dataset bare_world 5 2 PCA.cached_default)
    as (Hmissing & _).
  destruct (loaders_handle_missing_dataset mortgage_world 5 2
              PCA.cached_default) as (_ & Hpresent & _).
  assert (Hsome : is_Some (files mortgage_world !! PCA.cached_default))
    by (vm_compute; eauto).
  split; [reflexivity|]. split; [apply Hmissing; reflexivity|].
  split; [exact Hsome | apply Hpresent, Hsome].
Defined.



(** ** The PCA notebook: [array_equal] *)
Section ArrayEqualFacts.
Import PCA.

Lemma fresh_not_allocated (h : heap) (l : nat) (o : pyobj) :
  h !! l = Some o -> fresh (dom h) <> l.
Proof.
  intros Hl Heq. apply (is_fresh (dom h)). rewrite Heq.
  apply elem_of_dom. eauto.
Qed.

Lemma alloc_spec (h : heap) (o : pyobj) :
  exists x' h', alloc o h = (Return x', h') /\ h' !! x' = Some o /\
    (forall l v, h !! l = Some v -> h' !! l = Some v).
Proof.
  exists (fresh (dom h)), (<[fresh (dom h) := o]> h). split; [done|].
  split; [apply lookup_insert_eq|].
  intros l v Hl. rewrite lookup_insert_ne; [done|].
  by eapply fresh_not_allocated.
Qed.

Lemma to_nparray_spec (h : heap) (x : nat) (o : pyobj) :
  h !! x = Some o ->
  exists x' h', to_nparray x h = (Return x', h') /\
    h' !! x' = Some (default o (converted o)) /\
    (forall l v, h !! l = Some v -> h' !! l = Some v).
Proof.
  intros Hx. unfold to_nparray, mbind, py_mbind, deref. rewrite Hx.
  destruct (converted o) as [o'|]; simpl.
  - apply alloc_spec.
  - exists x, h. by repeat split.
Qed.

Lemma np_abs_spec (h : heap) (x : nat) (o : pyobj) :
  h !! x = Some o ->
  match abs_of o with
  | Some o' =>
      exists x' h', np_abs x h = (Return x', h') /\ h' !! x' = Some o' /\
        (forall l v, h !! l = Some v -> h' !! l = Some v)
  | None => exists c msg, np_abs x h = (Raise Library c msg, h)
  end.
Proof.
  intros Hx. unfold np_abs, mbind, py_mbind, deref. rewrite Hx.
  destruct (abs_of o) as [o'|]; simpl; [apply alloc_spec | by eexists _, _].
Qed.

Lemma mean_squared_error_spec metric (h : heap) (a b : nat) (oa ob : pyobj) :
  h !! a = Some oa -> h !! b = Some ob ->
  match metric oa ob with
  | Some e => mean_squared_error metric a b h = (Return e, h)
  | None => exists c msg, mean_squared_error metric a b h = (Raise Library c msg, h)
  end.
Proof.
  intros Ha Hb. unfold mean_squared_error, mbind, py_mbind, deref.
  rewrite Ha, Hb. destruct (metric oa ob); [done | by eexists _, _].
Qed.

Lemma py_bind_return {A B} (m : py A) (k : A -> py B) (h h' : heap) (a : A) :
  m h = (Return a, h') -> (m ≫= k) h = k a h'.
Proof. intros E. unfold mbind, py_mbind. by rewrite E. Qed.

Lemma py_bind_raise {A B} (m : py A) (k : A -> py B) (h h' : heap) who c msg :
  m h = (Raise who c msg, h') -> (m ≫= k) h = (Raise who c msg, h').
Proof. intros E. unfold mbind, py_mbind. by rewrite E. Qed.

(** The comparison proper, once both arguments are arrays on the heap. *)
Lemma compare_spec metric (h : heap) (a b : nat) (xa xb : pyobj)
    (threshold : Q) :
  h !! a = Some xa -> h !! b = Some xb ->
  exists res,
    (error ← mean_squared_error metric a b; mret (lt error threshold)) h = (res, h) /\
    (res = Return true <->
     exists e, metric xa xb = Some e /\ (e < threshold)%Q).
Proof.
  intros Ha Hb. pose proof (mean_squared_error_spec metric h a b xa xb Ha Hb) as Hm.
  destruct (metric xa xb) as [e|].
  - exists (Return (lt e threshold)).
    split; [by rewrite (py_bind_return _ _ _ _ _ Hm)|]. split.
    + intros Hres. exists e. split; [done|].
      apply negb_Qle_bool. by inversion Hres.
    + intros (e' & He' & Hlt). inversion He'; subst e'.
      f_equal. by apply negb_Qle_bool.
  - destruct Hm as (c & msg & Hm). exists (Raise Library c msg).
    split; [by rewrite (py_bind_raise _ _ _ _ _ _ _ Hm)|].
    split; [done | by intros (e & ? & _)].
Qed.

End ArrayEqualFacts.

(** C4, as amended.  [array_equal(a, b, threshold, with_sign)] returns
    [True] exactly when the number that scikit-learn's [mean_squared_error]
    returns for [to_nparray(a)] and [to_nparray(b)], both in absolute value
    if [with_sign] is [False], is strictly below [threshold]: the error as
    the library computes it in binary64, which rounding can leave at or
    above a threshold that the exact mean squared error is below.  Every
    object that was on the heap before the call, [a] and [b] among them, is
    still there unchanged. *)
Theorem array_equal_is_mse_below_threshold
    (metric : PCA.pyobj -> PCA.pyobj -> option Q)
    (h h' : PCA.heap) (a b : nat) (oa ob : PCA.pyobj)
    (threshold : Q) (with_sign : bool) (res : outcome bool) :
  h !! a = Some oa -> h !! b = Some ob ->
  PCA.array_equal metric a b threshold with_sign h = (res, h') ->
  (res = Return true <->
   exists xa xb e,
     PCA.compared with_sign oa = Some xa /\
     PCA.compared with_sign ob = Some xb /\
     metric xa xb = Some e /\ (e < threshold)%Q) /\
  (forall l o, h !! l = Some o -> h' !! l = Some o).
Proof.
  intros Ha Hb. unfold PCA.array_equal.
  destruct (to_nparray_spec h a oa Ha) as (a1 & h1 & E1 & Ha1 & P1).
  destruct (to_nparray_spec h1 b ob (P1 _ _ Hb)) as (b1 & h2 & E2 & Hb1 & P2).
  rewrite (py_bind_return _ _ _ _ _ E1), (py_bind_return _ _ _ _ _ E2).
  set (xa := default oa (PCA.converted oa)) in *.
  set (xb := default ob (PCA.converted ob)) in *.
  unfold PCA.compared. fold xa xb.
  destruct with_sign; simpl.
  - rewrite (py_bind_return _ _ h2 h2 (a1, b1)) by done.
    destruct (compare_spec metric h2 a1 b1 xa xb threshold (P2 _ _ Ha1) Hb1)
      as (r & Hrun & Hiff).
    rewrite Hrun. intros Heq. inversion Heq; subst. split; [|by auto].
    rewrite Hiff. split.
    + intros (e & He & Hlt). by exists xa, xb, e.
    + intros (xa' & xb' & e & Hxa & Hxb & He & Hlt).
      inversion Hxa; inversion Hxb; subst. by exists e.
  - pose proof (np_abs_spec h2 a1 xa (P2 _ _ Ha1)) as Habs1.
    destruct (PCA.abs_of xa) as [xa'|].
    + destruct Habs1 as (a2 & h3 & E3 & Ha2 & P3).
      pose proof (np_abs_spec h3 b1 xb (P3 _ _ Hb1)) as Habs2.
      destruct (PCA.abs_of xb) as [xb'|].
      * destruct Habs2 as (b2 & h4 & E4 & Hb2 & P4).
        rewrite (py_bind_return _ _ h2 h4 (a2, b2)).
        2:{ by rewrite (py_bind_return _ _ _ _ _ E3),
                       (py_bind_return _ _ _ _ _ E4). }
        destruct (compare_spec metric h4 a2 b2 xa' xb' threshold (P4 _ _ Ha2) Hb2)
          as (r & Hrun & Hiff).
        rewrite Hrun. intros Heq. inversion Heq; subst. split; [|by auto].
        rewrite Hiff. split.
        -- intros (e & He & Hlt). by exists xa', xb', e.
        -- intros (ya & yb & e & Hya & Hyb & He & Hlt).
           inversion Hya; inversion Hyb; subst. by exists e.
      * destruct Habs2 as (c & msg & E4).
        rewrite (py_bind_raise _ _ h2 h3 Library c msg).
        2:{ by rewrite (py_bind_return _ _ _ _ _ E3),
                       (py_bind_raise _ _ _ _ _ _ _ E4). }
        intros Heq. inversion Heq; subst. split; [|by auto].
        split; [done | by intros (? & ? & ? & _ & ? & _)].
    + destruct Habs1 as (c & msg & E3).
      rewrite (py_bind_raise _ _ h2 h2 Library c msg).
      2:{ by rewrite (py_bind_raise _ _ _ _ _ _ _ E3). }
      intros Heq. inversion Heq; subst. split; [|by auto].
      split; [done | by intros (? & ? & ? & ? & _)].
Qed.

Lemma array_equal_is_mse_below_threshold_witness :
  let r := PCA.array_equal PCA.mse_of 0 1 PCA.threshold_default false
             PCA.sample_heap in
  r.1 = Return true /\
  r.2 !! 0%nat = Some (PCA.PyList [1 # 1; -2 # 1]) /\
  r.2 !! 1%nat = Some (PCA.NpNdarray (PCA.Tensor [2%nat] [1 # 1; 2 # 1])).
Proof.
  intros r.
  assert (H0 : PCA.sample_heap !! 0%nat = Some (PCA.PyList [1 # 1; -2 # 1]))
    by (vm_compute; reflexivity).
  assert (H1 : PCA.sample_heap !! 1%nat =
               Some (PCA.NpNdarray (PCA.Tensor [2%nat] [1 # 1; 2 # 1])))
    by (vm_compute; reflexivity).
  destruct (array_equal_is_mse_below_threshold PCA.mse_of PCA.sample_heap r.2
              0 1 _ _ PCA.threshold_default false r.1 H0 H1
              (surjective_pairing r))
    as [Hiff Hkept].
  split; [|split; apply Hkept; assumption].
  apply Hiff. eexists _, _, _.
  split; [reflexivity|]. split; [reflexivity|].
  split; [vm_compute; reflexivity | reflexivity].
Defined.

(** * Further properties of the notebooks' code *)

(** ** The moving-average kernels, launch by launch *)
Section KernelsFurther.
Context {num : Type} `{Float64 num}.
Import MovingAverage.

(** X1.  [kernel1] alone: after the first launch the first [w - 1] rows of every
    chunk hold infinity, every other row the rolling mean, whatever the
    output column held before. *)
Theorem first_launch_restarts_at_chunks (in1 out : list num) (w T tpb : Z)
    (g : nat) :
  length out = length in1 -> 1 <= w -> w - 1 <= T -> 0 < T -> 0 < tpb ->
  (g < length in1)%nat ->
  apply_chunks (kernel1 w)
    (pyrange 0 (Z.of_nat (length in1)) T ++ [Z.of_nat (length in1)])
    tpb in1 out !! g =
  Some (if Z.of_nat g mod T <? w - 1 then f_inf
        else rolling_mean w in1 (Z.of_nat g)).
Proof.
  intros Hlen Hw HwT HT Htpb Hg. rewrite first_launch by done.
  rewrite list_lookup_fmap, lookup_seq_lt by done. reflexivity.
Qed.

(** A cell that a turn of [kernel2] paints is at row [w - 1] or later. *)
Lemma second_launch_cells_late (in1 : list num) (w T tpb : Z) (g : nat) :
  1 <= w -> 0 < T -> 0 < tpb ->
  (exists b,
     b ∈ chunk_bounds (Z.of_nat (length in1))
           ([0] ++ pyrange w (Z.of_nat (length in1)) T
                ++ [Z.of_nat (length in1)]) /\
     exists t, t ∈ pyrange 0 tpb 1 /\
       0 <= b.2 - b.1 - w + t - w + 1 /\
       exists i, i ∈ pyrange (b.2 - b.1 - w + t) (b.2 - b.1) tpb /\
                 b.1 + i = Z.of_nat g) ->
  w - 1 <= Z.of_nat g.
Proof.
  intros Hw HT Htpb ([lo hi] & Hb & t & Ht & Hguard & j & Hj & Hij).
  cbn [fst snd] in *.
  apply pyrange_elem in Hj; [|lia]. apply pyrange_elem in Ht; [|lia].
  assert (0 <= lo); [|lia].
  cbn [app chunk_bounds] in Hb.
  apply elem_of_cons in Hb as [Hb | Hb]; [inversion Hb; lia|].
  rewrite chunk_bounds_app_nrows, elem_of_app in Hb.
  destruct Hb as [Hb | Hb].
  - apply chunk_bounds_range_elem in Hb as (k & Hk & -> & _); [nia | lia].
  - apply list_elem_of_singleton in Hb. inversion Hb; lia.
Qed.

(** X2.  [kernel2] alone, for any window, chunk size and block width: the second
    launch leaves every row either as it was or at its rolling mean, and it
    leaves the rows before [w - 1] as they were. *)
Theorem second_launch_writes_means_only (in1 out : list num) (w T tpb : Z) :
  length out = length in1 -> 1 <= w -> 0 < T -> 0 < tpb ->
  let out' :=
    apply_chunks (kernel2 w)
      ([0] ++ pyrange w (Z.of_nat (length in1)) T ++ [Z.of_nat (length in1)])
      tpb in1 out in
  length out' = length in1 /\
  forall g, (g < length in1)%nat ->
    out' !! g = out !! g \/
    (w - 1 <= Z.of_nat g /\
     out' !! g = Some (rolling_mean w in1 (Z.of_nat g))).
Proof.
  intros Hlen Hw HT Htpb out'.
  destruct (second_launch_paints in1 w T tpb Hw HT Htpb out Hlen)
    as [Hl Hpaint].
  split; [exact Hl|]. intros g Hg.
  destruct (Hpaint g Hg) as [_ [Hsame | [Hw2 Hmean]]]; [by left | right].
  split; [exact (second_launch_cells_late in1 w T tpb g Hw HT Htpb Hw2) | exact Hmean].
Qed.

(** X3.  The bound [2 * w - 1 <= trunk_size] is sharp: with [w <= T < 2 * w - 1]
    and more than one chunk, row [T], the first row of the second chunk, has
    a full window but is left at infinity by the two launches, whatever the
    input and the block width. *)
Theorem short_chunks_leave_infinity (in1 out : list num) (w T tpb : Z) :
  length out = length in1 -> 2 <= w -> w <= T -> T < 2 * w - 1 ->
  0 < tpb -> T < Z.of_nat (length in1) ->
  MovingAverage.run w T tpb in1 out !! Z.to_nat T = Some f_inf.
Proof.
  intros Hlen Hw HwT HT Htpb Hn. unfold MovingAverage.run. cbv zeta.
  rewrite first_launch by (done || lia).
  set (out1 := map (after_kernel1 w T in1) (seq 0 (length in1))).
  assert (Hlen1 : length out1 = length in1)
    by (unfold out1; by rewrite length_map, length_seq).
  assert (Hout1 : out1 !! Z.to_nat T = Some f_inf).
  { unfold out1. rewrite list_lookup_fmap, lookup_seq_lt by lia. simpl.
    unfold after_kernel1. rewrite Z2Nat.id, Z_mod_same_full by lia.
    destruct (Z.ltb_spec 0 (w - 1)); [done | lia]. }
  destruct (second_launch_paints in1 w T tpb ltac:(lia) ltac:(lia) Htpb
              out1 Hlen1) as [_ Hpaint].
  destruct (Hpaint (Z.to_nat T) ltac:(lia)) as [_ [-> | [Hw2 _]]]; [done|].
  exfalso. rewrite Z2Nat.id in Hw2 by lia.
  set (n := Z.of_nat (length in1)) in *.
  destruct Hw2 as ([lo hi] & Hb & t & Ht & Hguard & i & Hi & HiT).
  cbn [fst snd] in *.
  apply pyrange_elem in Hi; [|lia]. apply pyrange_elem in Ht; [|lia].
  cbn [app chunk_bounds] in Hb.
  apply elem_of_cons in Hb as [Hb | Hb].
  - rewrite pyrange_unfold in Hb by lia. simpl in Hb.
    inversion Hb; subst. lia.
  - rewrite chunk_bounds_app_nrows, elem_of_app in Hb.
    destruct Hb as [Hb | Hb].
    + apply chunk_bounds_range_elem in Hb as (k & Hk & -> & Hlt & ->); [|lia].
      assert (k = 0) by nia. subst k. lia.
    + apply list_elem_of_singleton in Hb. inversion Hb; subst. lia.
Qed.

(** The rolling mean at row [g] reads the [w] rows ending at [g] only. *)
Lemma rolling_mean_local (in1 in1' : list num) (w g : Z) :
  0 <= g - w + 1 ->
  (forall j, g - w + 1 <= j <= g -> in1 !! Z.to_nat j = in1' !! Z.to_nat j) ->
  rolling_mean w in1 g = rolling_mean w in1' g.
Proof.
  intros Hg Heq. unfold rolling_mean. do 2 f_equal.
  apply list_eq. intros k. rewrite !lookup_take.
  destruct (decide (k < Z.to_nat w)%nat) as [Hk|]; [|done].
  rewrite !lookup_drop.
  replace (Z.to_nat (g - w + 1) + k)%nat
    with (Z.to_nat (g - w + 1 + Z.of_nat k)) by lia.
  apply Heq. lia.
Qed.

(** X4.  Row [g] of the result depends on the [w] input rows ending at [g] and on
    nothing else: not on the other rows of the input, not on what the output
    column held before the first launch.  This holds for every chunk size
    from [w - 1] on, also where the row is left at infinity. *)
Theorem moving_average_is_local (in1 in1' out out' : list num) (w T tpb : Z)
    (g : nat) :
  length out = length in1 -> length in1' = length in1 ->
  length out' = length in1 ->
  1 <= w -> w - 1 <= T -> 0 < T -> 0 < tpb -> (g < length in1)%nat ->
  (forall j, 0 <= j -> Z.of_nat g - w + 1 <= j <= Z.of_nat g ->
     in1 !! Z.to_nat j = in1' !! Z.to_nat j) ->
  MovingAverage.run w T tpb in1 out !! g =
  MovingAverage.run w T tpb in1' out' !! g.
Proof.
  intros Hlen Hlen' Hleno' Hw HwT HT Htpb Hg Heq.
  assert (Hmean : w - 1 <= Z.of_nat g ->
            rolling_mean w in1 (Z.of_nat g) = rolling_mean w in1' (Z.of_nat g)).
  { intros Hlate. apply rolling_mean_local; [lia|].
    intros j Hj. apply Heq; lia. }
  unfold MovingAverage.run. cbv zeta.
  rewrite !first_launch by (done || congruence). rewrite Hlen'.
  set (out1 := map (after_kernel1 w T in1) (seq 0 (length in1))).
  set (out1' := map (after_kernel1 w T in1') (seq 0 (length in1))).
  assert (Hfirst : out1 !! g = out1' !! g).
  { unfold out1, out1'. rewrite !list_lookup_fmap, lookup_seq_lt by done.
    simpl. f_equal. unfold after_kernel1.
    destruct (Z.ltb_spec (Z.of_nat g mod T) (w - 1)) as [|Hmod]; [done|].
    apply Hmean. pose proof (Z.mod_le (Z.of_nat g) T ltac:(lia) HT). lia. }
  assert (Hl1 : length out1 = length in1)
    by (unfold out1; by rewrite length_map, length_seq).
  assert (Hl1' : length out1' = length in1')
    by (unfold out1'; by rewrite length_map, length_seq).
  pose proof (second_launch_paints in1 w T tpb Hw HT Htpb out1 Hl1)
    as [_ Hp].
  pose proof (second_launch_paints in1' w T tpb Hw HT Htpb out1' Hl1')
    as [_ Hp'].
  rewrite Hlen' in Hp'.
  destruct (Hp g Hg) as [Hset Hkeep], (Hp' g Hg) as [Hset' Hkeep'].
  assert (Hlate := second_launch_cells_late in1 w T tpb g Hw HT Htpb).
  destruct Hkeep as [Hsame | [Hw2 Hval]].
  - destruct Hkeep' as [Hsame' | [Hw2 Hval']].
    + by rewrite Hsame, Hsame'.
    + rewrite (Hset Hw2), Hval', (Hmean (Hlate Hw2)). reflexivity.
  - rewrite Hval, (Hset' Hw2), (Hmean (Hlate Hw2)). reflexivity.
Qed.

(** X6.  The chunk list of the first launch ends in [data_length], so its
    last block works on the empty chunk [n:n].  The first loop of [kernel1]
    does not look at the size of the chunk: every lane [t < w - 1] of that
    block stores [inf] at index [t] of an empty view, which is cell [n + t]
    of the memory the column lies in, past the [n] cells of the column.
    The column itself is left as it was. *)
Theorem trailing_chunk_store_misses (in1 out : list num) (w T tpb t : Z) :
  length out = length in1 -> 0 <= t < w - 1 -> t < tpb ->
  let n := Z.of_nat (length in1) in
  (n, n) ∈ chunk_bounds n (pyrange 0 n T ++ [n]) /\
  slice (column in1) n n = NdArray in1 n 1 0 /\
  slice (column out) n n = NdArray out n 1 0 /\
  (forall mem : list num, n + t < Z.of_nat (length mem) ->
     buf (kernel1 w t tpb (NdArray in1 n 1 0) (NdArray mem n 1 0))
       !! Z.to_nat (n + t) = Some f_inf) /\
  chunk_wise_kernel (kernel1 w) in1 tpb (n, n) t out = out.
Proof.
  intros Hlen Ht Htpb n.
  assert (Hin : slice (column in1) n n = NdArray in1 n 1 0).
  { rewrite slice_column by (unfold n; lia). f_equal. lia. }
  assert (Hout : slice (column out) n n = NdArray out n 1 0).
  { rewrite slice_column by (unfold n; lia). f_equal. lia. }
  assert (Hrun : forall mem : list num,
            buf (kernel1 w t tpb (NdArray in1 n 1 0) (NdArray mem n 1 0)) =
            buf (for_each (pyrange t (w - 1) tpb)
                   (fun i a => setitem a i f_inf) (NdArray mem n 1 0))).
  { intros mem. unfold kernel1. cbn [size].
    by rewrite (pyrange_empty (t + w - 1) 0) by lia. }
  assert (Hpaint : forall m,
            paints m (fun _ => f_inf)
              (fun g => exists i, i ∈ pyrange t (w - 1) tpb /\
                                  view_cell n 1 0 i = Z.of_nat g)
              (fun mem => buf (for_each (pyrange t (w - 1) tpb)
                                 (fun i a => setitem a i f_inf)
                                 (NdArray mem n 1 0)))).
  { intros m. by apply stores_paint. }
  split; [|split; [done|split; [done|split]]].
  - rewrite chunk_bounds_app_nrows, elem_of_app. right.
    by apply list_elem_of_singleton.
  - intros mem Hmem. rewrite Hrun.
    destruct (Hpaint (length mem) mem eq_refl) as [_ Hp].
    destruct (Hp (Z.to_nat (n + t)) ltac:(lia)) as [Hset _].
    apply Hset. exists t. split.
    + apply pyrange_elem; [lia|]. split; [lia|].
      rewrite Z.sub_diag. apply Z.mod_0_l. lia.
    + rewrite view_cell_unit by lia. unfold n. lia.
  - unfold chunk_wise_kernel. cbn [fst snd]. rewrite Hin, Hout, Hrun.
    destruct (Hpaint (length out) out eq_refl) as [Hl Hp].
    apply list_eq. intros g.
    destruct (decide (g < length out)%nat) as [Hg|Hg].
    + destruct (Hp g Hg) as [_ [Hsame | [(i & Hi & Hcell) _]]]; [done|].
      apply pyrange_elem in Hi; [|lia].
      rewrite view_cell_unit in Hcell by lia. unfold n in Hcell. lia.
    + rewrite !lookup_ge_None_2; [done | lia | lia].
Qed.

End KernelsFurther.

Lemma first_launch_restarts_at_chunks_witness :
  length (replicate 6 Stray) = length (arange 6) /\
  1 <= 2 /\ 2 - 1 <= 3 /\ (4 < length (arange 6))%nat /\
  apply_chunks (MovingAverage.kernel1 2)
    (pyrange 0 (Z.of_nat (length (arange 6))) 3
       ++ [Z.of_nat (length (arange 6))])
    2 (arange 6) (replicate 6 Stray) !! 4%nat =
  Some (if Z.of_nat 4 mod 3 <? 2 - 1 then f_inf
        else MovingAverage.rolling_mean 2 (arange 6) (Z.of_nat 4)).
Proof.
  split; [reflexivity|]. do 2 (split; [lia|]). split; [simpl; lia|].
  apply (first_launch_restarts_at_chunks (arange 6) (replicate 6 Stray)
           2 3 2 4 eq_refl); simpl; lia.
Defined.

Lemma second_launch_writes_means_only_witness :
  length (replicate 6 Stray) = length (arange 6) /\ 1 <= 2 /\ 0 < 3 /\
  length (apply_chunks (MovingAverage.kernel2 2)
            ([0] ++ pyrange 2 (Z.of_nat (length (arange 6))) 3
                 ++ [Z.of_nat (length (arange 6))])
            2 (arange 6) (replicate 6 Stray)) = length (arange 6).
Proof.
  split; [reflexivity|]. do 2 (split; [lia|]).
  apply (second_launch_writes_means_only (arange 6) (replicate 6 Stray) 2 3 2
           eq_refl); lia.
Defined.

Lemma short_chunks_leave_infinity_witness :
  length (replicate 9 Stray) = length (arange 9) /\
  2 <= 3 /\ 3 <= 4 /\ 4 < 2 * 3 - 1 /\ 4 < Z.of_nat (length (arange 9)) /\
  MovingAverage.run 3 4 128 (arange 9) (replicate 9 Stray) !! Z.to_nat 4 =
  Some f_inf.
Proof.
  split; [reflexivity|]. do 3 (split; [lia|]). split; [simpl; lia|].
  apply (short_chunks_leave_infinity (arange 9) (replicate 9 Stray) 3 4 128
           eq_refl); simpl; lia.
Defined.

Lemma moving_average_is_local_witness :
  MovingAverage.run 2 3 2 (arange 6) (replicate 6 Stray) !! 4%nat =
  MovingAverage.run 2 3 2 (<[0%nat := Inf]> (arange 6)) (replicate 6 Inf)
    !! 4%nat.
Proof.
  apply (moving_average_is_local (arange 6) (<[0%nat := Inf]> (arange 6))
           (replicate 6 Stray) (replicate 6 Inf) 2 3 2 4);
    try reflexivity; try (simpl; lia).
  intros j Hj0 Hj.
  assert (Hc : j = 3 \/ j = 4) by (simpl in Hj; lia).
  destruct Hc as [-> | ->]; reflexivity.
Defined.

Lemma moving_average_any_order_witness :
  MovingAverage.run 2 3 2 (arange 6) (replicate 6 Stray) =
  run_turns (MovingAverage.kernel2 2) (arange 6) 2
    (reverse (chunk_turns (Z.of_nat (length (arange 6)))
                ([0] ++ pyrange 2 (Z.of_nat (length (arange 6))) 3
                     ++ [Z.of_nat (length (arange 6))]) 2))
    (run_turns (MovingAverage.kernel1 2) (arange 6) 2
       (reverse (chunk_turns (Z.of_nat (length (arange 6)))
                   (pyrange 0 (Z.of_nat (length (arange 6))) 3
                      ++ [Z.of_nat (length (arange 6))]) 2))
       (replicate 6 Stray)).
Proof.
  symmetry.
  apply (moving_average_any_order (arange 6) (replicate 6 Stray) 2 3 2 _ _
           eq_refl ltac:(lia) ltac:(lia) ltac:(lia) ltac:(lia)
           (reverse_Permutation _) (reverse_Permutation _)).
Defined.

Lemma trailing_chunk_store_misses_witness :
  buf (MovingAverage.kernel1 4 2 128 (NdArray (arange 6) 6 1 0)
         (NdArray (replicate 10 Stray) 6 1 0)) !! Z.to_nat (6 + 2) =
    Some f_inf /\
  chunk_wise_kernel (MovingAverage.kernel1 4) (arange 6) 128 (6, 6) 2
    (replicate 6 Stray) = replicate 6 Stray.
Proof.
  destruct (trailing_chunk_store_misses (arange 6) (replicate 6 Stray)
              4 10240 128 2 eq_refl ltac:(lia) ltac:(lia))
    as (_ & _ & _ & Hmem & Hcol).
  split; [|exact Hcol].
  apply (Hmem (replicate 10 Stray)). simpl. lia.
Defined.

(** ** The edge list of the Jaccard notebook *)
Section JaccardFurther.
Import Jaccard.

Lemma int32_in_range (z : Z) : - 2 ^ 31 <= int32 z < 2 ^ 31.
Proof.
  unfold int32. pose proof (Z.mod_pos_bound (z + 2 ^ 31) (2 ^ 32)). lia.
Qed.

Lemma int32_pred (x : Z) :
  - 2 ^ 31 <= x < 2 ^ 31 ->
  int32 (x - 1) = if x =? - 2 ^ 31 then 2 ^ 31 - 1 else x - 1.
Proof.
  intros Hx. unfold int32. destruct (Z.eqb_spec x (- 2 ^ 31)) as [->|Hne].
  - reflexivity.
  - rewrite Z.mod_small; lia.
Qed.


(** X8.  Running the renumbering cell a second time changes nothing: it reads
    [src] and [dst], which it never writes. *)
Theorem renumber_cell_idempotent (gdf gdf' : frame) :
  renumber_cell gdf = Return gdf' -> renumber_cell gdf' = Return gdf'.
Proof.
  unfold renumber_cell, getcol.
  destruct (gdf !! "src") as [src|] eqn:Hsrc; [simpl|done].
  rewrite lookup_insert_ne by done.
  destruct (gdf !! "dst") as [dst|] eqn:Hdst; [simpl|done].
  intros Heq. inversion Heq as [Hgdf']. clear Heq.
  rewrite !lookup_insert_ne, Hsrc by done. simpl.
  rewrite !lookup_insert_ne, Hdst by done. simpl.
  f_equal. apply map_eq. intros k.
  destruct (decide (k = "dst_id")) as [->|Hd]; [by rewrite !lookup_insert_eq|].
  rewrite (lookup_insert_ne _ "dst_id") by done.
  destruct (decide (k = "src_id")) as [->|Hs].
  - rewrite lookup_insert_eq, lookup_insert_ne, lookup_insert_eq by done.
    reflexivity.
  - by rewrite !(lookup_insert_ne _ "src_id") by done.
Qed.

(** X9.  The renumbering cell succeeds exactly on a frame that has both a [src]
    and a [dst] column; otherwise cuDF's [KeyError] names the first missing
    one, and it is [src] that is looked up first. *)
Theorem renumber_cell_needs_both_columns (gdf : frame) :
  match gdf !! "src", gdf !! "dst" with
  | Some _, Some _ => exists gdf', renumber_cell gdf = Return gdf'
  | Some _, None => renumber_cell gdf = Raise Library "KeyError" "dst"
  | None, _ => renumber_cell gdf = Raise Library "KeyError" "src"
  end.
Proof.
  unfold renumber_cell, getcol.
  destruct (gdf !! "src") as [src|] eqn:Hsrc; [simpl|done].
  rewrite lookup_insert_ne by done.
  destruct (gdf !! "dst") as [dst|] eqn:Hdst; simpl; [by eexists | done].
Qed.

(** X10.  Subtracting one on an [int32] column: the result is again in the
    [int32] range; it is the integer difference on every row but those
    holding the least [int32], which wrap around to the greatest.  Vertex
    numbers that start at 1 come out starting at 0. *)
Theorem sub_scalar_wraps_at_least_int32 (col : list Z) :
  Forall (fun x => - 2 ^ 31 <= x < 2 ^ 31) col ->
  Forall (fun y => - 2 ^ 31 <= y < 2 ^ 31) (sub_scalar col 1) /\
  (forall i x, col !! i = Some x ->
     sub_scalar col 1 !! i =
     Some (if x =? - 2 ^ 31 then 2 ^ 31 - 1 else x - 1)) /\
  (Forall (fun x => 1 <= x) col ->
     sub_scalar col 1 = map Z.pred col /\
     Forall (fun y => 0 <= y) (sub_scalar col 1)).
Proof.
  intros Hcol. unfold sub_scalar. split; [|split].
  - apply Forall_fmap, Forall_forall. intros x _. apply int32_in_range.
  - intros i x Hx. rewrite list_lookup_fmap, Hx. simpl. f_equal.
    apply int32_pred. rewrite Forall_forall in Hcol.
    apply Hcol. by eapply list_elem_of_lookup_2.
  - intros Hpos.
    assert (Heq : map (fun x => int32 (x - 1)) col = map Z.pred col).
    { apply map_ext_Forall. rewrite Forall_forall in Hcol, Hpos.
      apply Forall_forall. intros x Hx.
      specialize (Hcol x Hx). specialize (Hpos x Hx). cbv beta in *.
      rewrite int32_pred by done.
      destruct (Z.eqb_spec x (- 2 ^ 31)); lia. }
    split; [exact Heq|]. rewrite Heq. apply Forall_fmap.
    eapply Forall_impl; [exact Hpos|]. intros x Hx.
    unfold compose. cbv beta in *. lia.
Qed.

End JaccardFurther.


Lemma renumber_cell_idempotent_witness :
  Jaccard.renumber_cell
    (<["dst_id" := [1; 2]]> (<["src_id" := [0; 1]]> Jaccard.two_edges)) =
  Return (<["dst_id" := [1; 2]]> (<["src_id" := [0; 1]]> Jaccard.two_edges)).
Proof.
  apply (renumber_cell_idempotent Jaccard.two_edges). vm_compute. reflexivity.
Defined.

Lemma sub_scalar_wraps_at_least_int32_witness :
  Forall (fun x => - 2 ^ 31 <= x < 2 ^ 31) [1; 34; - 2 ^ 31] /\
  Jaccard.sub_scalar [1; 34; - 2 ^ 31] 1 !! 2%nat = Some (2 ^ 31 - 1).
Proof.
  assert (Hr : Forall (fun x => - 2 ^ 31 <= x < 2 ^ 31) [1; 34; - 2 ^ 31])
    by (repeat constructor; lia).
  split; [exact Hr|].
  destruct (sub_scalar_wraps_at_least_int32 [1; 34; - 2 ^ 31] Hr)
    as (_ & Hat & _).
  exact (Hat 2%nat (- 2 ^ 31) eq_refl).
Defined.

(** ** [to_nparray] and [array_equal] of the PCA notebook *)
Section ArrayEqualFurther.
Import PCA.

Lemma np_abs_run (h : heap) (x : nat) (o : pyobj) :
  h !! x = Some o ->
  match abs_of o with
  | Some o' =>
      exists x' h', np_abs x h = (Return x', h') /\ h' !! x' = Some o' /\
        (forall l v, h !! l = Some v -> h' !! l = Some v)
  | None =>
      np_abs x h = (Raise Library "TypeError" "bad operand type for abs()", h)
  end.
Proof.
  intros Hx. unfold np_abs, mbind, py_mbind, deref. rewrite Hx.
  destruct (abs_of o) as [o'|]; simpl; [apply alloc_spec | done].
Qed.

Lemma mean_squared_error_run metric (h : heap) (a b : nat) (oa ob : pyobj) :
  h !! a = Some oa -> h !! b = Some ob ->
  mean_squared_error metric a b h =
  (match metric oa ob with
   | Some e => Return e
   | None => Raise Library "ValueError" "inconsistent targets"
   end, h).
Proof.
  intros Ha Hb. unfold mean_squared_error, mbind, py_mbind, deref.
  rewrite Ha, Hb. by destruct (metric oa ob).
Qed.

(** The outcome of [array_equal] in one equation. *)
Lemma array_equal_run metric (h : heap) (a b : nat) (oa ob : pyobj)
    (threshold : Q) (with_sign : bool) :
  h !! a = Some oa -> h !! b = Some ob ->
  (array_equal metric a b threshold with_sign h).1 =
  match compared with_sign oa, compared with_sign ob with
  | Some xa, Some xb =>
      match metric xa xb with
      | Some e => Return (lt e threshold)
      | None => Raise Library "ValueError" "inconsistent targets"
      end
  | _, _ => Raise Library "TypeError" "bad operand type for abs()"
  end.
Proof.
  intros Ha Hb. unfold array_equal.
  destruct (to_nparray_spec h a oa Ha) as (a1 & h1 & E1 & Ha1 & P1).
  destruct (to_nparray_spec h1 b ob (P1 _ _ Hb)) as (b1 & h2 & E2 & Hb1 & P2).
  rewrite (py_bind_return _ _ _ _ _ E1), (py_bind_return _ _ _ _ _ E2).
  set (xa := default oa (converted oa)) in *.
  set (xb := default ob (converted ob)) in *.
  unfold compared. fold xa xb.
  assert (Hcmp : forall h' a' b' ya yb,
            h' !! a' = Some ya -> h' !! b' = Some yb ->
            ((error ← mean_squared_error metric a' b';
              mret (lt error threshold)) h').1
            = match metric ya yb with
              | Some e => Return (lt e threshold)
              | None => Raise Library "ValueError" "inconsistent targets"
              end).
  { intros h' a' b' ya yb Hya Hyb. unfold mbind, py_mbind.
    rewrite (mean_squared_error_run metric h' a' b' ya yb Hya Hyb).
    by destruct (metric ya yb). }
  destruct with_sign; simpl.
  - rewrite (py_bind_return _ _ h2 h2 (a1, b1)) by done.
    apply Hcmp; [by apply P2 | done].
  - pose proof (np_abs_run h2 a1 xa (P2 _ _ Ha1)) as Habs1.
    destruct (abs_of xa) as [xa'|].
    + destruct Habs1 as (a2 & h3 & E3 & Ha2 & P3).
      pose proof (np_abs_run h3 b1 xb (P3 _ _ Hb1)) as Habs2.
      destruct (abs_of xb) as [xb'|].
      * destruct Habs2 as (b2 & h4 & E4 & Hb2 & P4).
        rewrite (py_bind_return _ _ h2 h4 (a2, b2)).
        2:{ by rewrite (py_bind_return _ _ _ _ _ E3),
                       (py_bind_return _ _ _ _ _ E4). }
        apply Hcmp; [by apply P4 | done].
      * rewrite (py_bind_raise _ _ h2 h3 Library "TypeError"
                   "bad operand type for abs()"); [done|].
        by rewrite (py_bind_return _ _ _ _ _ E3),
                   (py_bind_raise _ _ _ _ _ _ _ Habs2).
    + rewrite (py_bind_raise _ _ h2 h2 Library "TypeError"
                 "bad operand type for abs()"); [done|].
      by rewrite (py_bind_raise _ _ _ _ _ _ _ Habs1).
Qed.

Lemma lt_spec (x y : Q) : lt x y = true <-> (x < y)%Q.
Proof. apply negb_Qle_bool. Qed.

Lemma lt_false (x y : Q) : lt x y = false <-> (y <= x)%Q.
Proof.
  unfold lt. rewrite negb_false_iff. apply Qle_bool_iff.
Qed.

Lemma sum_sq_diff_acc_sym (xs ys : list Q) (acc acc' : Q) :
  (acc == acc')%Q ->
  (fold_left Qplus (zip_with (fun x y => (x - y) * (x - y)) xs ys) acc ==
   fold_left Qplus (zip_with (fun x y => (x - y) * (x - y)) ys xs) acc')%Q.
Proof.
  revert ys acc acc'. induction xs as [|x xs IH]; intros [|y ys] acc acc' Hacc;
    simpl; try done.
  apply IH. rewrite Hacc. ring.
Qed.

Lemma sum_sq_diff_acc_self (xs : list Q) (acc : Q) :
  (fold_left Qplus (zip_with (fun x y => (x - y) * (x - y)) xs xs) acc ==
   acc)%Q.
Proof.
  revert acc. induction xs as [|x xs IH]; intros acc; simpl; [done|].
  rewrite IH. ring.
Qed.

Lemma mse_of_sym (oa ob : pyobj) : mse_of oa ob = mse_of ob oa.
Proof.
  unfold mse_of.
  destruct (as_target oa) as [[[n k] xs]|], (as_target ob) as [[[n' k'] ys]|];
    try done.
  repeat case_bool_decide; try done.
  - destruct_and!. subst n' k'. f_equal. apply Qred_complete.
    unfold sum_sq_diff. by rewrite (sum_sq_diff_acc_sym xs ys 0 0).
  - exfalso. destruct_and!. subst. naive_solver.
  - exfalso. destruct_and!. subst. naive_solver.
Qed.

Lemma mse_of_self (o : pyobj) (e : Q) : mse_of o o = Some e -> (e == 0)%Q.
Proof.
  unfold mse_of. destruct (as_target o) as [[[n k] xs]|]; [|done].
  case_bool_decide; [|done]. intros He. inversion He.
  rewrite Qred_correct. unfold sum_sq_diff.
  rewrite sum_sq_diff_acc_self. unfold Qdiv. ring.
Qed.

(** X11.  When [array_equal] does not return [True]: it returns [False]
    exactly when scikit-learn's [mean_squared_error] returns a number for
    the two converted arguments and that number is at least [threshold]; it
    raises exactly when NumPy's [abs] or [mean_squared_error] rejects them,
    and what it raises then comes from the library, never from a [raise] of
    its own. *)
Theorem array_equal_false_or_raises (metric : pyobj -> pyobj -> option Q)
    (h : heap) (a b : nat) (oa ob : pyobj)
    (threshold : Q) (with_sign : bool) :
  h !! a = Some oa -> h !! b = Some ob ->
  let r := (array_equal metric a b threshold with_sign h).1 in
  (r = Return false <->
   exists xa xb e,
     compared with_sign oa = Some xa /\ compared with_sign ob = Some xb /\
     metric xa xb = Some e /\ (threshold <= e)%Q) /\
  ((forall v, r <> Return v) <->
   ~ exists xa xb e,
       compared with_sign oa = Some xa /\ compared with_sign ob = Some xb /\
       metric xa xb = Some e) /\
  raises_own r = false.
Proof.
  intros Ha Hb r. unfold r.
  rewrite (array_equal_run metric h a b oa ob threshold with_sign Ha Hb).
  destruct (compared with_sign oa) as [xa|], (compared with_sign ob) as [xb|];
    try (split; [|split]; [split; [done | by intros (? & ? & ? & ? & ? & _)]
                          | split; [by intros _ (? & ? & ? & ? & ? & _) | done]
                          | done]).
  destruct (metric xa xb) as [e|] eqn:He.
  - split; [|split]; [| |done].
    + split.
      * intros Hr. exists xa, xb, e. repeat split; try done.
        apply lt_false. by inversion Hr.
      * intros (ya & yb & e' & Hya & Hyb & He' & Hle). simplify_eq.
        f_equal. by apply lt_false.
    + split; [intros Hno; by destruct (Hno (lt e threshold))|].
      intros Hno. exfalso. apply Hno. by exists xa, xb, e.
  - split; [|split]; [| |done].
    + split; [done|]. intros (ya & yb & e' & Hya & Hyb & He' & _).
      by simplify_eq.
    + split; [|done]. intros _ (ya & yb & e' & Hya & Hyb & He').
      by simplify_eq.
Qed.

(** X12.  [array_equal] does not depend on the order of its two arguments: it
    returns the same value for [(a, b)] and for [(b, a)], and raises for one
    exactly when it raises for the other.  The error is the mean squared
    error of the values, [mse_of]: a difference and its opposite have the
    same square. *)
Theorem array_equal_symmetric (h : heap) (a b : nat) (oa ob : pyobj)
    (threshold : Q) (with_sign : bool) :
  h !! a = Some oa -> h !! b = Some ob ->
  forall v, (array_equal mse_of a b threshold with_sign h).1 = Return v <->
            (array_equal mse_of b a threshold with_sign h).1 = Return v.
Proof.
  intros Ha Hb v.
  rewrite (array_equal_run mse_of h a b oa ob threshold with_sign Ha Hb),
          (array_equal_run mse_of h b a ob oa threshold with_sign Hb Ha).
  destruct (compared with_sign oa) as [xa|], (compared with_sign ob) as [xb|];
    try done.
  by rewrite (mse_of_sym xa xb).
Qed.

(** X13.  Two references to equal objects, or one reference passed twice, compare
    equal under every positive threshold, provided the object is something
    scikit-learn accepts as a target.  The error is the mean squared error
    of the values, [mse_of]: every difference is zero. *)
Theorem array_equal_reflexive (h : heap) (a b : nat) (o x : pyobj)
    (threshold : Q) (with_sign : bool) :
  h !! a = Some o -> h !! b = Some o ->
  compared with_sign o = Some x -> is_Some (mse_of x x) ->
  (0 < threshold)%Q ->
  (array_equal mse_of a b threshold with_sign h).1 = Return true.
Proof.
  intros Ha Hb Hx [e He] Hthr.
  rewrite (array_equal_run mse_of h a b o o threshold with_sign Ha Hb), Hx, He.
  f_equal. apply lt_spec. by rewrite (mse_of_self x e He).
Qed.

(** X14.  With [with_sign=False] an array can be replaced by one that differs
    from it in the signs of its entries only: the outcome is the same on
    either side of the comparison, and the two arrays compare equal.  The
    error is the mean squared error of the values, [mse_of]; the two
    arrays are the same array once [np.abs] is taken. *)
Theorem array_equal_ignores_signs (h : heap) (a a' b : nat) (t t' : tensor)
    (ob : pyobj) (threshold : Q) :
  h !! a = Some (NpNdarray t) -> h !! a' = Some (NpNdarray t') ->
  h !! b = Some ob ->
  shape t = shape t' -> map Qabs (data t) = map Qabs (data t') ->
  (array_equal mse_of a b threshold false h).1 =
    (array_equal mse_of a' b threshold false h).1 /\
  (array_equal mse_of b a threshold false h).1 =
    (array_equal mse_of b a' threshold false h).1 /\
  (is_Some (mse_of (NpNdarray t) (NpNdarray t)) -> (0 < threshold)%Q ->
   (array_equal mse_of a a' threshold false h).1 = Return true).
Proof.
  intros Ha Ha' Hb Hshape Hdata.
  assert (Hc : compared false (NpNdarray t) = compared false (NpNdarray t'))
    by (unfold compared; simpl; by rewrite Hshape, Hdata).
  split; [|split].
  - by rewrite (array_equal_run mse_of h a b _ _ threshold false Ha Hb),
               (array_equal_run mse_of h a' b _ _ threshold false Ha' Hb), Hc.
  - by rewrite (array_equal_run mse_of h b a _ _ threshold false Hb Ha),
               (array_equal_run mse_of h b a' _ _ threshold false Hb Ha'), Hc.
  - intros [e He] Hthr.
    rewrite (array_equal_run mse_of h a a' _ _ threshold false Ha Ha'), <- Hc.
    unfold compared. simpl.
    set (x := NpNdarray (Tensor (shape t) (map Qabs (data t)))).
    assert (is_Some (mse_of x x)) as [e' He'].
    { revert He. unfold mse_of, x. simpl.
      destruct (shape t) as [|n [|k [|]]]; try done;
        rewrite !length_map; case_bool_decide; try done; by eexists. }
    rewrite He'. f_equal. apply lt_spec. by rewrite (mse_of_self x e' He').
Qed.

(** X15.  Raising the threshold keeps a [True], lowering it keeps a [False],
    whatever number [mean_squared_error] returns. *)
Theorem array_equal_threshold_monotone (metric : pyobj -> pyobj -> option Q)
    (h : heap) (a b : nat) (oa ob : pyobj)
    (threshold threshold' : Q) (with_sign : bool) :
  h !! a = Some oa -> h !! b = Some ob -> (threshold <= threshold')%Q ->
  ((array_equal metric a b threshold with_sign h).1 = Return true ->
   (array_equal metric a b threshold' with_sign h).1 = Return true) /\
  ((array_equal metric a b threshold' with_sign h).1 = Return false ->
   (array_equal metric a b threshold with_sign h).1 = Return false).
Proof.
  intros Ha Hb Hle.
  rewrite (array_equal_run metric h a b oa ob threshold with_sign Ha Hb),
          (array_equal_run metric h a b oa ob threshold' with_sign Ha Hb).
  destruct (compared with_sign oa) as [xa|], (compared with_sign ob) as [xb|];
    try done.
  destruct (metric xa xb) as [e|]; [|done]. split.
  - intros Hr. f_equal. apply lt_spec.
    apply Qlt_le_trans with threshold; [|done]. apply lt_spec. by inversion Hr.
  - intros Hr. f_equal. apply lt_false.
    apply Qle_trans with threshold'; [done|]. apply lt_false. by inversion Hr.
Qed.

(** X16.  [to_nparray] never hands back an alias of an array.  For an
    [ndarray], a pandas frame, a cuDF frame or a cuDF series it returns a
    new [ndarray] of the same values, for a [float64] a new one-element
    [ndarray], each at a reference that was not in use and differs from the
    argument, the heap being otherwise unchanged; a list and [None] are
    handed back themselves, with the heap untouched. *)
Theorem to_nparray_copies (h : heap) (x : nat) (o : pyobj) :
  h !! x = Some o ->
  (forall t,
     o = NpNdarray t \/ o = PdDataFrame t \/
     o = CudfDataFrame t \/ o = CudfSeries t ->
     exists x', to_nparray x h = (Return x', <[x' := NpNdarray t]> h) /\
                h !! x' = None /\ x' <> x /\
                (<[x' := NpNdarray t]> h) !! x = Some o) /\
  (forall v, o = NpFloat64 v ->
     exists x', to_nparray x h =
                  (Return x', <[x' := NpNdarray (Tensor [1%nat] [v])]> h) /\
                h !! x' = None /\ x' <> x) /\
  (forall l, o = PyList l -> to_nparray x h = (Return x, h)) /\
  (o = PyNone -> to_nparray x h = (Return x, h)).
Proof.
  intros Hx.
  assert (Hfresh : h !! fresh (dom h) = None)
    by (apply not_elem_of_dom, is_fresh).
  assert (Hne : fresh (dom h) <> x) by congruence.
  assert (Hrun : to_nparray x h =
                 match converted o with
                 | Some o' => (Return (fresh (dom h)), <[fresh (dom h) := o']> h)
                 | None => (Return x, h)
                 end).
  { unfold to_nparray, mbind, py_mbind, deref. rewrite Hx.
    by destruct (converted o). }
  rewrite Hrun. split; [|split; [|split]].
  - intros t Ho. exists (fresh (dom h)).
    rewrite lookup_insert_ne by done.
    by destruct Ho as [-> | [-> | [-> | ->]]].
  - intros v ->. by exists (fresh (dom h)).
  - by intros l ->.
  - by intros ->.
Qed.

End ArrayEqualFurther.

(** C4 fails as stated when the error is read as a number: for [a = [0.0]],
    [b = [0.1]] and [threshold = 0.1 * 0.1] the mean squared error of the two
    arrays lies below the threshold, but scikit-learn squares [0.0 - 0.1] in
    binary64, the square rounds up to the threshold itself, and [array_equal]
    returns [False]. *)
Lemma array_equal_counts_rounded_error :
  let d := B64.div (B64.of_Z 1) (B64.of_Z 10) in
  let diff := B64.sub (B64.of_Z 0) d in
  let err := B64.div (B64.mul diff diff) (B64.of_Z 1) in
  exists x thr e : Q,
    B64.to_Q d = Some x /\ B64.to_Q (B64.mul d d) = Some thr /\
    B64.to_Q err = Some e /\
    let a := PCA.NpNdarray (PCA.Tensor [1%nat] [0%Q]) in
    let b := PCA.NpNdarray (PCA.Tensor [1%nat] [x]) in
    let h : PCA.heap := <[1%nat := b]> (<[0%nat := a]> ∅) in
    (exists exact, PCA.mse_of a b = Some exact /\ (exact < thr)%Q) /\
    ~ (e < thr)%Q /\
    forall metric : PCA.pyobj -> PCA.pyobj -> option Q,
      metric a b = Some e ->
      (PCA.array_equal metric 0 1 thr true h).1 = Return false.
Proof.
  intros d diff err.
  exists (3602879701896397 # 36028797018963968)%Q,
         (1441151880758559 # 144115188075855872)%Q,
         (1441151880758559 # 144115188075855872)%Q.
  split; [vm_compute; reflexivity|].
  split; [vm_compute; reflexivity|].
  split; [vm_compute; reflexivity|].
  intros a b h. split; [|split].
  - eexists. split; [vm_compute; reflexivity|]. vm_compute. reflexivity.
  - vm_compute. discriminate.
  - intros metric Hm.
    rewrite (array_equal_run metric h 0 1 a b _ true eq_refl eq_refl).
    change (PCA.compared true a) with (Some a).
    change (PCA.compared true b) with (Some b).
    cbv beta iota. rewrite Hm.
    vm_compute. reflexivity.
Qed.

Lemma array_equal_false_or_raises_witness :
  (PCA.array_equal PCA.mse_of 1 2 PCA.threshold_default true signed_heap).1 =
    Return false /\
  raises_own (PCA.array_equal PCA.mse_of 3 1 PCA.threshold_default false signed_heap).1 =
    false.
Proof.
  assert (H1 : signed_heap !! 1%nat =
               Some (PCA.NpNdarray (PCA.Tensor [2%nat] [1 # 1; 2 # 1])))
    by (vm_compute; reflexivity).
  assert (H2 : signed_heap !! 2%nat =
               Some (PCA.NpNdarray (PCA.Tensor [2%nat] [-1 # 1; 2 # 1])))
    by (vm_compute; reflexivity).
  assert (H3 : signed_heap !! 3%nat = Some PCA.PyNone)
    by (vm_compute; reflexivity).
  split.
  - destruct (array_equal_false_or_raises PCA.mse_of signed_heap 1 2 _ _
                PCA.threshold_default true H1 H2) as ([_ Hfalse] & _ & _).
    apply Hfalse. eexists _, _, _.
    split; [reflexivity|]. split; [reflexivity|].
    split; [vm_compute; reflexivity|]. vm_compute. discriminate.
  - destruct (array_equal_false_or_raises PCA.mse_of signed_heap 3 1 _ _
                PCA.threshold_default false H3 H1) as (_ & _ & Hown).
    exact Hown.
Defined.

Lemma array_equal_symmetric_witness :
  (PCA.array_equal PCA.mse_of 1 0 PCA.threshold_default false PCA.sample_heap).1 =
  Return true.
Proof.
  assert (H0 : PCA.sample_heap !! 0%nat = Some (PCA.PyList [1 # 1; -2 # 1]))
    by (vm_compute; reflexivity).
  assert (H1 : PCA.sample_heap !! 1%nat =
               Some (PCA.NpNdarray (PCA.Tensor [2%nat] [1 # 1; 2 # 1])))
    by (vm_compute; reflexivity).
  apply (array_equal_symmetric PCA.sample_heap 0 1 _ _
           PCA.threshold_default false H0 H1 true).
  vm_compute. reflexivity.
Defined.

Lemma array_equal_reflexive_witness :
  (PCA.array_equal PCA.mse_of 1 1 PCA.threshold_default true PCA.sample_heap).1 =
  Return true.
Proof.
  assert (H1 : PCA.sample_heap !! 1%nat =
               Some (PCA.NpNdarray (PCA.Tensor [2%nat] [1 # 1; 2 # 1])))
    by (vm_compute; reflexivity).
  apply (array_equal_reflexive PCA.sample_heap 1 1 _
           (PCA.NpNdarray (PCA.Tensor [2%nat] [1 # 1; 2 # 1]))
           PCA.threshold_default true H1 H1).
  - reflexivity.
  - vm_compute. by eexists.
  - reflexivity.
Defined.

Lemma array_equal_ignores_signs_witness :
  (PCA.array_equal PCA.mse_of 1 2 PCA.threshold_default false signed_heap).1 =
  Return true.
Proof.
  assert (H1 : signed_heap !! 1%nat =
               Some (PCA.NpNdarray (PCA.Tensor [2%nat] [1 # 1; 2 # 1])))
    by (vm_compute; reflexivity).
  assert (H2 : signed_heap !! 2%nat =
               Some (PCA.NpNdarray (PCA.Tensor [2%nat] [-1 # 1; 2 # 1])))
    by (vm_compute; reflexivity).
  destruct (array_equal_ignores_signs signed_heap 1 2 1 _ _ _
              PCA.threshold_default H1 H2 H1 eq_refl eq_refl)
    as (_ & _ & Hsame).
  apply Hsame; [vm_compute; by eexists | reflexivity].
Defined.

Lemma array_equal_threshold_monotone_witness :
  (PCA.array_equal PCA.mse_of 0 1 (1 # 2) false PCA.sample_heap).1 = Return true.
Proof.
  assert (H0 : PCA.sample_heap !! 0%nat = Some (PCA.PyList [1 # 1; -2 # 1]))
    by (vm_compute; reflexivity).
  assert (H1 : PCA.sample_heap !! 1%nat =
               Some (PCA.NpNdarray (PCA.Tensor [2%nat] [1 # 1; 2 # 1])))
    by (vm_compute; reflexivity).
  destruct (array_equal_threshold_monotone PCA.mse_of PCA.sample_heap 0 1 _ _
              PCA.threshold_default (1 # 2) false H0 H1) as [Hup _].
  - vm_compute. discriminate.
  - apply Hup. vm_compute. reflexivity.
Defined.

Lemma to_nparray_copies_witness :
  exists x', PCA.to_nparray 1 PCA.sample_heap =
               (Return x',
                <[x' := PCA.NpNdarray (PCA.Tensor [2%nat] [1 # 1; 2 # 1])]>
                  PCA.sample_heap) /\
             PCA.sample_heap !! x' = None /\ x' <> 1%nat.
Proof.
  assert (H1 : PCA.sample_heap !! 1%nat =
               Some (PCA.NpNdarray (PCA.Tensor [2%nat] [1 # 1; 2 # 1])))
    by (vm_compute; reflexivity).
  destruct (to_nparray_copies PCA.sample_heap 1 _ H1) as (Hcopy & _).
  destruct (Hcopy (PCA.Tensor [2%nat] [1 # 1; 2 # 1]) (or_introl eq_refl))
    as (x' & Hrun & Hnew & Hne & _).
  exists x'. split; [exact Hrun|]. split; [exact Hnew | exact Hne].
Defined.

(** ** The loaders on a cached dataset *)
Section LoadersFurther.
Context {val : Type}.
Implicit Types (w : world val) (X : matrix val).




(** X17.  On a cached dataset of at least two rows the PCA loader returns a frame
    of [nrows] rows and [min(ncols, width)] columns; every row of it is one
    of the rows of the dataset before the last, which is never drawn. *)
Theorem pca_load_data_never_draws_last_row w (nrows ncols : Z)
    (cached : string) (X0 : matrix val) :
  files w !! cached = Some (NpyGzFile X0) -> rectangular X0 ->
  (2 <= length (rows X0))%nat -> 0 <= nrows -> 0 <= ncols ->
  CoordinateDescent.randint_sound w ->
  exists picked : list (list val),
    let df := frame_of (column_slice (Matrix (width X0) picked) 0 ncols) in
    PCA.load_data nrows ncols cached w =
      ([Stat cached true; Printed "use mortgage data";
        Open cached ReadMode Gzip; Parse cached NumpyArray], Return df) /\
    length picked = Z.to_nat nrows /\
    Forall (fun r => r ∈ take (length (rows X0) - 1) (rows X0)) picked /\
    length df = Z.to_nat (Z.min ncols (Z.of_nat (width X0))) /\
    Forall (fun c => length c.2 = Z.to_nat nrows) df.
Proof.
  intros Hf Hrect Hrows Hn Hc Hrand.
  destruct (drawn_rows w X0 nrows Hrand Hrows Hn)
    as (picked & Htake & Hlen & Hall).
  exists picked. cbv zeta. split; [|split; [done|split; [|split]]].
  - run_io. repeat (rewrite Hf; simpl).
    destruct (Z.eqb_spec nrows 0) as [H0|H0]; simpl.
    + destruct picked; [reflexivity | simpl in Hlen; lia].
    + destruct (Z.ltb_spec 0 (Z.of_nat (length (rows X0)) - 1)); [|lia].
      destruct (Z.leb_spec 0 nrows); [|lia]. simpl.
      rewrite Htake. reflexivity.
  - clear Htake Hlen.
    induction Hall as [|i r idx' l' [Hi Hr] _ IH]; constructor; [|done].
    apply (list_elem_of_lookup_2 _ (Z.to_nat i)).
    rewrite lookup_take_lt by lia. done.
  - unfold frame_of. rewrite length_map, length_seq. unfold column_slice.
    simpl. rewrite py_slice_length. unfold py_clip.
    rewrite length_replicate. destruct (Z.ltb_spec ncols 0); [lia|].
    change (0 <? 0) with false. lia.
  - assert (Hrect' : rectangular (Matrix (width X0) picked)).
    { unfold rectangular in *. simpl. rewrite Forall_forall in Hrect.
      clear Htake Hlen.
      induction Hall as [|i r idx' l' [Hi Hr] _ IH]; constructor; [|done].
      apply Hrect. by eapply list_elem_of_lookup_2. }
    destruct (column_slice_rectangular _ 0 ncols Hrect') as [Hrs Hls].
    eapply Forall_impl; [apply (frame_of_columns _ Hrs)|].
    intros c Hcl. cbv beta in Hcl. rewrite Hcl, Hls. simpl. done.
Qed.

Lemma frame_of_no_rows (W : nat) :
  Forall (fun c : string * list val => c.2 = []) (frame_of (Matrix W [])).
Proof. unfold frame_of. apply Forall_fmap, Forall_forall. by intros i _. Qed.

(** X18.  Both loaders draw their rows by [randint(0, X.shape[0] - 1, nrows)].
    On a cached dataset of fewer than two rows, or with a negative [nrows],
    a call with [nrows <> 0] ends in NumPy's [ValueError] after the file was
    read; a call with [nrows = 0] draws nothing and returns frames without
    rows. *)
Theorem loaders_reject_short_datasets w (nrows ncols : Z) (cached : string)
    (X0 : matrix val) :
  files w !! cached = Some (NpyGzFile X0) ->
  (length (rows X0) <= 1)%nat \/ nrows < 0 ->
  let trace := [Stat cached true; Printed "use mortgage data";
                Open cached ReadMode Gzip; Parse cached NumpyArray] in
  (nrows <> 0 ->
   (exists msg, PCA.load_data nrows ncols cached w =
                  (trace, Raise Library "ValueError" msg)) /\
   (exists msg, CoordinateDescent.load_data nrows ncols cached w =
                  (trace, Raise Library "ValueError" msg))) /\
  (nrows = 0 ->
   (exists df, PCA.load_data nrows ncols cached w = (trace, Return df) /\
               Forall (fun c => c.2 = []) df) /\
   (exists X_train X_test y_train y_test,
      CoordinateDescent.load_data nrows ncols cached w =
        (trace, Return (X_train, X_test, y_train, y_test)) /\
      Forall (fun c => c.2 = []) (X_train ++ X_test ++ y_train ++ y_test))).
Proof.
  intros Hf Hshort trace. split.
  - intros Hne.
    assert (Hzero : (nrows =? 0) = false) by by apply Z.eqb_neq.
    assert (Hguard : (0 <? Z.of_nat (length (rows X0)) - 1) && (0 <=? nrows)
                     = false).
    { apply andb_false_iff.
      destruct Hshort; [left; apply Z.ltb_ge | right; apply Z.leb_gt]; lia. }
    split; eexists; run_io; repeat (rewrite Hf; simpl);
      rewrite ?length_map, Hzero, Hguard; reflexivity.
  - intros ->. split.
    + eexists. split; [run_io; repeat (rewrite Hf; simpl); reflexivity|].
      apply frame_of_no_rows.
    + eexists _, _, _, _.
      split; [run_io; repeat (rewrite Hf; simpl); reflexivity|].
      change (CoordinateDescent.train_rows_of 0) with 0.
      rewrite !Forall_app. repeat split; apply frame_of_no_rows.
Qed.

End LoadersFurther.

(** ** The split point [int(nrows * 0.8)] *)
Section SplitPointFurther.
Import Binary64.

(** Rounding to 53 bits never goes below the truncation, and drops exactly
    the bits beyond the 53rd. *)
Lemma round53_floor (m : Z) :
  0 <= m ->
  let '(q, sh) := round53 m in
  m < (q + 1) * 2 ^ sh /\ (sh = 0 \/ (53 <= Z.log2 m /\ sh = Z.log2 m - 52)).
Proof.
  intros Hm. unfold round53.
  destruct (Z.leb_spec (Z.log2 m + 1) 53) as [Hbits|Hbits].
  - rewrite Z.pow_0_r. lia.
  - set (sh := Z.log2 m + 1 - 53).
    assert (HP : 0 < 2 ^ sh) by (apply Z.pow_pos_nonneg; lia).
    pose proof (Z.div_mod m (2 ^ sh) ltac:(lia)) as Hdm.
    pose proof (Z.mod_pos_bound m (2 ^ sh) HP) as Hr.
    assert (Hlow : m < (m / 2 ^ sh + 1) * 2 ^ sh).
    { rewrite Z.mul_add_distr_r, Z.mul_1_l, (Z.mul_comm (m / 2 ^ sh)). lia. }
    assert (Hup : m < (m / 2 ^ sh + 1 + 1) * 2 ^ sh).
    { rewrite (Z.mul_add_distr_r _ 1), Z.mul_1_l. lia. }
    destruct ((2 ^ (sh - 1) <? m mod 2 ^ sh)
              || (m mod 2 ^ sh =? 2 ^ (sh - 1)) && Z.odd (m / 2 ^ sh));
      (split; [done | right; unfold sh; lia]).
Qed.

(** X19.  Up to [2 ^ 50] rows the binary64 product never rounds across an
    integer: [int(nrows * 0.8)] is four fifths of [nrows], rounded down. *)
Theorem train_rows_is_four_fifths (n : Z) :
  0 <= n <= 2 ^ 50 -> CoordinateDescent.train_rows_of n = 4 * n / 5.
Proof.
  intros Hn. destruct (Z.eq_dec n 0) as [->|Hne]; [by vm_compute|].
  assert (Hlog : Z.log2 n < 51).
  { apply Z.log2_lt_pow2; [lia|]. change (2 ^ 51) with (2 * 2 ^ 50). lia. }
  unfold CoordinateDescent.train_rows_of, of_Z, mul, c0_8.
  rewrite (Z.abs_eq n) by lia. rewrite (Z.sgn_pos n) by lia.
  assert (Hexact : round53 n = (n, 0)).
  { unfold round53. destruct (Z.leb_spec (Z.log2 n + 1) 53); [done | lia]. }
  rewrite Hexact. cbn [mant expo]. rewrite Z.mul_1_l.
  set (M := 3602879701896397) in *.
  assert (Hp : 0 < n * M) by (unfold M; lia).
  rewrite (Z.abs_eq (n * M)), (Z.sgn_pos (n * M)) by lia.
  pose proof (round53_bound (n * M) ltac:(lia)) as Hb.
  pose proof (round53_floor (n * M) ltac:(lia)) as Hf.
  destruct (round53 (n * M)) as [q sh].
  destruct Hb as (Hq & Hsh & Hb), Hf as (Hlow & Hshape).
  assert (Hsh49 : sh <= 49).
  { destruct Hshape as [-> | [_ ->]]; [lia|].
    assert (Z.log2 (n * M) < 102); [|lia].
    apply Z.log2_lt_pow2; [lia|].
    change (2 ^ 102) with (2 ^ 50 * 2 ^ 52). unfold M.
    change (2 ^ 52) with 4503599627370496. nia. }
  unfold to_int. cbn [mant expo]. rewrite Z.mul_1_l.
  destruct (Z.leb_spec 0 (0 + -52 + sh)) as [|_]; [lia|].
  replace (- (0 + -52 + sh)) with (52 - sh) by lia.
  set (S2 := 2 ^ sh) in *. set (D := 2 ^ (52 - sh)).
  assert (HS2 : 0 < S2) by (apply Z.pow_pos_nonneg; lia).
  assert (HD : 0 < D) by (apply Z.pow_pos_nonneg; lia).
  assert (HSD : D * S2 = 2 ^ 52).
  { unfold D, S2. rewrite <- Z.pow_add_r by lia. f_equal. lia. }
  rewrite Z.quot_div_nonneg by lia.
  pose proof (Z.mul_div_le (4 * n) 5 ltac:(lia)) as Hk1.
  pose proof (Z.mul_succ_div_gt (4 * n) 5 ltac:(lia)) as Hk2.
  set (k := 4 * n / 5) in *.
  assert (Hk0 : 0 <= k) by (apply Z.div_pos; lia).
  assert (H5M : 5 * (n * M) = n * (2 ^ 54 + 1)) by (unfold M; lia).
  set (p := n * M) in *.
  change (2 ^ 50) with 1125899906842624 in *.
  change (2 ^ 53) with 9007199254740992 in *.
  change (2 ^ 54) with 18014398509481984 in *.
  change (2 ^ 52) with 4503599627370496 in *.
  symmetry. apply (Z.div_unique q D k (q - k * D)); [|lia].
  left. split.
  - (* k * D <= q *)
    destruct (Z.le_gt_cases (k * D) q) as [|Hgt]; [lia|]. exfalso.
    assert ((q + 1) * S2 <= k * D * S2)
      by (apply Z.mul_le_mono_nonneg_r; lia).
    replace (k * D * S2) with (k * (D * S2)) in * by ring.
    rewrite HSD in *. lia.
  - (* q < (k + 1) * D *)
    destruct (Z.lt_ge_cases q ((k + 1) * D)) as [|Hge]; [lia|]. exfalso.
    assert ((k + 1) * D * S2 <= q * S2)
      by (apply Z.mul_le_mono_nonneg_r; lia).
    replace ((k + 1) * D * S2) with ((k + 1) * (D * S2)) in * by ring.
    rewrite HSD in *. lia.
Qed.

End SplitPointFurther.

Lemma train_rows_is_four_fifths_witness :
  0 <= 2 ^ 21 <= 2 ^ 50 /\
  CoordinateDescent.train_rows_of (2 ^ 21) = 4 * 2 ^ 21 / 5.
Proof.
  split; [lia|]. apply train_rows_is_four_fifths. lia.
Defined.

Lemma pca_load_data_never_draws_last_row_witness :
  exists picked : list (list Z),
    (PCA.load_data 2 3 PCA.cached_default mortgage_world).2 =
      Return (frame_of (column_slice (Matrix 6 picked) 0 3)) /\
    length picked = 2%nat /\
    Forall (fun r => r ∈ [[10; 11; 12; 13; 14; 15]; [20; 21; 22; 23; 24; 25]])
           picked.
Proof.
  destruct (pca_load_data_never_draws_last_row mortgage_world 2 3
              PCA.cached_default
              (Matrix 6 [[10; 11; 12; 13; 14; 15]; [20; 21; 22; 23; 24; 25];
                         [30; 31; 32; 33; 34; 35]]))
    as (picked & Hrun & Hlen & Hin & _);
    [reflexivity | repeat constructor | simpl; lia | lia | lia
    | exact mortgage_world_randint |].
  exists picked. split; [by rewrite Hrun|]. split; [exact Hlen | exact Hin].
Defined.

Lemma loaders_reject_short_datasets_witness :
  (exists msg, (PCA.load_data 5 2 PCA.cached_default one_row_world).2 =
                 Raise Library "ValueError" msg) /\
  (exists msg, (CoordinateDescent.load_data 5 2
                  CoordinateDescent.cached_default one_row_world).2 =
                 Raise Library "ValueError" msg) /\
  (exists df, (PCA.load_data 0 2 PCA.cached_default one_row_world).2 =
                Return df /\ Forall (fun c => c.2 = []) df).
Proof.
  destruct (loaders_reject_short_datasets one_row_world 5 2
              PCA.cached_default (Matrix 6 [[10; 11; 12; 13; 14; 15]]))
    as [Hraise _]; [reflexivity | left; simpl; lia |].
  destruct (Hraise ltac:(lia)) as [[m1 H1] [m2 H2]].
  destruct (loaders_reject_short_datasets one_row_world 0 2
              PCA.cached_default (Matrix 6 [[10; 11; 12; 13; 14; 15]]))
    as [_ Hempty]; [reflexivity | left; simpl; lia |].
  destruct (Hempty eq_refl) as [(df & Hdf & Hrows) _].
  split; [exists m1; by rewrite H1|].
  split; [|exists df; by rewrite Hdf].
  exists m2. change CoordinateDescent.cached_default with PCA.cached_default.
  by rewrite H2.
Defined.

(** ** The labels of the coordinate-descent notebook *)
Section LabelsFurther.
Context {val : Type}.
Implicit Types (w : world val) (X : matrix val).


Lemma py_slice_fmap {A B} (f : A -> B) (l : list A) (lo hi : Z) :
  py_slice (map f l) lo hi = map f (py_slice l lo hi).
Proof.
  unfold py_slice, py_clip. rewrite length_map.
  by rewrite <- fmap_drop, <- fmap_take.
Qed.

Lemma py_slice_from_fmap {A B} (f : A -> B) (l : list A) (lo : Z) :
  py_slice_from (map f l) lo = map f (py_slice_from l lo).
Proof.
  unfold py_slice_from, py_clip. rewrite length_map. by rewrite <- fmap_drop.
Qed.

(** Cell [j] of every row, after the rows went through [f]. *)
Lemma cells_of_mapped_rows (f : list val -> list val) (l : list (list val))
    (j : nat) :
  omap (fun r => r !! j) (f <$> l) = omap (fun r => f r !! j) l.
Proof.
  induction l as [|r l IH]; [done|]. simpl.
  destruct (f r !! j); [f_equal|]; exact IH.
Qed.

Lemma omap_pointwise {A B} (f g : A -> option B) (l : list A) :
  (forall x, f x = g x) -> omap f l = omap g l.
Proof.
  intros Hfg. induction l as [|x l IH]; [done|]. simpl. rewrite Hfg.
  destruct (g x); [f_equal|]; exact IH.
Qed.


(** Column [j] of a slice of rows of a slice of columns. *)
Lemma column_of_slices X (lo hi a b : Z) (j : nat) :
  column_of (row_slice (column_slice X lo hi) a b) j =
  omap (fun r => py_slice r lo hi !! j) (py_slice (rows X) a b).
Proof.
  unfold column_of, row_slice, column_slice. cbn [rows].
  rewrite py_slice_fmap. apply cells_of_mapped_rows.
Qed.

Lemma column_of_slices_from X (lo hi a : Z) (j : nat) :
  column_of (row_slice_from (column_slice X lo hi) a) j =
  omap (fun r => py_slice r lo hi !! j) (py_slice_from (rows X) a).
Proof.
  unfold column_of, row_slice_from, column_slice. cbn [rows].
  rewrite py_slice_from_fmap. apply cells_of_mapped_rows.
Qed.

(** Cell 0 of [r[4:5]] and cell 4 of [r[:n]], for [n >= 5], are cell 4 of
    [r]. *)
Lemma py_slice_4_5 (r : list val) : py_slice r 4 5 !! 0%nat = r !! 4%nat.
Proof.
  unfold py_slice, py_clip. simpl.
  destruct (Z.le_gt_cases 5 (Z.of_nat (length r))) as [Hlen|Hlen].
  - rewrite !Z.min_l by lia.
    rewrite lookup_take_lt, lookup_drop by lia. f_equal.
  - rewrite (lookup_ge_None_2 r 4) by lia.
    apply lookup_ge_None_2. rewrite length_take, length_drop. lia.
Qed.

Lemma py_slice_prefix (r : list val) (n : Z) :
  5 <= n -> py_slice r 0 n !! 4%nat = r !! 4%nat.
Proof.
  intros Hn. rewrite py_slice_take by lia.
  destruct (decide (4 < length r)%nat) as [Hlen|Hlen].
  - apply lookup_take_lt. lia.
  - rewrite (lookup_ge_None_2 r 4) by lia.
    apply lookup_ge_None_2. rewrite length_take. lia.
Qed.

(** The columns that are kept when column 4 is deleted. *)
Lemma all_but_4_from_5 (W : nat) :
  (5 <= W)%nat ->
  CoordinateDescent.all_but_4 W = [0; 1; 2; 3]%nat ++ seq 5 (W - 5).
Proof.
  intros HW. unfold CoordinateDescent.all_but_4.
  replace W with (5 + (W - 5))%nat at 1 by lia.
  rewrite seq_app, filter_app. f_equal.
  generalize (W - 5)%nat. intros k.
  assert (Hgen : forall s, (5 <= s)%nat ->
            filter (fun i => i <> 4%nat) (seq s k) = seq s k).
  { induction k as [|k IH]; intros s Hs; [done|]. simpl.
    rewrite filter_cons_True by lia. f_equal. apply IH. lia. }
  apply Hgen. lia.
Qed.

(** After the deletion, cell 4 of a row is what cell 5 was. *)
Lemma deleted_column_shifts (r : list val) :
  (6 <= length r)%nat ->
  omap (fun i => r !! i) (CoordinateDescent.all_but_4 (length r)) !! 4%nat =
  r !! 5%nat.
Proof.
  intros Hlen. rewrite all_but_4_from_5 by lia.
  destruct r as [|a0 [|a1 [|a2 [|a3 [|a4 [|a5 r]]]]]]; simpl in Hlen; try lia.
  reflexivity.
Qed.

(** X20.  On a cached dataset of six or more columns, read with [ncols >= 5]: the
    label that [load_data] returns is column 5 of the file at the drawn rows
    (column 4 is deleted first, and the label is cut from what is then
    column 4), and the same values are returned once more as feature [fea4]
    of [X_train] and [X_test]. *)
Theorem mortgage_label_is_a_feature w (nrows ncols : Z) (cached : string)
    (X0 : matrix val) :
  files w !! cached = Some (NpyGzFile X0) -> rectangular X0 ->
  (2 <= length (rows X0))%nat -> (6 <= width X0)%nat ->
  0 <= nrows -> 5 <= ncols -> CoordinateDescent.randint_sound w ->
  exists (X_train X_test : @dataframe val) (label_train label_test : list val),
    (CoordinateDescent.load_data nrows ncols cached w).2 =
      Return (X_train, X_test,
              [(fea 0, label_train)], [(fea 0, label_test)]) /\
    X_train !! 4%nat = Some (fea 4, label_train) /\
    X_test !! 4%nat = Some (fea 4, label_test) /\
    Forall2 (fun i v => exists r, rows X0 !! Z.to_nat i = Some r /\
                                  r !! 5%nat = Some v)
      (randint w 0 (Z.of_nat (length (rows X0)) - 1) nrows)
      (label_train ++ label_test).
Proof.
  intros Hf Hrect Hrows HW Hn Hc Hrand.
  set (Xs := select_columns X0 (CoordinateDescent.all_but_4 (width X0))).
  assert (HlenS : length (rows Xs) = length (rows X0))
    by (unfold Xs, select_columns; simpl; by rewrite length_map).
  assert (HwS : width Xs = (width X0 - 1)%nat).
  { unfold Xs, select_columns. simpl. rewrite all_but_4_from_5 by lia.
    rewrite length_app, length_seq. simpl. lia. }
  destruct (drawn_rows w Xs nrows Hrand ltac:(lia) Hn)
    as (picked & Htake & Hlen & Hall).
  rewrite HlenS in Htake, Hall.
  set (idx := randint w 0 (Z.of_nat (length (rows X0)) - 1) nrows) in *.
  set (X' := Matrix (width Xs) picked) in *.
  pose proof (take_rows_column_slice Xs idx X' 4 5 Htake) as Hy.
  pose proof (cd_load_data_mortgage w nrows ncols cached X0 X'
                (column_slice X' 4 5) Hf Hn Hrows) as Hrun.
  cbv zeta in Hrun.
  destruct (draws_sound w 0 (Z.of_nat (length (rows X0)) - 1) nrows Hrand
              ltac:(lia) Hn) as (Hdraws & _ & _).
  rewrite Hdraws in Hrun. specialize (Hrun Htake Hy).
  pose proof (train_rows_bound nrows Hn) as Ht.
  set (t := CoordinateDescent.train_rows_of nrows) in *.
  assert (HwX' : width X' = (width X0 - 1)%nat) by exact HwS.
  assert (HrX' : rows X' = picked) by reflexivity.
  clearbody X'.
  assert (Hw1 : width (column_slice X' 4 5) = 1%nat).
  { unfold column_slice. cbn [width]. rewrite py_slice_length. unfold py_clip.
    rewrite length_replicate, HwX'. simpl. lia. }
  assert (Hw5 : (4 < width (column_slice X' 0 ncols))%nat).
  { unfold column_slice. cbn [width]. rewrite py_slice_length. unfold py_clip.
    rewrite length_replicate, HwX'. destruct (Z.ltb_spec ncols 0); [lia|].
    change (0 <? 0) with false. lia. }
  assert (Hcell : forall r : list val,
            py_slice r 0 ncols !! 4%nat = py_slice r 4 5 !! 0%nat).
  { intros r. by rewrite py_slice_prefix, py_slice_4_5 by lia. }
  exists (frame_of (row_slice (column_slice X' 0 ncols) 0 t)),
         (frame_of (row_slice_from (column_slice X' 0 ncols) t)),
         (column_of (row_slice (column_slice X' 4 5) 0 t) 0),
         (column_of (row_slice_from (column_slice X' 4 5) t) 0).
  split; [|split; [|split]].
  - rewrite Hrun. unfold frame_of at 3 4. cbn [row_slice row_slice_from width].
    rewrite Hw1. reflexivity.
  - unfold dataframe, frame_of. cbn [row_slice width].
    rewrite list_lookup_fmap, lookup_seq_lt by lia. simpl. do 2 f_equal.
    rewrite !column_of_slices. apply omap_pointwise, Hcell.
  - unfold dataframe, frame_of. cbn [row_slice_from width].
    rewrite list_lookup_fmap, lookup_seq_lt by lia. simpl. do 2 f_equal.
    rewrite !column_of_slices_from. apply omap_pointwise, Hcell.
  - rewrite column_of_slices, column_of_slices_from.
    rewrite py_slice_take, py_slice_from_drop by lia.
    rewrite <- omap_app, take_drop.
    rewrite (omap_pointwise _ (fun r => r !! 4%nat)) by apply py_slice_4_5.
    rewrite HrX'. clear Htake Hy Hrun Hlen HrX'. unfold rectangular in Hrect.
    rewrite Forall_forall in Hrect.
    induction Hall as [|i r' idx' l' [Hi Hr'] _ IH]; [constructor|].
    unfold Xs, select_columns in Hr'. cbn [rows] in Hr'.
    rewrite list_lookup_fmap in Hr'.
    destruct (rows X0 !! Z.to_nat i) as [r|] eqn:Hr; [|done].
    simpl in Hr'. injection Hr' as Hsel.
    assert (Hlr : length r = width X0)
      by (apply Hrect; by eapply list_elem_of_lookup_2).
    assert (Hv4 : r' !! 4%nat = r !! 5%nat).
    { rewrite <- Hsel, <- Hlr. apply deleted_column_shifts. lia. }
    destruct (lookup_lt_is_Some_2 r 5 ltac:(lia)) as [v Hv].
    change (omap (fun r0 : list val => r0 !! 4%nat) (r' :: l'))
      with (match r' !! 4%nat with
            | Some y => y :: omap (fun r0 : list val => r0 !! 4%nat) l'
            | None => omap (fun r0 : list val => r0 !! 4%nat) l'
            end).
    rewrite Hv4, Hv. constructor; [|exact IH].
    exists r. by split.
Qed.


(** X22.  A cached dataset of five columns or fewer loads without an error, but
    what is left after deleting column 4 has no column 4 to cut the label
    from: [y_train] and [y_test] have no columns, and the cell that takes
    column 0 of the labels raises NumPy's [IndexError]. *)
Theorem narrow_dataset_has_no_label w (nrows ncols : Z) (cached : string)
    (X0 : matrix val) :
  files w !! cached = Some (NpyGzFile X0) ->
  (2 <= length (rows X0))%nat -> (width X0 <= 5)%nat ->
  0 <= nrows -> CoordinateDescent.randint_sound w ->
  exists (X_train X_test : @dataframe val) (msg : string),
    (CoordinateDescent.load_data nrows ncols cached w).2 =
      Return (X_train, X_test, [], []) /\
    @CoordinateDescent.y_cudf val [] = Raise Library "IndexError" msg.
Proof.
  intros Hf Hrows HW Hn Hrand.
  set (Xs := select_columns X0 (CoordinateDescent.all_but_4 (width X0))).
  assert (HlenS : length (rows Xs) = length (rows X0))
    by (unfold Xs, select_columns; simpl; by rewrite length_map).
  assert (HwS : (width Xs <= 4)%nat).
  { unfold Xs, select_columns. simpl.
    destruct (width X0) as [|[|[|[|[|[|W]]]]]]; simpl; lia. }
  destruct (drawn_rows w Xs nrows Hrand ltac:(lia) Hn)
    as (picked & Htake & _ & _).
  rewrite HlenS in Htake.
  set (X' := Matrix (width Xs) picked) in *.
  pose proof (take_rows_column_slice Xs _ X' 4 5 Htake) as Hy.
  pose proof (cd_load_data_mortgage w nrows ncols cached X0 X'
                (column_slice X' 4 5) Hf Hn Hrows) as Hrun.
  cbv zeta in Hrun.
  destruct (draws_sound w 0 (Z.of_nat (length (rows X0)) - 1) nrows Hrand
              ltac:(lia) Hn) as (Hdraws & _ & _).
  rewrite Hdraws in Hrun. specialize (Hrun Htake Hy).
  assert (HwX' : (width X' <= 4)%nat) by exact HwS.
  clearbody X'.
  assert (Hw0 : width (column_slice X' 4 5) = 0%nat).
  { unfold column_slice. cbn [width]. rewrite py_slice_length. unfold py_clip.
    rewrite length_replicate. simpl. lia. }
  eexists _, _, _. split; [|reflexivity].
  rewrite Hrun. unfold frame_of at 3 4. cbn [row_slice row_slice_from width].
  rewrite Hw0. reflexivity.
Qed.

End LabelsFurther.

Lemma mortgage_label_is_a_feature_witness :
  exists (X_train X_test : @dataframe Z) (label_train label_test : list Z),
    (CoordinateDescent.load_data 2 5 CoordinateDescent.cached_default
       mortgage_world).2 =
      Return (X_train, X_test,
              [(fea 0, label_train)], [(fea 0, label_test)]) /\
    X_train !! 4%nat = Some (fea 4, label_train) /\
    X_test !! 4%nat = Some (fea 4, label_test).
Proof.
  destruct (mortgage_label_is_a_feature mortgage_world 2 5
              CoordinateDescent.cached_default
              (Matrix 6 [[10; 11; 12; 13; 14; 15]; [20; 21; 22; 23; 24; 25];
                         [30; 31; 32; 33; 34; 35]]))
    as (X_train & X_test & label_train & label_test & Hrun & Htr & Hte & _);
    [reflexivity | repeat constructor | simpl; lia | simpl; lia | lia | lia
    | exact mortgage_world_randint |].
  exists X_train, X_test, label_train, label_test.
  split; [exact Hrun|]. split; [exact Htr | exact Hte].
Defined.


Lemma narrow_dataset_has_no_label_witness :
  exists (X_train X_test : @dataframe Z),
    (CoordinateDescent.load_data 3 2 CoordinateDescent.cached_default
       narrow_world).2 = Return (X_train, X_test, [], []).
Proof.
  destruct (narrow_dataset_has_no_label narrow_world 3 2
              CoordinateDescent.cached_default
              (Matrix 5 [[10; 11; 12; 13; 14]; [20; 21; 22; 23; 24];
                         [30; 31; 32; 33; 34]]))
    as (X_train & X_test & msg & Hrun & _);
    [reflexivity | simpl; lia | simpl; lia | lia | exact bare_world_randint |].
  exists X_train, X_test. exact Hrun.
Defined.
